(** * claude-switch: the configuration registry, its validator and its storage
    primitives, embedded in Rocq.

    The development follows the packages of the repository:
    - [Utf8], [Json], [Rfc3339]: the parts of Go's [unicode/utf8],
      [encoding/json] and [time] libraries that the program calls,
    - [OS]: the file-system calls of package [os], over an explicit world,
    - [Validation]: [internal/validation],
    - [Storage]: [internal/storage/storage.go],
    - [Config]: [internal/config/manager.go],
    - [Editor]: the choice of the editor in [internal/editor],
    - [Strings]: [strings.TrimSpace],
    - [Cmd]: the temporary file and the last steps of [cmd/add.go].

    Go strings are byte sequences: they are [string] here (a list of 8-bit
    [ascii]); a [[]byte] handed to a library routine is a [list ascii]. *)

From Stdlib Require Import Ascii String NArith ZArith Lia List Bool DecimalString.
From stdpp Require Import gmap strings list fin_maps.

Set Warnings "-register-all".
Set Default Proof Using "Type".
Set Default Goal Selector "1".

Local Open Scope string_scope.
Local Open Scope list_scope.

(* ===================================================================== *)
(** ** Errors                                                              *)
(* ===================================================================== *)

(** Error numbers that the modelled system calls report. *)
Inductive errno : Type :=
  | ENOENT   (* no such file or directory *)
  | EACCES   (* path resolution refused *)
  | EIO      (* transfer failed *)
  | ENOSPC.  (* no room left while writing *)

(** A Go [error] value.  [PathError] is what package [os] returns;
    [Wrap msg e] is [fmt.Errorf(msg + ": %w", e)]; [Msg] is an error made of a
    message only.  Of [encoding/json], [JsonSyntaxError] is its
    [*SyntaxError] and [JsonUnmarshalError] stands for every error of the
    decoding phase (an [*UnmarshalTypeError], or the error of a type's own
    [UnmarshalJSON]). *)
Inductive error : Type :=
  | PathError (op : string) (path : string) (e : errno)
  | JsonSyntaxError
  | JsonUnmarshalError
  | Msg (msg : string)
  | Wrap (msg : string) (inner : error).

Inductive result (A : Type) : Type :=
  | Ok (a : A)
  | Err (e : error).
Arguments Ok {A} a.
Arguments Err {A} e.

#[global] Instance errno_eq_dec : EqDecision errno.
Proof. solve_decision. Defined.

#[global] Instance error_eq_dec : EqDecision error.
Proof. solve_decision. Defined.

#[global] Instance result_eq_dec {A} `{EqDecision A} : EqDecision (result A).
Proof. solve_decision. Defined.

(** [os.IsNotExist]: true for an error of package [os] whose number is
    [ENOENT]; it does not look through [fmt.Errorf] wrappers. *)
Definition IsNotExist (e : error) : bool :=
  match e with
  | PathError _ _ ENOENT => true
  | _ => false
  end.

(* ===================================================================== *)
(** ** unicode/utf8                                                        *)
(* ===================================================================== *)

Module Utf8.

Local Open Scope N_scope.

Definition RuneError : N := 0xFFFD.
Definition MaxRune : N := 0x10FFFF.
Definition RuneSelf : N := 0x80.

Definition byteN (c : ascii) : N := N_of_ascii c.
Definition Nbyte (n : N) : ascii := ascii_of_N n.

(** The table [first] of the library, as (size, lowest and highest
    accepted second byte); [None] is the entry [xx] of an invalid lead
    byte.  Bytes below [RuneSelf] are handled before the table is read. *)
Definition first (p0 : N) : option (nat * N * N) :=
  if p0 <? 0xC2 then None
  else if p0 <? 0xE0 then Some (2%nat, 0x80, 0xBF)
  else if p0 =? 0xE0 then Some (3%nat, 0xA0, 0xBF)
  else if p0 <? 0xED then Some (3%nat, 0x80, 0xBF)
  else if p0 =? 0xED then Some (3%nat, 0x80, 0x9F)
  else if p0 <? 0xF0 then Some (3%nat, 0x80, 0xBF)
  else if p0 =? 0xF0 then Some (4%nat, 0x90, 0xBF)
  else if p0 <? 0xF4 then Some (4%nat, 0x80, 0xBF)
  else if p0 =? 0xF4 then Some (4%nat, 0x80, 0x8F)
  else None.

Definition cont (b : N) : bool := (0x80 <=? b) && (b <=? 0xBF).

(** [utf8.DecodeRune]: the first rune of [p] and its width in bytes;
    [(RuneError, 1)] for an invalid or truncated encoding. *)
Definition DecodeRune (p : list ascii) : N * nat :=
  match p with
  | [] => (RuneError, 0%nat)
  | c0 :: p1 =>
    let p0 := byteN c0 in
    if p0 <? RuneSelf then (p0, 1%nat)
    else
      match first p0 with
      | None => (RuneError, 1%nat)
      | Some (sz, lo, hi) =>
        if (length p <? sz)%nat then (RuneError, 1%nat)
        else
          match p1 with
          | [] => (RuneError, 1%nat)
          | c1 :: p2 =>
            let b1 := byteN c1 in
            if (b1 <? lo) || (hi <? b1) then (RuneError, 1%nat)
            else if (sz <=? 2)%nat then
              (N.lor (N.shiftl (N.land p0 0x1F) 6) (N.land b1 0x3F), 2%nat)
            else
              match p2 with
              | [] => (RuneError, 1%nat)
              | c2 :: p3 =>
                let b2 := byteN c2 in
                if negb (cont b2) then (RuneError, 1%nat)
                else if (sz <=? 3)%nat then
                  (N.lor (N.lor (N.shiftl (N.land p0 0x0F) 12)
                                (N.shiftl (N.land b1 0x3F) 6))
                         (N.land b2 0x3F), 3%nat)
                else
                  match p3 with
                  | [] => (RuneError, 1%nat)
                  | c3 :: _ =>
                    let b3 := byteN c3 in
                    if negb (cont b3) then (RuneError, 1%nat)
                    else
                      (N.lor (N.lor (N.lor (N.shiftl (N.land p0 0x07) 18)
                                           (N.shiftl (N.land b1 0x3F) 12))
                                    (N.shiftl (N.land b2 0x3F) 6))
                             (N.land b3 0x3F), 4%nat)
                  end
              end
          end
      end
  end.

Definition IsSurrogate (r : N) : bool := (0xD800 <=? r) && (r <? 0xE000).

(** [utf8.EncodeRune] (as [utf8.AppendRune] on an empty slice): runes
    beyond [MaxRune] and surrogates are written as [RuneError]. *)
Definition EncodeRune (r : N) : list ascii :=
  if r <=? 0x7F then [Nbyte r]
  else if r <=? 0x7FF then
    [Nbyte (N.lor 0xC0 (N.shiftr r 6));
     Nbyte (N.lor 0x80 (N.land r 0x3F))]
  else if (MaxRune <? r) || IsSurrogate r then
    [Nbyte 0xEF; Nbyte 0xBF; Nbyte 0xBD]
  else if r <=? 0xFFFF then
    [Nbyte (N.lor 0xE0 (N.shiftr r 12));
     Nbyte (N.lor 0x80 (N.land (N.shiftr r 6) 0x3F));
     Nbyte (N.lor 0x80 (N.land r 0x3F))]
  else
    [Nbyte (N.lor 0xF0 (N.shiftr r 18));
     Nbyte (N.lor 0x80 (N.land (N.shiftr r 12) 0x3F));
     Nbyte (N.lor 0x80 (N.land (N.shiftr r 6) 0x3F));
     Nbyte (N.lor 0x80 (N.land r 0x3F))].

(** [utf8.Valid], by repeated decoding. *)
Fixpoint valid_fuel (fuel : nat) (p : list ascii) : bool :=
  match p with
  | [] => true
  | _ :: _ =>
    match fuel with
    | O => false
    | S fuel' =>
      let '(r, size) := DecodeRune p in
      if (r =? RuneError) && (size =? 1)%nat then false
      else valid_fuel fuel' (drop size p)
    end
  end.

Definition Valid (p : list ascii) : bool := valid_fuel (length p) p.

Definition ValidString (s : string) : bool := Valid (list_ascii_of_string s).

End Utf8.

(* ===================================================================== *)
(** ** encoding/json: reading                                              *)
(* ===================================================================== *)

Module Json.

Local Open Scope char_scope.

(** A parsed JSON text.  A number keeps its literal; a string keeps the
    bytes of its token between the quotes ([raw]) next to its unquoted
    content; an object keeps its members in document order. *)
Inductive value : Type :=
  | JNull
  | JBool (b : bool)
  | JNumber (lit : list ascii)
  | JString (raw : list ascii) (s : list ascii)
  | JArray (elems : list value)
  | JObject (members : list (list ascii * value)).

Definition dquote : ascii := "034".
Definition backslash : ascii := "\".
Definition newline : ascii := "010".

Definition ascii_eqb (a b : ascii) : bool := Ascii.eqb a b.

(** The scanner's [isSpace]. *)
Definition isSpace (c : ascii) : bool :=
  ascii_eqb c " " || ascii_eqb c "009" || ascii_eqb c "013" || ascii_eqb c "010".

Fixpoint skip_ws (s : list ascii) : list ascii :=
  match s with
  | c :: r => if isSpace c then skip_ws r else s
  | [] => []
  end.

Definition isDigit (c : ascii) : bool :=
  let n := Utf8.byteN c in ((48 <=? n) && (n <=? 57))%N.

Definition hexval (c : ascii) : option N :=
  let n := Utf8.byteN c in
  (if (48 <=? n) && (n <=? 57) then Some (n - 48)
   else if (97 <=? n) && (n <=? 102) then Some (n - 97 + 10)
   else if (65 <=? n) && (n <=? 70) then Some (n - 65 + 10)
   else None)%N.

(** [getu4] of decode.go on the four digits after a backslash and [u]. *)
Definition getu4 (h1 h2 h3 h4 : ascii) : option N :=
  match hexval h1, hexval h2, hexval h3, hexval h4 with
  | Some a, Some b, Some c, Some d => Some (a * 4096 + b * 256 + c * 16 + d)%N
  | _, _, _, _ => None
  end.

(** [utf16.DecodeRune]: the rune of a surrogate pair, [RuneError]
    (U+FFFD) when the two halves do not form one. *)
Definition utf16_DecodeRune (r1 r2 : N) : N :=
  (if (0xD800 <=? r1) && (r1 <? 0xDC00) && (0xDC00 <=? r2) && (r2 <? 0xE000)
   then N.lor (N.shiftl (r1 - 0xD800) 10) (r2 - 0xDC00) + 0x10000
   else Utf8.RuneError)%N.

(** The rune at the head of [s], when [s] starts with a backslash-u
    escape ([getu4] returns -1 otherwise). *)
Definition peek_u4 (s : list ascii) : option N :=
  match s with
  | "\" :: "u" :: h1 :: h2 :: h3 :: h4 :: _ => getu4 h1 h2 h3 h4
  | _ => None
  end.

(** What the string loop returns after one more piece, read from the
    bytes [raw] and standing for the bytes [out]. *)
Definition emit (raw out : list ascii) (k : option (list ascii * list ascii * list ascii))
  : option (list ascii * list ascii * list ascii) :=
  match k with
  | Some (raw', out', rest) => Some (raw ++ raw', out ++ out', rest)
  | None => None
  end.

(** The body of a string token, after its opening quote: the scanner's
    string states fused with [unquoteBytes].  Returns the raw bytes up to
    the closing quote, the unquoted content and the input after the
    closing quote.  Control characters and unknown escapes are syntax
    errors; bytes that are not UTF-8 are replaced by U+FFFD; a surrogate
    escape is joined with a following low surrogate escape or replaced by
    U+FFFD. *)
Fixpoint string_body (s : list ascii)
  : option (list ascii * list ascii * list ascii) :=
  match s with
  | [] => None
  | c :: r =>
    if ascii_eqb c dquote then Some ([], [], r)
    else if ascii_eqb c backslash then
      match r with
      | [] => None
      | e :: r' =>
        if ascii_eqb e dquote || ascii_eqb e backslash || ascii_eqb e "/"
        then emit [c; e] [e] (string_body r')
        else if ascii_eqb e "b" then emit [c; e] ["008"] (string_body r')
        else if ascii_eqb e "f" then emit [c; e] ["012"] (string_body r')
        else if ascii_eqb e "n" then emit [c; e] ["010"] (string_body r')
        else if ascii_eqb e "r" then emit [c; e] ["013"] (string_body r')
        else if ascii_eqb e "t" then emit [c; e] ["009"] (string_body r')
        else if ascii_eqb e "u" then
          match r' with
          | h1 :: h2 :: h3 :: h4 :: r4 =>
            match getu4 h1 h2 h3 h4 with
            | None => None
            | Some rr =>
              if Utf8.IsSurrogate rr then
                match peek_u4 r4 with
                | Some rr1 =>
                  let dec := utf16_DecodeRune rr rr1 in
                  if (dec =? Utf8.RuneError)%N
                  then emit [c; e; h1; h2; h3; h4]
                            (Utf8.EncodeRune Utf8.RuneError) (string_body r4)
                  else
                    match r4 with
                    | b :: u :: k1 :: k2 :: k3 :: k4 :: r10 =>
                      emit [c; e; h1; h2; h3; h4; b; u; k1; k2; k3; k4]
                           (Utf8.EncodeRune dec) (string_body r10)
                    | _ => None
                    end
                | None =>
                  emit [c; e; h1; h2; h3; h4]
                       (Utf8.EncodeRune Utf8.RuneError) (string_body r4)
                end
              else emit [c; e; h1; h2; h3; h4] (Utf8.EncodeRune rr) (string_body r4)
            end
          | _ => None
          end
        else None
      end
    else if (Utf8.byteN c <? 32)%N then None
    else if (Utf8.byteN c <? Utf8.RuneSelf)%N then emit [c] [c] (string_body r)
    else
      let '(rr, size) := Utf8.DecodeRune s in
      match size, r with
      | 2%nat, c1 :: r2 => emit [c; c1] (Utf8.EncodeRune rr) (string_body r2)
      | 3%nat, c1 :: c2 :: r3 => emit [c; c1; c2] (Utf8.EncodeRune rr) (string_body r3)
      | 4%nat, c1 :: c2 :: c3 :: r4 =>
        emit [c; c1; c2; c3] (Utf8.EncodeRune rr) (string_body r4)
      | _, _ => emit [c] (Utf8.EncodeRune rr) (string_body r)
      end
  end.

Fixpoint span_digits (s : list ascii) : list ascii * list ascii :=
  match s with
  | c :: r =>
    if isDigit c then let '(ds, rest) := span_digits r in (c :: ds, rest)
    else ([], s)
  | [] => ([], [])
  end.

(** A number token: an optional minus sign; a zero, or a non-zero digit
    followed by digits; optionally a dot and at least one digit; optionally
    an exponent mark, a sign and at least one digit.  Returns the literal
    and the rest of the input. *)
Definition number (s : list ascii) : option (list ascii * list ascii) :=
  let '(sign, s1) :=
    match s with
    | "-" :: r => (["-"], r)
    | _ => ([], s)
    end in
  let int_part :=
    match s1 with
    | "0" :: r => Some (["0"], r)
    | c :: r =>
      if isDigit c then let '(ds, rest) := span_digits r in Some (c :: ds, rest)
      else None
    | [] => None
    end in
  match int_part with
  | None => None
  | Some (ip, s2) =>
    let frac_part :=
      match s2 with
      | "." :: r =>
        match span_digits r with
        | ([], _) => None
        | (ds, rest) => Some ("." :: ds, rest)
        end
      | _ => Some ([], s2)
      end in
    match frac_part with
    | None => None
    | Some (fp, s3) =>
      let exp_part :=
        match s3 with
        | e :: r =>
          if ascii_eqb e "e" || ascii_eqb e "E" then
            let '(esign, r1) :=
              match r with
              | "+" :: r' => (["+"], r')
              | "-" :: r' => (["-"], r')
              | _ => ([], r)
              end in
            match span_digits r1 with
            | ([], _) => None
            | (ds, rest) => Some (e :: esign ++ ds, rest)
            end
          else Some ([], s3)
        | [] => Some ([], s3)
        end in
      match exp_part with
      | None => None
      | Some (ep, s4) => Some (sign ++ ip ++ fp ++ ep, s4)
      end
    end
  end.

(** [maxNestingDepth] of scanner.go. *)
Definition maxNestingDepth : N := 10000.

(** One JSON value at the head of [s] (no leading white space), at
    nesting depth [depth]; [elements] reads the rest of an array after its
    opening bracket and [members] the rest of an object, both starting at
    a value (resp. a key).  [fuel] bounds the number of calls. *)
Fixpoint parse_value (fuel : nat) (depth : N) (s : list ascii) {struct fuel}
  : option (value * list ascii) :=
  match fuel with
  | O => None
  | S fuel' =>
    match s with
    | "{" :: r =>
      if (maxNestingDepth <? depth + 1)%N then None
      else
        match skip_ws r with
        | "}" :: r' => Some (JObject [], r')
        | r' =>
          match members fuel' (depth + 1)%N r' with
          | Some (ms, rest) => Some (JObject ms, rest)
          | None => None
          end
        end
    | "[" :: r =>
      if (maxNestingDepth <? depth + 1)%N then None
      else
        match skip_ws r with
        | "]" :: r' => Some (JArray [], r')
        | r' =>
          match elements fuel' (depth + 1)%N r' with
          | Some (vs, rest) => Some (JArray vs, rest)
          | None => None
          end
        end
    | "t" :: "r" :: "u" :: "e" :: r => Some (JBool true, r)
    | "f" :: "a" :: "l" :: "s" :: "e" :: r => Some (JBool false, r)
    | "n" :: "u" :: "l" :: "l" :: r => Some (JNull, r)
    | c :: r =>
      if ascii_eqb c dquote then
        match string_body r with
        | Some (raw, str, rest) => Some (JString raw str, rest)
        | None => None
        end
      else
        match number s with
        | Some (lit, rest) => Some (JNumber lit, rest)
        | None => None
        end
    | [] => None
    end
  end
with elements (fuel : nat) (depth : N) (s : list ascii) {struct fuel}
  : option (list value * list ascii) :=
  match fuel with
  | O => None
  | S fuel' =>
    match parse_value fuel' depth s with
    | None => None
    | Some (v, rest) =>
      match skip_ws rest with
      | "]" :: r => Some ([v], r)
      | "," :: r =>
        match elements fuel' depth (skip_ws r) with
        | Some (vs, rest') => Some (v :: vs, rest')
        | None => None
        end
      | _ => None
      end
    end
  end
with members (fuel : nat) (depth : N) (s : list ascii) {struct fuel}
  : option (list (list ascii * value) * list ascii) :=
  match fuel with
  | O => None
  | S fuel' =>
    match s with
    | q :: r =>
      if ascii_eqb q dquote then
        match string_body r with
        | None => None
        | Some (_, key, rest) =>
          match skip_ws rest with
          | ":" :: r1 =>
            match parse_value fuel' depth (skip_ws r1) with
            | None => None
            | Some (v, rest1) =>
              match skip_ws rest1 with
              | "}" :: r2 => Some ([(key, v)], r2)
              | "," :: r2 =>
                match members fuel' depth (skip_ws r2) with
                | Some (ms, rest2) => Some ((key, v) :: ms, rest2)
                | None => None
                end
              | _ => None
              end
            end
          | _ => None
          end
        end
      else None
    | [] => None
    end
  end.

(** A whole JSON text: white space, one value, white space, end of
    input ([checkValid]).  Each call of the three functions above is
    preceded by at least one consumed byte every second call, hence the
    fuel. *)
Definition parse (data : list ascii) : option value :=
  match parse_value (2 * length data + 2) 0%N (skip_ws data) with
  | Some (v, rest) =>
    match skip_ws rest with
    | [] => Some v
    | _ :: _ => None
    end
  | None => None
  end.

(** A printed value that the parser reads back as [v], whatever
    follows it: the text starts at its first byte and, with some fuel, one
    value is read from it. *)
Definition reads_as (depth : N) (bytes : list ascii) (v : value) : Prop :=
  (forall r, skip_ws (bytes ++ r) = bytes ++ r)
  /\ (forall g r, parse_value (S g) depth (bytes ++ r) = Some (v, r)).

(** *** Decoding into [interface{}] and into [map[string]interface{}] *)

Definition digits_value (ds : list ascii) : Z :=
  fold_left (fun acc c => acc * 10 + (Z.of_N (Utf8.byteN c) - 48))%Z ds 0%Z.

(** The decimal mantissa and exponent of a number literal. *)
Definition decompose (lit : list ascii) : Z * Z :=
  let s1 := match lit with "-" :: r => r | _ => lit end in
  let '(ip, s2) := span_digits s1 in
  let '(fp, s3) :=
    match s2 with
    | "." :: r => span_digits r
    | _ => ([], s2)
    end in
  let e :=
    match s3 with
    | _ :: "-" :: r => (- digits_value (fst (span_digits r)))%Z
    | _ :: "+" :: r => digits_value (fst (span_digits r))
    | _ :: r => digits_value (fst (span_digits r))
    | [] => 0%Z
    end in
  (digits_value (ip ++ fp), (e - Z.of_nat (length fp))%Z).

(** Decoding a number into [interface{}] goes through
    [strconv.ParseFloat(lit, 64)], which fails when the literal rounds to
    an infinity: when its magnitude reaches the midpoint between the
    largest [float64] and [2^1024]. *)
Definition float64_limit : Z := (2 ^ 1024 - 2 ^ 970)%Z.

Definition ParseFloat_ok (lit : list ascii) : bool :=
  let '(m, e) := decompose lit in
  (if 0 <=? e then m * 10 ^ e <? float64_limit
   else m <? float64_limit * 10 ^ (- e))%Z.

Fixpoint numbers_ok (v : value) : bool :=
  match v with
  | JNumber lit => ParseFloat_ok lit
  | JArray vs => forallb numbers_ok vs
  | JObject ms => forallb (fun kv => numbers_ok (snd kv)) ms
  | _ => true
  end.

(** [json.Unmarshal(data, &x)] for [var x interface{}]. *)
Definition Unmarshal_any (data : list ascii) : result value :=
  match parse data with
  | None => Err JsonSyntaxError
  | Some v => if numbers_ok v then Ok v else Err JsonUnmarshalError
  end.

(** [json.Unmarshal(data, &m)] for [var m map[string]interface{}], [m]
    being nil before the call: [None] is the nil map, which the JSON
    [null] leaves in place. *)
Definition Unmarshal_map (data : list ascii)
  : result (option (list (list ascii * value))) :=
  match parse data with
  | None => Err JsonSyntaxError
  | Some JNull => Ok None
  | Some (JObject ms) =>
    if numbers_ok (JObject ms) then Ok (Some ms) else Err JsonUnmarshalError
  | Some _ => Err JsonUnmarshalError
  end.

(** [json.Unmarshal(data, &raw)] for [var raw json.RawMessage]: the
    syntax check only. *)
Definition Unmarshal_raw (data : list ascii) : result (list ascii) :=
  match parse data with
  | None => Err JsonSyntaxError
  | Some _ => Ok data
  end.

(** *** Writing strings *)

Definition hex (n : N) : ascii :=
  (if n <? 10 then Utf8.Nbyte (48 + n) else Utf8.Nbyte (97 + (n - 10)))%N.

(** [htmlSafeSet]: the printable ASCII bytes that are copied as they
    are. *)
Definition htmlSafe (c : ascii) : bool :=
  let n := Utf8.byteN c in
  ((32 <=? n) && (n <? 128))%N
  && negb (ascii_eqb c dquote) && negb (ascii_eqb c backslash)
  && negb (ascii_eqb c "<") && negb (ascii_eqb c ">") && negb (ascii_eqb c "&").

Definition escape_ascii (c : ascii) : list ascii :=
  if htmlSafe c then [c]
  else if ascii_eqb c backslash || ascii_eqb c dquote then [backslash; c]
  else if ascii_eqb c "008" then [backslash; "b"]
  else if ascii_eqb c "012" then [backslash; "f"]
  else if ascii_eqb c "010" then [backslash; "n"]
  else if ascii_eqb c "013" then [backslash; "r"]
  else if ascii_eqb c "009" then [backslash; "t"]
  else [backslash; "u"; "0"; "0";
        hex (N.shiftr (Utf8.byteN c) 4); hex (N.land (Utf8.byteN c) 0xF)].

(** The loop of [appendString] with [escapeHTML] set: bytes that are not
    UTF-8 become the escape of U+FFFD, U+2028 and U+2029 are escaped, any
    other rune is copied. *)
Fixpoint string_bytes (s : list ascii) : list ascii :=
  match s with
  | [] => []
  | c :: r =>
    if (Utf8.byteN c <? Utf8.RuneSelf)%N then escape_ascii c ++ string_bytes r
    else
      let '(rn, size) := Utf8.DecodeRune s in
      if (rn =? Utf8.RuneError)%N && (size =? 1)%nat then
        [backslash; "u"; "f"; "f"; "f"; "d"] ++ string_bytes r
      else
        match size, r with
        | 2%nat, c1 :: r2 => [c; c1] ++ string_bytes r2
        | 3%nat, c1 :: c2 :: r3 =>
          if (rn =? 0x2028)%N || (rn =? 0x2029)%N
          then [backslash; "u"; "2"; "0"; "2"; hex (N.land rn 0xF)] ++ string_bytes r3
          else [c; c1; c2] ++ string_bytes r3
        | 4%nat, c1 :: c2 :: c3 :: r4 => [c; c1; c2; c3] ++ string_bytes r4
        | _, _ => [c] ++ string_bytes r
        end
  end.

Definition appendString (s : list ascii) : list ascii :=
  [dquote] ++ string_bytes s ++ [dquote].

(** *** Matching object keys with struct fields *)

(** [foldName], as far as a comparison with an ASCII field name can
    tell: ASCII letters are folded to upper case, and so are the two runes
    outside ASCII whose fold class has an ASCII letter, U+017F (long s)
    and U+212A (the Kelvin sign). *)
Fixpoint foldName (k : list ascii) : list ascii :=
  match k with
  | [] => []
  | "197" :: "191" :: r => "S" :: foldName r
  | "226" :: "132" :: "170" :: r => "K" :: foldName r
  | c :: r =>
    let n := Utf8.byteN c in
    (if (97 <=? n) && (n <=? 122) then Utf8.Nbyte (n - 32) else c)%N :: foldName r
  end.

Definition key_is (k : list ascii) (field : string) : bool :=
  if decide (foldName k = foldName (list_ascii_of_string field)) then true else false.

End Json.

(* ===================================================================== *)
(** ** time: the JSON form of a [time.Time]                                *)
(* ===================================================================== *)

Module Rfc3339.

Local Open Scope char_scope.
Local Open Scope Z_scope.

(** A [time.Time], as the civil date and clock reading that [Format]
    prints, in a zone [zone] minutes east of UTC.  The monotonic clock
    reading and the name of the zone are not part of the model. *)
Record Time : Type := mkTime {
  year : Z;
  month : Z;
  day : Z;
  hour : Z;
  minute : Z;
  second : Z;
  nanosecond : Z;
  zone : Z
}.

#[global] Instance Time_eq_dec : EqDecision Time.
Proof. solve_decision. Defined.

(** The zero [Time]: January 1, year 1, 00:00:00 UTC. *)
Definition zeroTime : Time := mkTime 1 1 1 0 0 0 0 0.

Definition isLeap (y : Z) : bool :=
  (y mod 4 =? 0) && (negb (y mod 100 =? 0) || (y mod 400 =? 0)).

Definition daysIn (m y : Z) : Z :=
  if m =? 2 then (if isLeap y then 29 else 28)
  else if (m =? 4) || (m =? 6) || (m =? 9) || (m =? 11) then 30
  else 31.

(** The values a [time.Time] can take. *)
Definition wellformed (t : Time) : Prop :=
  1 <= month t <= 12 /\ 1 <= day t <= daysIn (month t) (year t) /\
  0 <= hour t <= 23 /\ 0 <= minute t <= 59 /\ 0 <= second t <= 59 /\
  0 <= nanosecond t <= 999999999.

Definition digit (n : Z) : ascii := Utf8.Nbyte (Z.to_N (48 + n)).

(** [appendInt] with a width, for a value that fits the width. *)
Fixpoint appendInt (width : nat) (n : Z) : list ascii :=
  match width with
  | O => []
  | S w => appendInt w (n / 10) ++ [digit (n mod 10)]
  end.

Fixpoint trim0 (rev_digits : list ascii) : list ascii :=
  match rev_digits with
  | "0" :: r => trim0 r
  | _ => rev_digits
  end.

(** [appendNano] for the layout [.999999999]: nothing for zero, else
    nine digits without their trailing zeros. *)
Definition appendNano (ns : Z) : list ascii :=
  if ns =? 0 then []
  else "." :: rev (trim0 (rev (appendInt 9 ns))).

Definition appendZone (z : Z) : list ascii :=
  if z =? 0 then ["Z"]
  else (if z <? 0 then "-" else "+")
         :: appendInt 2 (Z.abs z / 60) ++ [":"] ++ appendInt 2 (Z.abs z mod 60).

(** [appendFormatRFC3339] with nanoseconds. *)
Definition format (t : Time) : list ascii :=
  appendInt 4 (year t) ++ ["-"] ++ appendInt 2 (month t) ++ ["-"]
  ++ appendInt 2 (day t) ++ ["T"] ++ appendInt 2 (hour t) ++ [":"]
  ++ appendInt 2 (minute t) ++ [":"] ++ appendInt 2 (second t)
  ++ appendNano (nanosecond t) ++ appendZone (zone t).

(** [Time.MarshalJSON]: the quoted strict RFC 3339 form, refused for a
    year that is not four digits wide or a zone of 24 hours or more. *)
Definition MarshalJSON (t : Time) : result (list ascii) :=
  if (year t <? 0) || (9999 <? year t) then
    Err (Msg "Time.MarshalJSON: year outside of range [0,9999]")
  else if 24 <=? Z.abs (zone t) / 60 then
    Err (Msg "Time.MarshalJSON: timezone hour outside of range [0,23]")
  else Ok ([Json.dquote] ++ format t ++ [Json.dquote]).

(** The time stamps that [Time.MarshalJSON] accepts. *)
Definition marshals (t : Time) : Prop :=
  0 <= year t <= 9999 /\ Z.abs (zone t) / 60 < 24.

(** [parseUint] of [parseRFC3339]: decimal digits within a range. *)
Definition parseUint (s : list ascii) (lo hi : Z) : option Z :=
  if forallb Json.isDigit s then
    let x := Json.digits_value s in
    if (x <? lo) || (hi <? x) then None else Some x
  else None.

Definition char_at (s : list ascii) (i : nat) (c : ascii) : bool :=
  match s !! i with
  | Some c' => Json.ascii_eqb c' c
  | None => false
  end.

Definition slice (s : list ascii) (i j : nat) : list ascii :=
  take (j - i) (drop i s).

(** The fraction of a second and the rest of the input: a dot followed
    by digits, of which nine at most are read. *)
Definition parseFraction (s : list ascii) : Z * list ascii :=
  match s with
  | "." :: r =>
    match Json.span_digits r with
    | ([], _) => (0, s)
    | (ds, rest) =>
      let ds9 := take 9 ds in
      (Json.digits_value ds9 * 10 ^ Z.of_nat (9 - length ds9), rest)
    end
  | _ => (0, s)
  end.

(** The zone: [Z], or a sign, two digits of hours, a colon and two
    digits of minutes. *)
Definition parseZone (s : list ascii) : option Z :=
  match s with
  | ["Z"] => Some 0
  | [sg; h1; h2; c; m1; m2] =>
    match parseUint [h1; h2] 0 23, parseUint [m1; m2] 0 59 with
    | Some hr, Some mm =>
      if (Json.ascii_eqb sg "-" || Json.ascii_eqb sg "+") && Json.ascii_eqb c ":"
      then Some (if Json.ascii_eqb sg "-" then - (hr * 60 + mm) else hr * 60 + mm)
      else None
    | _, _ => None
    end
  | _ => None
  end.

(** [parseRFC3339]. *)
Definition parseRFC3339 (s : list ascii) : option Time :=
  if (length s <? 19)%nat then None
  else
    match parseUint (slice s 0 4) 0 9999, parseUint (slice s 5 7) 1 12 with
    | Some y, Some mo =>
      match parseUint (slice s 8 10) 1 (daysIn mo y),
            parseUint (slice s 11 13) 0 23,
            parseUint (slice s 14 16) 0 59,
            parseUint (slice s 17 19) 0 59 with
      | Some d, Some h, Some mi, Some sec =>
        if char_at s 4 "-" && char_at s 7 "-" && char_at s 10 "T"
           && char_at s 13 ":" && char_at s 16 ":"
        then
          let '(ns, rest) := parseFraction (drop 19 s) in
          match parseZone rest with
          | Some z => Some (mkTime y mo d h mi sec ns z)
          | None => None
          end
        else None
      | _, _, _, _ => None
      end
    | _, _ => None
    end.

(** [Time.UnmarshalJSON] on the raw bytes of a JSON string token (the
    bytes between its quotes are not unescaped by the library).  A text
    that [parseRFC3339] refuses is reported as an error; the lenient
    second attempt that the library then makes through [time.Parse] is
    outside the model. *)
Definition UnmarshalJSON_string (raw : list ascii) : option Time :=
  parseRFC3339 raw.

End Rfc3339.

(* ===================================================================== *)
(** ** os, path/filepath, uuid, time.Now: the world                        *)
(* ===================================================================== *)

Module OS.

Import Rfc3339.

(** What happens to the next data transfer.  [FailClean]: the call
    fails before anything is changed.  [FailPartial n]: a write fails
    after the file was truncated and [n] bytes were written. *)
Inductive fault : Type :=
  | NoFault
  | FailClean
  | FailPartial (n : nat).

(** The world outside the process.
    - [files]: the regular files, by path, with their content;
    - [home]: the home directory that [os.UserHomeDir] reports, if any;
    - [noaccess]: the paths that cannot be resolved for a reason other
      than absence (a directory on the way that may not be searched, a
      component that is not a directory, ...): every call on such a path
      fails, [os.Stat] included, with an error that is not "does not
      exist";
    - [faults]: the fault met by the k-th call that transfers data or
      changes a directory;
    - [uuids], [times]: what the k-th call returns when it is
      [uuid.New().String()], resp. [time.Now()];
    - [clock]: the number of such calls made so far.
    Directories are not represented. *)
Record World : Type := mkWorld {
  files : gmap string string;
  home : option string;
  noaccess : string -> bool;
  faults : nat -> fault;
  uuids : nat -> string;
  times : nat -> Time;
  clock : nat
}.

Definition set_files (w : World) (fs : gmap string string) : World :=
  mkWorld fs (home w) (noaccess w) (faults w) (uuids w) (times w) (clock w).

Definition tick (w : World) : World :=
  mkWorld (files w) (home w) (noaccess w) (faults w) (uuids w) (times w) (S (clock w)).

(** Two worlds that differ by their files and their clock only. *)
Definition same_env (w w' : World) : Prop :=
  home w' = home w /\ noaccess w' = noaccess w /\ faults w' = faults w
  /\ uuids w' = uuids w /\ times w' = times w.

(** [w'] is reached from [w] through [n] calls that each count. *)
Definition after (n : nat) (w w' : World) : Prop :=
  same_env w w' /\ clock w' = n + clock w.

Definition prefix (n : nat) (data : string) : string :=
  string_of_list_ascii (take n (list_ascii_of_string data)).

(** [os.Stat], of which the program only uses the error. *)
Definition Stat (path : string) (w : World) : result unit :=
  if noaccess w path then Err (PathError "stat" path EACCES)
  else
    match files w !! path with
    | Some _ => Ok tt
    | None => Err (PathError "stat" path ENOENT)
    end.

(** [os.ReadFile]. *)
Definition ReadFile (path : string) (w : World) : result string * World :=
  if noaccess w path then (Err (PathError "open" path EACCES), w)
  else
    match files w !! path with
    | None => (Err (PathError "open" path ENOENT), w)
    | Some data =>
      match faults w (clock w) with
      | NoFault => (Ok data, tick w)
      | _ => (Err (PathError "read" path EIO), tick w)
      end
    end.

(** [os.WriteFile]: the file is opened with [O_CREATE|O_TRUNC] and then
    written, so a failure while writing leaves a truncated file. *)
Definition WriteFile (path : string) (data : string) (w : World)
  : result unit * World :=
  if noaccess w path then (Err (PathError "open" path EACCES), w)
  else
    match faults w (clock w) with
    | NoFault => (Ok tt, tick (set_files w (<[path := data]> (files w))))
    | FailClean => (Err (PathError "open" path EIO), tick w)
    | FailPartial n =>
      (Err (PathError "write" path ENOSPC),
       tick (set_files w (<[path := prefix n data]> (files w))))
    end.

(** [os.Remove]. *)
Definition Remove (path : string) (w : World) : result unit * World :=
  if noaccess w path then (Err (PathError "remove" path EACCES), w)
  else
    match files w !! path with
    | None => (Err (PathError "remove" path ENOENT), w)
    | Some _ =>
      match faults w (clock w) with
      | NoFault => (Ok tt, tick (set_files w (delete path (files w))))
      | _ => (Err (PathError "remove" path EIO), tick w)
      end
    end.

(** [os.Rename]: the new path gets the file in one step. *)
Definition Rename (oldpath newpath : string) (w : World) : result unit * World :=
  if noaccess w oldpath || noaccess w newpath
  then (Err (PathError "rename" oldpath EACCES), w)
  else
    match files w !! oldpath with
    | None => (Err (PathError "rename" oldpath ENOENT), w)
    | Some data =>
      match faults w (clock w) with
      | NoFault =>
        (Ok tt, tick (set_files w (<[newpath := data]> (delete oldpath (files w)))))
      | _ => (Err (PathError "rename" oldpath EIO), tick w)
      end
    end.

(** [os.MkdirAll]: fails on a path that is a regular file. *)
Definition MkdirAll (dir : string) (w : World) : result unit * World :=
  if noaccess w dir then (Err (PathError "mkdir" dir EACCES), w)
  else
    match files w !! dir with
    | Some _ => (Err (PathError "mkdir" dir EIO), w)
    | None =>
      match faults w (clock w) with
      | NoFault => (Ok tt, tick w)
      | _ => (Err (PathError "mkdir" dir EIO), tick w)
      end
    end.

(** [os.UserHomeDir]. *)
Definition UserHomeDir (w : World) : result string :=
  match home w with
  | Some h => Ok h
  | None => Err (Msg "$HOME is not defined")
  end.

(** [uuid.New().String()] and [time.Now()]. *)
Definition uuid_New (w : World) : string * World := (uuids w (clock w), tick w).
Definition time_Now (w : World) : Time * World := (times w (clock w), tick w).

(** [filepath.Join] on clean elements: the elements separated by a
    slash (the normalisation by [filepath.Clean] is left out). *)
Fixpoint Join (elems : list string) : string :=
  match elems with
  | [] => EmptyString
  | [e] => e
  | e :: rest => e +:+ "/" +:+ Join rest
  end.

Fixpoint drop_last_element (rev_path : list ascii) : list ascii :=
  match rev_path with
  | [] => []
  | c :: r => if Ascii.eqb c "/" then rev_path else drop_last_element r
  end.

(** [filepath.Dir] on a clean path: the path without its last element
    and the slash before it; a dot when there is no slash. *)
Definition Dir (path : string) : string :=
  match drop_last_element (rev (list_ascii_of_string path)) with
  | [] => "."
  | [_] => "/"
  | _ :: r => string_of_list_ascii (rev r)
  end.

End OS.

(* ===================================================================== *)
(** ** internal/validation                                                 *)
(* ===================================================================== *)

Module Validation.

Import OS.

(** [ValidateJSON]. *)
Definition ValidateJSON (data : string) : result unit :=
  match Json.Unmarshal_any (list_ascii_of_string data) with
  | Err e => Err (Wrap "invalid JSON format" e)
  | Ok _ => Ok tt
  end.

(** [ValidateJSONFile]. *)
Definition ValidateJSONFile (filePath : string) (w : World) : result unit * World :=
  match ReadFile filePath w with
  | (Err e, w') => (Err (Wrap "failed to read file" e), w')
  | (Ok data, w') => (ValidateJSON data, w')
  end.

(** [ValidateClaudeSettings]. *)
Definition ValidateClaudeSettings (data : string) : result unit :=
  match ValidateJSON data with
  | Err e => Err e
  | Ok _ =>
    match Json.Unmarshal_map (list_ascii_of_string data) with
    | Err e => Err (Wrap "failed to parse JSON as object" e)
    | Ok None => Err (Msg "settings file must contain a JSON object, not null")
    | Ok (Some _) => Ok tt
    end
  end.

(** [ValidateClaudeSettingsFile]. *)
Definition ValidateClaudeSettingsFile (filePath : string) (w : World)
  : result unit * World :=
  match ReadFile filePath w with
  | (Err e, w') => (Err (Wrap "failed to read file" e), w')
  | (Ok data, w') => (ValidateClaudeSettings data, w')
  end.

(** The error classes of the specification. *)
Definition InvalidJSON (e : error) : Prop :=
  exists inner, e = Wrap "invalid JSON format" inner.

Definition NotAnObject (e : error) : Prop :=
  e = Msg "settings file must contain a JSON object, not null"
  \/ exists inner, e = Wrap "failed to parse JSON as object" inner.

(** [IsValidJSON] and [IsValidJSONFile]. *)
Definition IsValidJSON (data : string) : bool :=
  match ValidateJSON data with
  | Ok _ => true
  | Err _ => false
  end.

Definition IsValidJSONFile (filePath : string) (w : World) : bool * World :=
  match ValidateJSONFile filePath w with
  | (Ok _, w') => (true, w')
  | (Err _, w') => (false, w')
  end.

End Validation.

(* ===================================================================== *)
(** ** internal/storage                                                    *)
(* ===================================================================== *)

Module Storage.

Import OS.

(** [EnsureDir]. *)
Definition EnsureDir (dir : string) (w : World) : result unit * World :=
  match MkdirAll dir w with
  | (Err e, w') => (Err (Wrap ("failed to create directory " +:+ dir) e), w')
  | (Ok _, w') => (Ok tt, w')
  end.

(** [FileExists]. *)
Definition FileExists (filePath : string) (w : World) : bool :=
  match Stat filePath w with
  | Ok _ => true
  | Err e => negb (IsNotExist e)
  end.

(** [IsValidJSON], which decodes into a [json.RawMessage]. *)
Definition IsValidJSON (filePath : string) (w : World) : result unit * World :=
  match ReadFile filePath w with
  | (Err e, w') => (Err (Wrap "failed to read file" e), w')
  | (Ok data, w') =>
    match Json.Unmarshal_raw (list_ascii_of_string data) with
    | Err e => (Err (Wrap "invalid JSON" e), w')
    | Ok _ => (Ok tt, w')
    end
  end.

(** [AtomicWrite]. *)
Definition AtomicWrite (filePath : string) (data : string) (w : World)
  : result unit * World :=
  let dir := Dir filePath in
  match EnsureDir dir w with
  | (Err e, w1) => (Err e, w1)
  | (Ok _, w1) =>
    let tempFile := filePath +:+ ".tmp" in
    match WriteFile tempFile data w1 with
    | (Err e, w2) => (Err (Wrap "failed to write temporary file" e), w2)
    | (Ok _, w2) =>
      match Rename tempFile filePath w2 with
      | (Err e, w3) =>
        let '(_, w4) := Remove tempFile w3 in
        (Err (Wrap "failed to move temporary file" e), w4)
      | (Ok _, w3) => (Ok tt, w3)
      end
    end
  end.

Definition SourceNotFound (src : string) : error :=
  Msg ("source file does not exist: " +:+ src).

(** [SafeCopy]. *)
Definition SafeCopy (src dst : string) (w : World) : result unit * World :=
  if negb (FileExists src w) then (Err (SourceNotFound src), w)
  else
    match ReadFile src w with
    | (Err e, w1) => (Err (Wrap "failed to read source file" e), w1)
    | (Ok data, w1) =>
      match AtomicWrite dst data w1 with
      | (Err e, w2) => (Err (Wrap "failed to write destination file" e), w2)
      | (Ok _, w2) => (Ok tt, w2)
      end
    end.

End Storage.

(* ===================================================================== *)
(** ** internal/config                                                     *)
(* ===================================================================== *)

Module Config.

Import OS Rfc3339.

(** [type Config struct]. *)
Record Config : Type := mkConfig {
  ID : string;
  Name : string;
  Description : string;
  CreatedAt : Time;
  FilePath : string
}.

#[global] Instance Config_eq_dec : EqDecision Config.
Proof. solve_decision. Defined.

(** [type Manager struct].  The slice [configs] is [None] when it is the
    nil slice (which [encoding/json] writes as [null]) and [Some l] when
    it is allocated. *)
Record Manager : Type := mkManager {
  configDir : string;
  configs : option (list Config)
}.

Definition elems (m : Manager) : list Config := default [] (configs m).

Definition zeroConfig : Config :=
  mkConfig EmptyString EmptyString EmptyString zeroTime EmptyString.

(** *** The metadata document *)

Definition nl : list ascii := [Json.newline].

Definition member (key value : list ascii) : list ascii :=
  list_ascii_of_string "    " ++ Json.appendString key
    ++ list_ascii_of_string ": " ++ value.

(** The members of an object, one per line, separated by commas. *)
Fixpoint members_bytes (ms : list (list ascii * list ascii)) : list ascii :=
  match ms with
  | [] => []
  | (k, v) :: rest =>
    match rest with
    | [] => member k v ++ nl
    | _ :: _ => member k v ++ list_ascii_of_string "," ++ nl ++ members_bytes rest
    end
  end.

Definition string_field (key : string) (s : string) : list ascii * list ascii :=
  (list_ascii_of_string key, Json.appendString (list_ascii_of_string s)).

(** The fields of a record with their JSON names, in the order of the
    struct; [created] is what [MarshalJSON] returned for the time stamp. *)
Definition fields (c : Config) (created : list ascii) : list (list ascii * list ascii) :=
  [string_field "id" (ID c);
   string_field "name" (Name c);
   string_field "description" (Description c);
   (list_ascii_of_string "created_at", created);
   string_field "file_path" (FilePath c)].

(** The JSON object of one record, as [json.MarshalIndent] with a
    two-space indent prints it inside the top-level array. *)
Definition object_bytes (c : Config) (created : list ascii) : list ascii :=
  list_ascii_of_string "{" ++ nl ++ members_bytes (fields c created)
  ++ list_ascii_of_string "  }".

(** One element of the array, behind its indent. *)
Definition marshal_config (c : Config) : result (list ascii) :=
  match MarshalJSON (CreatedAt c) with
  | Err e => Err (Wrap "json: error calling MarshalJSON for type time.Time" e)
  | Ok created => Ok (list_ascii_of_string "  " ++ object_bytes c created)
  end.

Fixpoint marshal_elements (cs : list Config) : result (list ascii) :=
  match cs with
  | [] => Ok []
  | c :: rest =>
    match marshal_config c, marshal_elements rest with
    | Ok e, Ok es =>
      Ok (match rest with
          | [] => e
          | _ :: _ => e ++ list_ascii_of_string "," ++ nl ++ es
          end)
    | Err e, _ => Err e
    | _, Err e => Err e
    end
  end.

(** [json.MarshalIndent(configs, "", "  ")] for a [[]Config]. *)
Definition MarshalIndent (cs : option (list Config)) : result (list ascii) :=
  match cs with
  | None => Ok (list_ascii_of_string "null")
  | Some [] => Ok (list_ascii_of_string "[]")
  | Some l =>
    match marshal_elements l with
    | Err e => Err e
    | Ok body => Ok (list_ascii_of_string "[" ++ nl ++ body ++ nl ++ list_ascii_of_string "]")
    end
  end.

(** A member of a JSON object stored into a [Config]: the key selects
    the field without regard to case, an unknown key is skipped, [null]
    leaves the field as it is, and a value of another type than the
    field's is an error. *)
Definition store_string (v : Json.value) (set : string -> Config) (c : Config)
  : option Config :=
  match v with
  | Json.JString _ s => Some (set (string_of_list_ascii s))
  | Json.JNull => Some c
  | _ => None
  end.

Definition store_member (c : Config) (kv : list ascii * Json.value) : option Config :=
  let '(k, v) := kv in
  if Json.key_is k "id" then
    store_string v (fun s => mkConfig s (Name c) (Description c) (CreatedAt c) (FilePath c)) c
  else if Json.key_is k "name" then
    store_string v (fun s => mkConfig (ID c) s (Description c) (CreatedAt c) (FilePath c)) c
  else if Json.key_is k "description" then
    store_string v (fun s => mkConfig (ID c) (Name c) s (CreatedAt c) (FilePath c)) c
  else if Json.key_is k "created_at" then
    match v with
    | Json.JString raw _ =>
      match UnmarshalJSON_string raw with
      | Some t => Some (mkConfig (ID c) (Name c) (Description c) t (FilePath c))
      | None => None
      end
    | Json.JNull => Some c
    | _ => None
    end
  else if Json.key_is k "file_path" then
    store_string v (fun s => mkConfig (ID c) (Name c) (Description c) (CreatedAt c) s) c
  else Some c.

Fixpoint store_members (c : Config) (ms : list (list ascii * Json.value))
  : option Config :=
  match ms with
  | [] => Some c
  | kv :: rest =>
    match store_member c kv with
    | Some c' => store_members c' rest
    | None => None
    end
  end.

Definition unmarshal_config (v : Json.value) : option Config :=
  match v with
  | Json.JObject ms => store_members zeroConfig ms
  | Json.JNull => Some zeroConfig
  | _ => None
  end.

Fixpoint unmarshal_elements (vs : list Json.value) : option (list Config) :=
  match vs with
  | [] => Some []
  | v :: rest =>
    match unmarshal_config v, unmarshal_elements rest with
    | Some c, Some cs => Some (c :: cs)
    | _, _ => None
    end
  end.

(** [json.Unmarshal(data, &configs)] for a [[]Config] that is nil before
    the call (as it is in [NewManager]): [null] leaves the nil slice, an
    array gives an allocated slice of its elements, each decoded into a
    zero [Config]. *)
Definition Unmarshal (data : list ascii) : result (option (list Config)) :=
  match Json.parse data with
  | None => Err JsonSyntaxError
  | Some Json.JNull => Ok None
  | Some (Json.JArray vs) =>
    match unmarshal_elements vs with
    | Some cs => Ok (Some cs)
    | None => Err JsonUnmarshalError
    end
  | Some _ => Err JsonUnmarshalError
  end.

(** The records whose strings are UTF-8 and whose time stamp is a date
    and a time of day. *)
Definition text_ok (c : Config) : Prop :=
  Utf8.ValidString (ID c) = true /\ Utf8.ValidString (Name c) = true
  /\ Utf8.ValidString (Description c) = true /\ Utf8.ValidString (FilePath c) = true
  /\ wellformed (CreatedAt c).

(** The JSON value that the parser reads from the object of a record. *)
Definition string_value (s : string) : Json.value :=
  Json.JString (Json.string_bytes (list_ascii_of_string s)) (list_ascii_of_string s).

Definition config_value (c : Config) : Json.value :=
  Json.JObject
    [(list_ascii_of_string "id", string_value (ID c));
     (list_ascii_of_string "name", string_value (Name c));
     (list_ascii_of_string "description", string_value (Description c));
     (list_ascii_of_string "created_at",
      Json.JString (format (CreatedAt c)) (format (CreatedAt c)));
     (list_ascii_of_string "file_path", string_value (FilePath c))].

(** *** The manager *)

Definition metadataPath (m : Manager) : string := Join [configDir m; "config.json"].

(** [copyFile]. *)
Definition copyFile (src dst : string) (w : World) : result unit * World :=
  match ReadFile src w with
  | (Err e, w1) => (Err (Wrap "failed to read source file" e), w1)
  | (Ok sourceData, w1) =>
    match WriteFile dst sourceData w1 with
    | (Err e, w2) => (Err (Wrap "failed to write destination file" e), w2)
    | (Ok _, w2) => (Ok tt, w2)
    end
  end.

(** [loadConfigs], on a manager whose slice is still nil. *)
Definition loadConfigs (m : Manager) (w : World) : result unit * Manager * World :=
  match ReadFile (metadataPath m) w with
  | (Err e, w1) =>
    if IsNotExist e then (Ok tt, mkManager (configDir m) (Some []), w1)
    else (Err (Wrap "failed to read config metadata" e), m, w1)
  | (Ok data, w1) =>
    match Unmarshal (list_ascii_of_string data) with
    | Err e => (Err (Wrap "failed to parse config metadata" e), m, w1)
    | Ok cs => (Ok tt, mkManager (configDir m) cs, w1)
    end
  end.

(** [saveConfigs]. *)
Definition saveConfigs (m : Manager) (w : World) : result unit * World :=
  match MarshalIndent (configs m) with
  | Err e => (Err (Wrap "failed to marshal config metadata" e), w)
  | Ok data =>
    match WriteFile (metadataPath m) (string_of_list_ascii data) w with
    | (Err e, w1) => (Err (Wrap "failed to write config metadata" e), w1)
    | (Ok _, w1) => (Ok tt, w1)
    end
  end.

(** [NewManager]. *)
Definition NewManager (w : World) : result Manager * World :=
  match UserHomeDir w with
  | Err e => (Err (Wrap "failed to get user home directory" e), w)
  | Ok homeDir =>
    let configDir := Join [homeDir; ".claude-switch"] in
    match MkdirAll configDir w with
    | (Err e, w1) => (Err (Wrap "failed to create config directory" e), w1)
    | (Ok _, w1) =>
      match MkdirAll (Join [configDir; "configs"]) w1 with
      | (Err e, w2) => (Err (Wrap "failed to create configs directory" e), w2)
      | (Ok _, w2) =>
        match loadConfigs (mkManager configDir None) w2 with
        | (Err e, _, w3) => (Err (Wrap "failed to load configurations" e), w3)
        | (Ok _, manager, w3) => (Ok manager, w3)
        end
      end
    end
  end.

(** [GetClaudeDir] and [GetClaudeSettingsPath]. *)
Definition GetClaudeDir (w : World) : result string :=
  match UserHomeDir w with
  | Err e => Err (Wrap "failed to get user home directory" e)
  | Ok homeDir => Ok (Join [homeDir; ".claude"])
  end.

Definition GetClaudeSettingsPath (w : World) : result string :=
  match GetClaudeDir w with
  | Err e => Err e
  | Ok claudeDir => Ok (Join [claudeDir; "settings.json"])
  end.

Definition EmptyName : error := Msg "config name cannot be empty".
Definition DuplicateName (name : string) : error :=
  Msg ("config with name '" +:+ name +:+ "' already exists").
Definition NotFound (identifier : string) : error :=
  Msg ("config not found: " +:+ identifier).

(** A record answers to an identifier by its identity or by its name. *)
Definition answers (c : Config) (identifier : string) : Prop :=
  ID c = identifier \/ Name c = identifier.

(** The loop of [AddConfig] over the existing names. *)
Fixpoint name_exists (cs : list Config) (name : string) : bool :=
  match cs with
  | [] => false
  | config :: rest => if String.eqb (Name config) name then true else name_exists rest name
  end.

(** [AddConfig]. *)
Definition AddConfig (tempFile name description : string) (m : Manager) (w : World)
  : result Config * Manager * World :=
  if String.eqb name EmptyString then (Err EmptyName, m, w)
  else
    match Validation.ValidateClaudeSettingsFile tempFile w with
    | (Err e, w1) => (Err (Wrap "invalid configuration file" e), m, w1)
    | (Ok _, w1) =>
      if name_exists (elems m) name then (Err (DuplicateName name), m, w1)
      else
        let '(id, w2) := uuid_New w1 in
        let '(now, w3) := time_Now w2 in
        let config :=
          mkConfig id name description now
                   (Join [configDir m; "configs"; id +:+ ".json"]) in
        match copyFile tempFile (FilePath config) w3 with
        | (Err e, w4) => (Err (Wrap "failed to copy config file" e), m, w4)
        | (Ok _, w4) =>
          let m1 := mkManager (configDir m) (Some (elems m ++ [config])) in
          match saveConfigs m1 w4 with
          | (Err e, w5) =>
            let '(_, w6) := Remove (FilePath config) w5 in
            (Err (Wrap "failed to save config metadata" e), m1, w6)
          | (Ok _, w5) => (Ok config, m1, w5)
          end
        end
    end.

(** [GetConfigs]. *)
Definition GetConfigs (m : Manager) : option (list Config) := configs m.

(** The loop of [GetConfig]. *)
Fixpoint lookup_config (cs : list Config) (identifier : string) : result Config :=
  match cs with
  | [] => Err (NotFound identifier)
  | config :: rest =>
    if String.eqb (ID config) identifier || String.eqb (Name config) identifier
    then Ok config
    else lookup_config rest identifier
  end.

(** [GetConfig]. *)
Definition GetConfig (m : Manager) (identifier : string) : result Config :=
  lookup_config (elems m) identifier.

(** [ApplyConfig] (its two messages on standard output are left out). *)
Definition ApplyConfig (identifier : string) (m : Manager) (w : World)
  : result unit * World :=
  match GetConfig m identifier with
  | Err e => (Err e, w)
  | Ok config =>
    match Validation.ValidateClaudeSettingsFile (FilePath config) w with
    | (Err e, w1) => (Err (Wrap "configuration file is invalid" e), w1)
    | (Ok _, w1) =>
      match GetClaudeSettingsPath w1 with
      | Err e => (Err e, w1)
      | Ok settingsPath =>
        let backupPath := settingsPath +:+ ".backup" in
        let '(backup, w2) :=
          match Stat settingsPath w1 with
          | Ok _ => copyFile settingsPath backupPath w1
          | Err _ => (Ok tt, w1)
          end in
        match backup with
        | Err e => (Err (Wrap "failed to create backup" e), w2)
        | Ok _ =>
          match copyFile (FilePath config) settingsPath w2 with
          | (Err e, w3) =>
            let w4 :=
              match Stat backupPath w3 with
              | Ok _ => snd (copyFile backupPath settingsPath w3)
              | Err _ => w3
              end in
            (Err (Wrap "failed to apply configuration" e), w4)
          | (Ok _, w3) => (Ok tt, w3)
          end
        end
      end
    end
  end.

(** The loop of [RemoveConfig]: the list without its first record of
    identity [id]. *)
Fixpoint remove_by_id (cs : list Config) (id : string) : list Config :=
  match cs with
  | [] => []
  | c :: rest => if String.eqb (ID c) id then rest else c :: remove_by_id rest id
  end.

(** [RemoveConfig]. *)
Definition RemoveConfig (identifier : string) (m : Manager) (w : World)
  : result unit * Manager * World :=
  match GetConfig m identifier with
  | Err e => (Err e, m, w)
  | Ok config =>
    let '(removed, w1) := Remove (FilePath config) w in
    let failed :=
      match removed with
      | Err e => if negb (IsNotExist e) then Some e else None
      | Ok _ => None
      end in
    match failed with
    | Some e => (Err (Wrap "failed to remove config file" e), m, w1)
    | None =>
      let m1 := mkManager (configDir m) (Some (remove_by_id (elems m) (ID config))) in
      match saveConfigs m1 w1 with
      | (Err e, w2) => (Err (Wrap "failed to update config metadata" e), m1, w2)
      | (Ok _, w2) => (Ok tt, m1, w2)
      end
    end
  end.

(** [ValidateConfig]. *)
Definition ValidateConfig (identifier : string) (m : Manager) (w : World)
  : result unit * World :=
  match GetConfig m identifier with
  | Err e => (Err e, w)
  | Ok config => Validation.ValidateClaudeSettingsFile (FilePath config) w
  end.

(** The loop of [ValidateAllConfigs]: the errors of the records whose
    stored file does not pass, in the order of the collection. *)
Fixpoint validate_each (cs : list Config) (w : World) : list error * World :=
  match cs with
  | [] => ([], w)
  | config :: rest =>
    let '(r, w1) := Validation.ValidateClaudeSettingsFile (FilePath config) w in
    let '(errors, w2) := validate_each rest w1 in
    (match r with
     | Err err =>
       Wrap ("config '" +:+ Name config +:+ "' (" +:+ ID config +:+ ")") err :: errors
     | Ok _ => errors
     end, w2)
  end.

(** [ValidateAllConfigs]. *)
Definition ValidateAllConfigs (m : Manager) (w : World) : list error * World :=
  validate_each (elems m) w.

End Config.

(* ===================================================================== *)
(** ** internal/editor                                                     *)
(* ===================================================================== *)

Module Editor.

(** The editors that [getEditor] tries on a platform, in this order. *)
Definition candidates (GOOS : string) : list string :=
  if String.eqb GOOS "windows" then ["code"; "notepad++"; "notepad"]
  else if String.eqb GOOS "darwin" then ["code"; "vim"; "nano"; "emacs"]
  else ["code"; "vim"; "nano"; "emacs"; "gedit"].

(** The loop over the candidates; [LookPath editor] tells whether
    [exec.LookPath] found the program. *)
Fixpoint first_found (LookPath : string -> bool) (editors : list string) : option string :=
  match editors with
  | [] => None
  | editor :: rest => if LookPath editor then Some editor else first_found LookPath rest
  end.

(** [getEditor]; [EDITOR] is the value of the environment variable (empty
    when it is not set) and [GOOS] is [runtime.GOOS]. *)
Definition getEditor (EDITOR GOOS : string) (LookPath : string -> bool) : string :=
  if negb (String.eqb EDITOR EmptyString) then EDITOR
  else
    match first_found LookPath (candidates GOOS) with
    | Some editor => editor
    | None => EmptyString
    end.

(** [IsEditorAvailable]. *)
Definition IsEditorAvailable (EDITOR GOOS : string) (LookPath : string -> bool) : bool :=
  negb (String.eqb (getEditor EDITOR GOOS LookPath) EmptyString).

End Editor.

(* ===================================================================== *)
(** ** strings.TrimSpace                                                   *)
(* ===================================================================== *)

Module Strings.

Import Utf8.

Local Open Scope N_scope.
















End Strings.

(* ===================================================================== *)
(** ** cmd: the add command                                                *)
(* ===================================================================== *)

Module Cmd.

Import OS Config.

Definition quoted (s : string) : string :=
  String Json.dquote (s +:+ String Json.dquote EmptyString).

Definition line (s : string) : string := s +:+ String Json.newline EmptyString.

(** The settings that [createTempConfigFile] writes when there are no
    current settings. *)
Definition defaultSettings : string :=
  line "{"
  +:+ line ("  " +:+ quoted "theme" +:+ ": " +:+ quoted "dark" +:+ ",")
  +:+ line ("  " +:+ quoted "fontSize" +:+ ": 14,")
  +:+ line ("  " +:+ quoted "editorSettings" +:+ ": {")
  +:+ line ("    " +:+ quoted "tabSize" +:+ ": 2,")
  +:+ line ("    " +:+ quoted "wordWrap" +:+ ": true")
  +:+ line "  }"
  +:+ "}".

(** [createTempConfigFile]; [tempDir] is [os.TempDir()] and [pid] is
    [os.Getpid()]. *)
Definition createTempConfigFile (tempDir : string) (pid : N) (w : World)
  : result string * World :=
  match GetClaudeSettingsPath w with
  | Err e => (Err e, w)
  | Ok settingsPath =>
    let tempFile :=
      Join [tempDir;
            "claude-settings-" +:+ NilZero.string_of_uint (N.to_uint pid) +:+ ".json"] in
    if Storage.FileExists settingsPath w then
      match Storage.SafeCopy settingsPath tempFile w with
      | (Err e, w1) => (Err (Wrap "failed to copy current settings" e), w1)
      | (Ok _, w1) => (Ok tempFile, w1)
      end
    else
      match WriteFile tempFile defaultSettings w with
      | (Err e, w1) => (Err (Wrap "failed to create default settings" e), w1)
      | (Ok _, w1) => (Ok tempFile, w1)
      end
  end.





End Cmd.

(* ===================================================================== *)
(** ** Sample worlds and registries                                        *)
(* ===================================================================== *)

Module Examples.

Import OS Rfc3339 Config.

Definition stamp : Time := mkTime 2024 2 29 13 5 9 120000000 (-330).

(** A world where every path resolves, with the home directory
    [/home/u]; the k-th call of [uuid.New] returns ["u1"] for k = 1 and
    ["u2"] otherwise. *)
Definition world (fs : gmap string string) (fl : nat -> fault) : World :=
  mkWorld fs (Some "/home/u") (fun _ => false) fl
          (fun k => if Nat.eqb k 1 then "u1" else "u2") (fun _ => stamp) 0.

Definition no_fault : nat -> fault := fun _ => NoFault.

(** The k-th call fails, the other calls do not. *)
Definition fault_at (k : nat) (f : fault) : nat -> fault :=
  fun i => if Nat.eqb i k then f else NoFault.

Definition dir : string := "/home/u/.claude-switch".
Definition settings : string := "/home/u/.claude/settings.json".
Definition backup : string := "/home/u/.claude/settings.json.backup".
Definition temp : string := "/tmp/claude-settings-7.json".

(** The world whose only file is the edited temporary file, holding
    an empty JSON object, and where no call fails. *)
Definition plain_world : World := world {[ temp := "{}" ]} no_fault.

Definition empty_manager : Manager := mkManager dir (Some []).

Definition work : Config :=
  mkConfig "u0" "work" "office" stamp "/home/u/.claude-switch/configs/u0.json".

Definition one_manager : Manager := mkManager dir (Some [work]).

(** The content [{"a": 1}]. *)
Definition object_a : string :=
  "{" +:+ String Json.dquote ("a" +:+ String Json.dquote ": 1}").


(** A second record, and the registry of the two records. *)
Definition play : Config :=
  mkConfig "u7" "play" EmptyString stamp "/home/u/.claude-switch/configs/u7.json".

Definition two_manager : Manager := mkManager dir (Some [work; play]).

End Examples.

(* ===================================================================== *)
(** * Properties                                                           *)
(* ===================================================================== *)

(** ** The file-system calls *)

Module OSFacts.

Import OS.

Lemma same_env_refl w : same_env w w.
Proof. by repeat split. Qed.

Lemma same_env_trans w1 w2 w3 : same_env w1 w2 -> same_env w2 w3 -> same_env w1 w3.
Proof.
  intros (?&?&?&?&?) (?&?&?&?&?). repeat split; congruence.
Qed.

Lemma same_env_tick w : same_env w (tick w).
Proof. by repeat split. Qed.

Lemma same_env_set_files w fs : same_env w (set_files w fs).
Proof. by repeat split. Qed.

Ltac case_world :=
  repeat match goal with
  | H : (_, _) = (_, _) |- _ => inversion H; subst; clear H
  | H : context [if ?b then _ else _] |- _ => destruct b eqn:?
  | H : context [match ?x with _ => _ end] |- _ => destruct x eqn:?
  end.

(** Closed goals: a conjunction of equations between values that
    compute. *)
Ltac by_computation :=
  vm_compute;
  repeat match goal with
         | |- _ /\ _ => refine (conj _ _)
         | |- _ = _ => exact eq_refl
         end.

Lemma ReadFile_Ok path w data w' :
  ReadFile path w = (Ok data, w') ->
  files w !! path = Some data /\ noaccess w path = false /\ w' = tick w.
Proof. unfold ReadFile. intros H. case_world; try discriminate. done. Qed.

Lemma ReadFile_files path w r w' :
  ReadFile path w = (r, w') -> files w' = files w /\ same_env w w'.
Proof.
  unfold ReadFile. intros H.
  case_world; auto using same_env_refl, same_env_tick.
Qed.

Lemma WriteFile_Ok path data w w' :
  WriteFile path data w = (Ok tt, w') ->
  files w' = <[path := data]> (files w) /\ noaccess w path = false /\ same_env w w'.
Proof.
  unfold WriteFile. intros H. case_world; try discriminate.
  repeat split; auto.
Qed.

Lemma WriteFile_env path data w r w' :
  WriteFile path data w = (r, w') -> same_env w w'.
Proof. unfold WriteFile. intros H. case_world; by repeat split. Qed.

Lemma WriteFile_other path data w r w' q :
  WriteFile path data w = (r, w') -> q <> path -> files w' !! q = files w !! q.
Proof.
  unfold WriteFile. intros H Hq. case_world; simpl; try done;
    by rewrite lookup_insert_ne.
Qed.

Lemma Remove_env path w r w' : Remove path w = (r, w') -> same_env w w'.
Proof. unfold Remove. intros H. case_world; by repeat split. Qed.

(** After [os.Remove] has succeeded, or has failed because the file
    was not there, the path holds no file and the other paths are as
    before. *)
Lemma Remove_gone path w r w' :
  Remove path w = (r, w') ->
  match r with Ok _ => True | Err e => IsNotExist e = true end ->
  files w' = delete path (files w).
Proof.
  unfold Remove. intros H Hr. case_world; simpl in *; try discriminate; try done.
  by rewrite delete_id.
Qed.

Lemma Remove_other path w r w' q :
  Remove path w = (r, w') -> q <> path -> files w' !! q = files w !! q.
Proof.
  unfold Remove. intros H Hq. case_world; simpl; try done.
  by rewrite lookup_delete_ne.
Qed.

(** [os.Stat] fails with "does not exist" exactly on an absent file of
    a path that resolves. *)
Lemma Stat_Ok path w :
  Stat path w = Ok tt <-> noaccess w path = false /\ is_Some (files w !! path).
Proof.
  unfold Stat. destruct (noaccess w path); [|destruct (files w !! path) eqn:E].
  - split; [done|]. by intros [? _].
  - split; [by eauto|done].
  - split; [done|]. intros [_ [? ?]]. done.
Qed.

Lemma Stat_same path w w' :
  files w' !! path = files w !! path -> noaccess w' = noaccess w ->
  Stat path w' = Stat path w.
Proof. unfold Stat. by intros -> ->. Qed.

End OSFacts.

(** ** Looking a record up *)

Module LookupFacts.

Import OS Config.

Lemma eqb_string_true (a b : string) : String.eqb a b = true <-> a = b.
Proof. apply String.eqb_eq. Qed.

Lemma eqb_string_false (a b : string) : String.eqb a b = false <-> a <> b.
Proof. apply String.eqb_neq. Qed.

Lemma answers_test c identifier :
  String.eqb (ID c) identifier || String.eqb (Name c) identifier = true
  <-> answers c identifier.
Proof.
  unfold answers. rewrite orb_true_iff, !eqb_string_true. tauto.
Qed.

Lemma answers_test_false c identifier :
  String.eqb (ID c) identifier || String.eqb (Name c) identifier = false
  <-> ~ answers c identifier.
Proof.
  rewrite <- answers_test. destruct (_ || _); split; congruence.
Qed.

(** The loop returns the first record, in the order of the slice, that
    answers to the identifier. *)
Lemma lookup_config_Ok cs identifier c :
  lookup_config cs identifier = Ok c <->
  exists l1 l2, cs = l1 ++ c :: l2 /\ answers c identifier
                /\ Forall (fun x => ~ answers x identifier) l1.
Proof.
  induction cs as [|x cs IH]; simpl.
  - split; [done|]. intros (l1 & l2 & H & _). by destruct l1.
  - destruct (_ || _) eqn:E.
    + apply answers_test in E. split.
      * intros [= ->]. by exists [], cs.
      * intros (l1 & l2 & H & Hc & Hl1). destruct l1 as [|y l1]; simpl in H.
        -- congruence.
        -- injection H as -> ->. by inversion Hl1.
    + apply answers_test_false in E. rewrite IH. split.
      * intros (l1 & l2 & -> & Hc & Hl1). exists (x :: l1), l2. auto.
      * intros (l1 & l2 & H & Hc & Hl1). destruct l1 as [|y l1]; simpl in H.
        -- injection H as -> ->. done.
        -- injection H as -> ->. inversion Hl1; subst. by exists l1, l2.
Qed.

Lemma lookup_config_Err cs identifier e :
  lookup_config cs identifier = Err e <->
  e = NotFound identifier /\ Forall (fun x => ~ answers x identifier) cs.
Proof.
  induction cs as [|x cs IH]; simpl.
  - split; [by intros [= <-]|by intros [-> _]].
  - destruct (_ || _) eqn:E.
    + apply answers_test in E. split; [done|]. intros [_ H]. by inversion H.
    + apply answers_test_false in E. rewrite IH. split.
      * intros [-> H]. auto.
      * intros [-> H]. by inversion H.
Qed.

Lemma lookup_config_In cs identifier c :
  lookup_config cs identifier = Ok c -> In c cs /\ answers c identifier.
Proof.
  rewrite lookup_config_Ok. intros (l1 & l2 & -> & H & _). split; [|done].
  apply in_or_app. right. by left.
Qed.

(** C6, as the claim states it, fails: with a record named ["b"] placed
    before the record of identity ["b"], [GetConfig] on ["b"] returns the
    former. *)
Lemma GetConfig_identity_first_counterexample :
  ~ (forall (m : Manager) (identifier : string) (c : Config),
        In c (elems m) -> ID c = identifier -> GetConfig m identifier = Ok c).
Proof.
  intros H.
  pose (c1 := mkConfig "a" "b" EmptyString Rfc3339.zeroTime "/s/a.json").
  pose (c2 := mkConfig "b" "c" EmptyString Rfc3339.zeroTime "/s/b.json").
  specialize (H (mkManager "/s" (Some [c1; c2])) "b" c2).
  simpl in H. assert (Ok c1 = Ok c2) as E by (apply H; auto).
  discriminate E.
Qed.

(** C6 (amended): [GetConfig] makes one pass over the collection and
    returns the first record whose identity or name equals the identifier
    -- so a record found by its identity is returned unless an earlier
    record answers to the identifier, by identity or by name --, and it
    fails with [NotFound] exactly when no record's identity or name
    matches. *)
Theorem GetConfig_first_match (m : Manager) (identifier : string) :
  (forall c, GetConfig m identifier = Ok c <->
     exists l1 l2, elems m = l1 ++ c :: l2 /\ answers c identifier
                   /\ Forall (fun x => ~ answers x identifier) l1)
  /\ (forall l1 c l2, elems m = l1 ++ c :: l2 -> ID c = identifier ->
        Forall (fun x => ~ answers x identifier) l1 ->
        GetConfig m identifier = Ok c)
  /\ (forall e, GetConfig m identifier = Err e <->
        e = NotFound identifier
        /\ Forall (fun x => ID x <> identifier /\ Name x <> identifier) (elems m)).
Proof.
  unfold GetConfig. split; [|split].
  - intros c. apply lookup_config_Ok.
  - intros l1 c l2 E Hid Hl1. apply lookup_config_Ok.
    exists l1, l2. split; [done|]. split; [by left|done].
  - intros e. rewrite lookup_config_Err.
    assert (Forall (fun x => ~ answers x identifier) (elems m)
            <-> Forall (fun x => ID x <> identifier /\ Name x <> identifier) (elems m)) as ->;
      [|done].
    apply Forall_iff. intros x. unfold answers. tauto.
Qed.

End LookupFacts.

(** ** Adding a record *)

Module AddFacts.

Import OS OSFacts Validation Config LookupFacts.

Lemma ValidateClaudeSettingsFile_files path w r w' :
  ValidateClaudeSettingsFile path w = (r, w') -> files w' = files w /\ same_env w w'.
Proof.
  unfold ValidateClaudeSettingsFile. destruct (ReadFile path w) as [rd w1] eqn:E.
  apply ReadFile_files in E. destruct rd; intros [= <- <-]; done.
Qed.

Lemma ValidateClaudeSettingsFile_Ok path w w' :
  ValidateClaudeSettingsFile path w = (Ok tt, w') ->
  exists data, files w !! path = Some data /\ ValidateClaudeSettings data = Ok tt
               /\ noaccess w path = false /\ w' = tick w.
Proof.
  unfold ValidateClaudeSettingsFile. destruct (ReadFile path w) as [rd w1] eqn:E.
  destruct rd as [data|]; [|discriminate]. intros [= Hv <-].
  apply ReadFile_Ok in E as (? & ? & ?). by exists data.
Qed.

Lemma name_exists_true cs name :
  name_exists cs name = true <-> exists c, In c cs /\ Name c = name.
Proof.
  induction cs as [|x cs IH]; simpl.
  - split; [done|]. by intros (? & [] & _).
  - destruct (String.eqb (Name x) name) eqn:E.
    + apply eqb_string_true in E. split; [|done]. intros _. exists x. auto.
    + apply eqb_string_false in E. rewrite IH. split.
      * intros (c & ? & ?). exists c. auto.
      * intros (c & [->|?] & ?); [done|]. by exists c.
Qed.


(** C5, as the claim states it, fails: the content is validated before
    the names are compared, so an add call with the name of an existing
    record and a content that is not JSON fails with the validator's
    error. *)
Lemma AddConfig_duplicate_invalid_counterexample :
  ~ (forall (tempFile name description : string) (m : Manager) (w : World),
        (exists c, In c (elems m) /\ Name c = name) ->
        fst (fst (AddConfig tempFile name description m w)) = Err (DuplicateName name)).
Proof.
  intros H.
  specialize (H Examples.temp "work" EmptyString Examples.one_manager
                (Examples.world {[ Examples.temp := "not json" ]} Examples.no_fault)).
  assert (exists c, In c (elems Examples.one_manager) /\ Name c = "work") as Hc
      by (exists Examples.work; split; [by left|done]).
  specialize (H Hc). vm_compute in H. discriminate H.
Qed.

(** C5 (amended): for every add call whose name is not empty and equals
    an existing record's name, [AddConfig] fails and leaves the collection
    and the files unchanged; the content is validated first, so the error
    is [DuplicateName] when the supplied content passes the validator, and
    the validator's error (or the error of reading the content) when it
    does not. *)
Theorem AddConfig_duplicate_name
    (tempFile name description : string) (m : Manager) (w : World) :
  name <> EmptyString ->
  (exists c, In c (elems m) /\ Name c = name) ->
  exists e w',
    AddConfig tempFile name description m w = (Err e, m, w')
    /\ files w' = files w
    /\ (fst (ValidateClaudeSettingsFile tempFile w) = Ok tt -> e = DuplicateName name)
    /\ (forall v, fst (ValidateClaudeSettingsFile tempFile w) = Err v ->
          e = Wrap "invalid configuration file" v).
Proof.
  intros Hne Hdup. unfold AddConfig.
  apply eqb_string_false in Hne. rewrite Hne.
  destruct (ValidateClaudeSettingsFile tempFile w) as [v w1] eqn:E.
  pose proof (ValidateClaudeSettingsFile_files _ _ _ _ E) as [Hf _].
  destruct v as [[]|ve].
  - apply name_exists_true in Hdup. rewrite Hdup.
    exists (DuplicateName name), w1. simpl. repeat split; auto. intros v [=].
  - exists (Wrap "invalid configuration file" ve), w1. simpl.
    repeat split; auto; [intros [=]|by intros v [= ->]].
Qed.

Lemma AddConfig_duplicate_name_witness :
  exists e w',
    AddConfig Examples.temp "work" EmptyString Examples.one_manager Examples.plain_world
    = (Err e, Examples.one_manager, w')
    /\ files w' = files Examples.plain_world
    /\ (fst (ValidateClaudeSettingsFile Examples.temp Examples.plain_world) = Ok tt ->
        e = DuplicateName "work")
    /\ (forall v, fst (ValidateClaudeSettingsFile Examples.temp Examples.plain_world) = Err v ->
          e = Wrap "invalid configuration file" v).
Proof.
  apply (AddConfig_duplicate_name Examples.temp "work" EmptyString Examples.one_manager
           Examples.plain_world).
  - discriminate.
  - exists Examples.work. split; [left; reflexivity|reflexivity].
Defined.

(** When the result of [AddConfig] is the error of the failed save, the
    manager that the call leaves behind holds the new record. *)
Lemma AddConfig_save_failure_memory
    (tempFile name description : string) (m m' : Manager) (w w' : World) (e : error) :
  AddConfig tempFile name description m w
  = (Err (Wrap "failed to save config metadata" e), m', w') ->
  exists c, Name c = name /\ elems m' = elems m ++ [c].
Proof.
  unfold AddConfig. destruct (String.eqb name EmptyString); [discriminate|].
  destruct (ValidateClaudeSettingsFile tempFile w) as [[[]|ve] w1]; [|discriminate].
  destruct (name_exists (elems m) name); [discriminate|].
  simpl. destruct (copyFile _ _ _) as [[[]|ce] w4]; [|discriminate].
  destruct (saveConfigs _ w4) as [[[]|se] w5]; [discriminate|].
  destruct (Remove _ w5). intros [= _ <- _]. eexists. split; [|reflexivity]. done.
Qed.

(** C1 (defect of the code): an add call on the empty registry whose
    stored file is written and whose metadata cannot be saved.  The stored
    file is removed again and the files are those of before the call, but
    the collection in memory, empty before the call, holds the new record
    afterwards: [AddConfig] appends the record before it saves and does not
    take it back when the save fails. *)
Theorem AddConfig_save_failure_keeps_record :
  let w := Examples.world {[ Examples.temp := "{}" ]} (Examples.fault_at 5 FailClean) in
  let '(r, m', w') := AddConfig Examples.temp "base" EmptyString Examples.empty_manager w in
  r = Err (Wrap "failed to save config metadata"
             (Wrap "failed to write config metadata"
                (PathError "open" "/home/u/.claude-switch/config.json" EIO)))
  /\ files w' = files w
  /\ files w' !! "/home/u/.claude-switch/configs/u1.json" = None
  /\ elems Examples.empty_manager = []
  /\ elems m' = [mkConfig "u1" "base" EmptyString Examples.stamp
                          "/home/u/.claude-switch/configs/u1.json"].
Proof. by_computation. Qed.

(** The same call when the save fails after the metadata document was
    truncated: the document on disk is left cut short as well. *)
Lemma AddConfig_save_failure_truncates_metadata :
  let w := Examples.world {[ Examples.temp := "{}" ]} (Examples.fault_at 5 (FailPartial 1)) in
  let '(r, m', w') := AddConfig Examples.temp "base" EmptyString Examples.empty_manager w in
  files w !! "/home/u/.claude-switch/config.json" = None
  /\ files w' !! "/home/u/.claude-switch/config.json" = Some "["
  /\ exists c, elems m' = [c].
Proof. vm_compute. repeat split. eexists. reflexivity. Qed.

End AddFacts.

(** ** The storage primitives *)

Module StorageFacts.

Import OS OSFacts Storage.

Lemma append_nonempty_ne (s t : string) : t <> EmptyString -> s +:+ t <> s.
Proof.
  intros Ht. induction s as [|a s IH]; simpl.
  - done.
  - intros [= H]. by apply IH.
Qed.

Lemma MkdirAll_files dir w r w' :
  MkdirAll dir w = (r, w') -> files w' = files w /\ same_env w w'.
Proof.
  unfold MkdirAll. intros H. case_world; auto using same_env_refl, same_env_tick.
Qed.

Lemma Rename_Err oldpath newpath w e w' :
  Rename oldpath newpath w = (Err e, w') -> files w' = files w.
Proof. unfold Rename. intros H. case_world; done. Qed.

Lemma Rename_Ok oldpath newpath w w' :
  Rename oldpath newpath w = (Ok tt, w') ->
  exists data, files w !! oldpath = Some data
               /\ files w' = <[newpath := data]> (delete oldpath (files w)).
Proof. unfold Rename. intros H. case_world; try done. eauto. Qed.

(** [AtomicWrite] shows the new content at the path in one step: when it
    fails, the file at the path is the one of before the call, and when it
    succeeds the path holds the whole content. *)
Lemma AtomicWrite_Err filePath data w e w' :
  AtomicWrite filePath data w = (Err e, w') -> files w' !! filePath = files w !! filePath.
Proof.
  assert (filePath <> filePath +:+ ".tmp") as Hne
      by (intros H; by apply (append_nonempty_ne filePath ".tmp")).
  unfold AtomicWrite, EnsureDir.
  destruct (MkdirAll _ w) as [[[]|me] w1] eqn:E1;
    apply MkdirAll_files in E1 as [E1 _].
  2: { intros [= _ <-]. by rewrite E1. }
  destruct (WriteFile _ data w1) as [[[]|we] w2] eqn:E2.
  2: { intros [= _ <-]. rewrite <- E1. eapply WriteFile_other; eauto. }
  apply WriteFile_other with (q := filePath) in E2 as E2'; [|done].
  destruct (Rename _ _ w2) as [[[]|re] w3] eqn:E3; [discriminate|].
  apply Rename_Err in E3.
  destruct (Remove _ w3) as [rr w4] eqn:E4. intros [= _ <-].
  apply Remove_other with (q := filePath) in E4; [|done]. congruence.
Qed.

Lemma AtomicWrite_Ok filePath data w w' :
  AtomicWrite filePath data w = (Ok tt, w') -> files w' !! filePath = Some data.
Proof.
  unfold AtomicWrite, EnsureDir.
  destruct (MkdirAll _ w) as [[[]|me] w1] eqn:E1; [|discriminate].
  destruct (WriteFile _ data w1) as [[[]|we] w2] eqn:E2; [|discriminate].
  apply WriteFile_Ok in E2 as (E2 & _ & _).
  destruct (Rename _ _ w2) as [[[]|re] w3] eqn:E3.
  2: { destruct (Remove _ w3). discriminate. }
  intros [= <-]. apply Rename_Ok in E3 as (d & Hd & ->).
  rewrite E2, lookup_insert_eq in Hd. injection Hd as <-.
  by rewrite lookup_insert_eq.
Qed.

(** A failed [SafeCopy] leaves the destination as it was. *)
Lemma SafeCopy_Err src dst w e w' :
  SafeCopy src dst w = (Err e, w') -> files w' !! dst = files w !! dst.
Proof.
  unfold SafeCopy. destruct (negb _); [by intros [= _ <-]|].
  destruct (ReadFile src w) as [[data|re] w1] eqn:E1;
    apply ReadFile_files in E1 as [E1 _].
  2: { intros [= _ <-]. by rewrite E1. }
  destruct (AtomicWrite dst data w1) as [[[]|ae] w2] eqn:E2; [discriminate|].
  intros [= _ <-]. apply AtomicWrite_Err in E2. by rewrite E2, E1.
Qed.

(** C10: [FileExists] returns false only when [os.Stat] reports that the
    path does not exist.  On every path where [os.Stat] fails for another
    reason, [FileExists] returns true, and [SafeCopy] from that path passes
    its existence check and fails at the read that follows, with the error
    of the read and not with [SourceNotFound]. *)
Theorem FileExists_false_only_when_absent (path : string) (w : World) :
  (FileExists path w = false <-> Stat path w = Err (PathError "stat" path ENOENT))
  /\ (forall e, Stat path w = Err e -> IsNotExist e = false ->
        FileExists path w = true
        /\ forall dst, exists re,
             SafeCopy path dst w = (Err (Wrap "failed to read source file" re), w)
             /\ fst (ReadFile path w) = Err re
             /\ fst (SafeCopy path dst w) <> Err (SourceNotFound path)).
Proof.
  split.
  - unfold FileExists, Stat.
    destruct (noaccess w path); [|destruct (files w !! path)]; simpl; split; congruence.
  - intros e Hs Hne. split.
    + unfold FileExists. by rewrite Hs, Hne.
    + intros dst. unfold SafeCopy, FileExists. rewrite Hs, Hne. simpl.
      unfold Stat in Hs. unfold ReadFile.
      destruct (noaccess w path).
      * eexists. repeat split. simpl. discriminate.
      * destruct (files w !! path); [discriminate|].
        injection Hs as <-. discriminate.
Qed.

(** A path that does not resolve: the existence probe answers true and
    the copy fails at its read. *)
Lemma FileExists_unresolved_example :
  let w := mkWorld ∅ (Some "/home/u") (fun p => String.eqb p "/locked/settings.json")
                   Examples.no_fault (fun _ => "u1") (fun _ => Examples.stamp) 0 in
  FileExists "/locked/settings.json" w = true
  /\ SafeCopy "/locked/settings.json" Examples.temp w
     = (Err (Wrap "failed to read source file"
               (PathError "open" "/locked/settings.json" EACCES)), w)
  /\ FileExists "/absent/settings.json" w = false
  /\ SafeCopy "/absent/settings.json" Examples.temp w
     = (Err (SourceNotFound "/absent/settings.json"), w).
Proof. vm_compute. repeat split. Qed.

End StorageFacts.

(** ** Applying a record *)

Module ApplyFacts.

Import OS OSFacts Validation Config LookupFacts AddFacts StorageFacts.

Lemma copyFile_Ok src dst w w' :
  copyFile src dst w = (Ok tt, w') ->
  exists data, files w !! src = Some data /\ files w' = <[dst := data]> (files w)
               /\ noaccess w dst = false /\ same_env w w'.
Proof.
  unfold copyFile. destruct (ReadFile src w) as [[data|re] w1] eqn:E1; [|discriminate].
  apply ReadFile_Ok in E1 as (Hd & _ & ->).
  destruct (WriteFile dst data (tick w)) as [[[]|we] w2] eqn:E2; [|discriminate].
  intros [= <-]. apply WriteFile_Ok in E2 as (Hf & Hn & He).
  exists data. repeat split; try done; apply He.
Qed.

(** C2 (defect of the code): an apply call whose copy onto the target
    fails while writing.  [ApplyConfig] copies with [copyFile], that is with
    [os.WriteFile] on the target itself, not with [SafeCopy]: the target,
    which held [{}] before the call, is left holding the first three bytes
    of the record's content (here the restoration from the backup fails as
    well). *)
Theorem ApplyConfig_copy_failure_truncates_target :
  let w := Examples.world
             {[ FilePath Examples.work := Examples.object_a; Examples.settings := "{}" ]}
             (fun k => if Nat.eqb k 4 then FailPartial 3
                       else if Nat.eqb k 6 then FailClean else NoFault) in
  let '(r, w') := ApplyConfig "work" Examples.one_manager w in
  r = Err (Wrap "failed to apply configuration"
             (Wrap "failed to write destination file"
                (PathError "write" Examples.settings ENOSPC)))
  /\ files w !! Examples.settings = Some "{}"
  /\ files w' !! Examples.settings = Some (prefix 3 Examples.object_a)
  /\ files w' !! Examples.settings <> files w !! Examples.settings
  /\ files w' !! Examples.settings <> files w !! FilePath Examples.work.
Proof. vm_compute. repeat split; discriminate. Qed.

(** C3: after a successful apply of a record, the target file and the
    record's stored file hold the same bytes; these are the bytes that the
    validator accepted before the copy (unless the stored file is the
    backup slot itself and was overwritten by the backup); if a target file
    existed before the call, the backup file holds the target's former
    content; if none existed, the backup slot is as before the call: no
    backup is created. *)
Theorem ApplyConfig_success
    (identifier : string) (m : Manager) (w w' : World) (c : Config) :
  GetConfig m identifier = Ok c ->
  ApplyConfig identifier m w = (Ok tt, w') ->
  exists settingsPath content,
    GetClaudeSettingsPath w = Ok settingsPath
    /\ files w' !! settingsPath = Some content
    /\ files w' !! FilePath c = Some content
    /\ (FilePath c <> settingsPath +:+ ".backup" \/ files w !! settingsPath = None ->
        files w !! FilePath c = Some content /\ ValidateClaudeSettings content = Ok tt)
    /\ (forall old, files w !! settingsPath = Some old ->
          files w' !! (settingsPath +:+ ".backup") = Some old)
    /\ (files w !! settingsPath = None ->
          files w' !! (settingsPath +:+ ".backup") = files w !! (settingsPath +:+ ".backup")).
Proof.
  intros Hget. unfold ApplyConfig. rewrite Hget.
  destruct (ValidateClaudeSettingsFile (FilePath c) w) as [[[]|ve] w1] eqn:Ev; [|discriminate].
  apply ValidateClaudeSettingsFile_Ok in Ev as (data & Hdata & Hvalid & _ & ->).
  change (GetClaudeSettingsPath (tick w)) with (GetClaudeSettingsPath w).
  destruct (GetClaudeSettingsPath w) as [settingsPath|] eqn:Hs; [|discriminate].
  assert (settingsPath +:+ ".backup" <> settingsPath) as Hne
      by (by apply append_nonempty_ne).
  destruct (Stat settingsPath (tick w)) as [[]|se] eqn:Hstat.
  - apply Stat_Ok in Hstat as [_ [old Hold]]. simpl in Hold.
    destruct (copyFile settingsPath _ (tick w)) as [[[]|be] w2] eqn:Eb; [|discriminate].
    cbv iota beta.
    apply copyFile_Ok in Eb as (old' & Hold' & Hf2 & _ & _). simpl in Hold', Hf2.
    assert (old' = old) as -> by congruence.
    destruct (copyFile (FilePath c) settingsPath w2) as [[[]|ce] w3] eqn:Ec; [|discriminate].
    intros [= <-]. apply copyFile_Ok in Ec as (content & Hc & Hf3 & _ & _).
    exists settingsPath, content. rewrite Hf3. repeat split.
    + by rewrite lookup_insert_eq.
    + destruct (decide (settingsPath = FilePath c)) as [<-|Hd].
      * by rewrite lookup_insert_eq.
      * by rewrite lookup_insert_ne.
    + destruct H as [H|H]; [|congruence].
      rewrite Hf2, lookup_insert_ne in Hc by done. congruence.
    + destruct H as [H|H]; [|congruence].
      rewrite Hf2, lookup_insert_ne in Hc by done. congruence.
    + intros old0 Hold0. rewrite lookup_insert_ne by done.
      rewrite Hf2, lookup_insert_eq. congruence.
    + congruence.
  - cbv iota beta.
    destruct (copyFile (FilePath c) settingsPath (tick w)) as [[[]|ce] w3] eqn:Ec; [|discriminate].
    intros [= <-]. apply copyFile_Ok in Ec as (content & Hc & Hf3 & Hacc & _).
    simpl in Hc, Hf3, Hacc. assert (content = data) as -> by congruence.
    exists settingsPath, data. rewrite Hf3. repeat split; try done.
    + by rewrite lookup_insert_eq.
    + destruct (decide (settingsPath = FilePath c)) as [<-|Hd].
      * by rewrite lookup_insert_eq.
      * by rewrite lookup_insert_ne.
    + intros old Hold. exfalso. unfold Stat in Hstat. simpl in Hstat.
      rewrite Hacc, Hold in Hstat. discriminate.
    + intros _. by rewrite lookup_insert_ne.
Qed.

Lemma ApplyConfig_success_witness :
  let w := Examples.world
             {[ FilePath Examples.work := Examples.object_a; Examples.settings := "{}" ]}
             Examples.no_fault in
  exists settingsPath content,
    GetClaudeSettingsPath w = Ok settingsPath
    /\ files (snd (ApplyConfig "work" Examples.one_manager w)) !! settingsPath = Some content
    /\ files (snd (ApplyConfig "work" Examples.one_manager w)) !! FilePath Examples.work
       = Some content
    /\ (FilePath Examples.work <> settingsPath +:+ ".backup" \/ files w !! settingsPath = None ->
        files w !! FilePath Examples.work = Some content
        /\ ValidateClaudeSettings content = Ok tt)
    /\ (forall old, files w !! settingsPath = Some old ->
          files (snd (ApplyConfig "work" Examples.one_manager w))
            !! (settingsPath +:+ ".backup") = Some old)
    /\ (files w !! settingsPath = None ->
          files (snd (ApplyConfig "work" Examples.one_manager w))
            !! (settingsPath +:+ ".backup") = files w !! (settingsPath +:+ ".backup")).
Proof.
  intros w.
  apply (ApplyConfig_success "work" Examples.one_manager w
           (snd (ApplyConfig "work" Examples.one_manager w)) Examples.work).
  - reflexivity.
  - vm_compute. reflexivity.
Defined.

(** The scenario of the specification: applying the record of content
    [{}] when no target file exists creates the target and no backup;
    applying it again creates a backup equal to [{}]. *)
Lemma ApplyConfig_twice_example :
  let base := mkConfig "u1" "base" EmptyString Examples.stamp
                       "/home/u/.claude-switch/configs/u1.json" in
  let m := mkManager Examples.dir (Some [base]) in
  let w := Examples.world {[ FilePath base := "{}" ]} Examples.no_fault in
  let '(r1, w1) := ApplyConfig "base" m w in
  let '(r2, w2) := ApplyConfig "base" m w1 in
  r1 = Ok tt /\ files w1 !! Examples.settings = Some "{}"
  /\ files w1 !! Examples.backup = None
  /\ r2 = Ok tt /\ files w2 !! Examples.settings = Some "{}"
  /\ files w2 !! Examples.backup = Some "{}".
Proof. vm_compute. repeat split. Qed.

End ApplyFacts.

(** ** Removing a record *)

Module RemoveFacts.

Import OS OSFacts Validation Config LookupFacts AddFacts StorageFacts.

Lemma saveConfigs_other m w r w' q :
  saveConfigs m w = (r, w') -> q <> metadataPath m -> files w' !! q = files w !! q.
Proof.
  unfold saveConfigs. destruct (MarshalIndent (configs m)) as [data|me].
  - destruct (WriteFile _ _ w) as [[[]|we] w1] eqn:E; intros [= _ <-] Hq;
      eapply WriteFile_other; eauto.
  - by intros [= _ <-].
Qed.

Lemma remove_by_id_middle l1 c l2 :
  Forall (fun x => ID x <> ID c) l1 -> remove_by_id (l1 ++ c :: l2) (ID c) = l1 ++ l2.
Proof.
  induction 1 as [|x l1 Hx _ IH]; simpl.
  - by rewrite String.eqb_refl.
  - apply eqb_string_false in Hx. by rewrite Hx, IH.
Qed.

Lemma lookup_config_none cs identifier :
  Forall (fun x => ~ answers x identifier) cs ->
  lookup_config cs identifier = Err (NotFound identifier).
Proof. intros H. by apply lookup_config_Err. Qed.

(** C8, as the claim states it, fails on a registry built by two add
    calls: the second record is given the identity of the first as its name.
    Removing the first record by its identity succeeds, and a get on that
    identity then returns the second record instead of failing with
    [NotFound]. *)
Lemma RemoveConfig_get_counterexample :
  let '(_, m1, w1) :=
    AddConfig Examples.temp "foo" EmptyString Examples.empty_manager Examples.plain_world in
  let '(_, m2, w2) := AddConfig Examples.temp "u1" EmptyString m1 w1 in
  let '(r, m3, w3) := RemoveConfig "u1" m2 w2 in
  exists a b,
    elems m2 = [a; b] /\ ID a = "u1" /\ Name a = "foo" /\ ID b = "u2" /\ Name b = "u1"
    /\ GetConfig m2 "u1" = Ok a
    /\ r = Ok tt
    /\ files w3 !! FilePath a = None
    /\ GetConfig m3 (ID a) = Ok b
    /\ GetConfig m3 (ID a) <> Err (NotFound (ID a)).
Proof. vm_compute. do 2 eexists. repeat split. discriminate. Qed.

(** C8 (amended): for every existing record [c] that an identifier
    resolves to, a successful remove takes the first record of identity
    [ID c] out of the collection and leaves no stored file at the record's
    path (a path other than the metadata document's); when no other record
    has the identity or the name of [c] as its own identity or name, the
    record removed is [c] and a subsequent get on its identity or on its
    name fails with [NotFound].  A stored file that is already absent is
    not an error: remove goes on, and succeeds when the metadata is
    saved. *)
Theorem RemoveConfig_success
    (identifier : string) (m : Manager) (w : World) (c : Config) :
  GetConfig m identifier = Ok c ->
  (forall m' w', RemoveConfig identifier m w = (Ok tt, m', w') ->
     elems m' = remove_by_id (elems m) (ID c)
     /\ (FilePath c <> metadataPath m -> files w' !! FilePath c = None)
     /\ (forall l1 l2, elems m = l1 ++ c :: l2 ->
           Forall (fun x => ~ answers x (ID c) /\ ~ answers x (Name c)) (l1 ++ l2) ->
           elems m' = l1 ++ l2
           /\ GetConfig m' (ID c) = Err (NotFound (ID c))
           /\ GetConfig m' (Name c) = Err (NotFound (Name c))))
  /\ (files w !! FilePath c = None -> noaccess w (FilePath c) = false ->
      let m1 := mkManager (configDir m) (Some (remove_by_id (elems m) (ID c))) in
      forall w2, saveConfigs m1 w = (Ok tt, w2) ->
                 RemoveConfig identifier m w = (Ok tt, m1, w2)).
Proof.
  intros Hget. split.
  - intros m' w'. unfold RemoveConfig. rewrite Hget.
    destruct (Remove (FilePath c) w) as [removed w1] eqn:Er.
    assert (match removed with
            | Err e => if negb (IsNotExist e) then Some e else None
            | Ok _ => None
            end = None -> files w1 = delete (FilePath c) (files w)) as Hgone.
    { intros Hn. eapply Remove_gone; [exact Er|].
      destruct removed as [|e]; [done|]. by destruct (IsNotExist e). }
    destruct (match removed with Ok _ => None | Err e => _ end) as [e|]; [discriminate|].
    specialize (Hgone eq_refl).
    destruct (saveConfigs _ w1) as [[[]|se] w2] eqn:Es; [|discriminate].
    intros [= <- <-]. split; [done|]. split.
    + intros Hp. erewrite saveConfigs_other; [|exact Es|exact Hp].
      by rewrite Hgone, lookup_delete_eq.
    + intros l1 l2 Hl Hu. unfold GetConfig.
      change (elems (mkManager (configDir m) (Some (remove_by_id (elems m) (ID c)))))
        with (remove_by_id (elems m) (ID c)).
      rewrite Hl. apply Forall_app in Hu as [Hu1 Hu2].
      rewrite remove_by_id_middle.
      2: { eapply Forall_impl; [exact Hu1|]. intros x [Hx _] E. apply Hx. by left. }
      split; [done|]. split; apply lookup_config_none, Forall_app; split;
        (eapply Forall_impl; [eassumption|]); intros x [? ?]; done.
  - intros Habs Hacc m1 w2 Hsave. unfold RemoveConfig. rewrite Hget.
    unfold Remove. rewrite Hacc, Habs. simpl. fold m1. by rewrite Hsave.
Qed.

(** A remove that succeeds, in the registry of two records whose stored
    files exist: the record leaves the collection, its stored file is
    deleted, and its identity and its name are no longer found.  And a
    remove of the only record of a registry whose stored file is already
    absent: it succeeds as well. *)
Lemma RemoveConfig_success_witness :
  let w := Examples.world {[ FilePath Examples.work := "{}";
                             FilePath Examples.play := Examples.object_a ]}
                          Examples.no_fault in
  let m := Examples.two_manager in
  let m' := snd (fst (RemoveConfig "work" m w)) in
  let w' := snd (RemoveConfig "work" m w) in
  let w0 := Examples.world {[ Examples.temp := "{}" ]} Examples.no_fault in
  (GetConfig m "work" = Ok Examples.work
   /\ RemoveConfig "work" m w = (Ok tt, m', w')
   /\ files w !! FilePath Examples.work = Some "{}"
   /\ files w' !! FilePath Examples.work = None
   /\ elems m' = [Examples.play]
   /\ GetConfig m' (ID Examples.work) = Err (NotFound (ID Examples.work))
   /\ GetConfig m' (Name Examples.work) = Err (NotFound (Name Examples.work)))
  /\ (files w0 !! FilePath Examples.work = None
      /\ fst (fst (RemoveConfig "work" Examples.one_manager w0)) = Ok tt
      /\ elems (snd (fst (RemoveConfig "work" Examples.one_manager w0))) = []).
Proof.
  intros w m m' w' w0.
  assert (GetConfig m "work" = Ok Examples.work) as Hget by reflexivity.
  assert (RemoveConfig "work" m w = (Ok tt, m', w')) as Hrun by (vm_compute; reflexivity).
  assert (files w !! FilePath Examples.work = Some "{}") as Hbefore by reflexivity.
  destruct (RemoveConfig_success "work" m w Examples.work Hget) as [Hsucc _].
  destruct (Hsucc m' w' Hrun) as (Helems & Hgone & Hlookup).
  assert (FilePath Examples.work <> metadataPath m) as Hpath by discriminate.
  assert (Forall (fun x => ~ answers x (ID Examples.work) /\ ~ answers x (Name Examples.work))
                 ([] ++ [Examples.play])) as Hothers.
  { repeat constructor; intros [E|E]; discriminate E. }
  destruct (Hlookup [] [Examples.play] eq_refl Hothers) as (Hrest & Hid & Hname).
  split.
  - split; [exact Hget|]. split; [exact Hrun|]. split; [exact Hbefore|].
    split; [exact (Hgone Hpath)|]. split; [exact Hrest|]. split; [exact Hid|exact Hname].
  - assert (GetConfig Examples.one_manager "work" = Ok Examples.work) as Hget0 by reflexivity.
    destruct (RemoveConfig_success "work" Examples.one_manager w0 Examples.work Hget0)
      as [_ Habsent].
    assert (files w0 !! FilePath Examples.work = None) as Hnone by reflexivity.
    split; [exact Hnone|].
    rewrite (Habsent Hnone eq_refl
               (snd (saveConfigs (mkManager (configDir Examples.one_manager)
                                    (Some (remove_by_id (elems Examples.one_manager)
                                             (ID Examples.work)))) w0)))
      by (vm_compute; reflexivity).
    split; reflexivity.
Defined.

(** Removing the only record, whose stored file is already absent:
    the call succeeds, the collection is empty and saved as such, and a get
    on the identity or on the name fails with [NotFound]. *)
Lemma RemoveConfig_absent_file_example :
  let w := Examples.world {[ Examples.temp := "{}" ]} Examples.no_fault in
  let '(r, m', w') := RemoveConfig "work" Examples.one_manager w in
  r = Ok tt /\ elems m' = []
  /\ files w' !! metadataPath Examples.one_manager = Some "[]"
  /\ GetConfig m' "u0" = Err (NotFound "u0")
  /\ GetConfig m' "work" = Err (NotFound "work").
Proof. vm_compute. repeat split. Qed.

End RemoveFacts.

(** ** UTF-8: decoding a rune and encoding it again *)

Module Utf8Facts.

Import Utf8.
Local Open Scope N_scope.

Ltac Zify.zify_post_hook ::= Z.to_euclidean_division_equations.

Lemma lor_shiftl_add a k b : b < 2 ^ k -> N.lor (N.shiftl a k) b = a * 2 ^ k + b.
Proof.
  intros Hb.
  assert (N.land (N.shiftl a k) b = 0) as H0.
  { apply N.bits_inj. intros m. rewrite N.land_spec, N.bits_0.
    destruct (N.lt_ge_cases m k) as [Hm|Hm].
    - by rewrite N.shiftl_spec_low.
    - rewrite <- (N.mod_small b (2 ^ k)) by done.
      rewrite N.mod_pow2_bits_high by done. apply andb_false_r. }
  rewrite <- N.lxor_lor, <- N.add_nocarry_lxor by done.
  by rewrite N.shiftl_mul_pow2.
Qed.

(** A multiple of [2 ^ k] and a number below [2 ^ k]: their bitwise or
    is their sum. *)
Lemma lor_add q m b k : m = 2 ^ k -> b < m -> N.lor (q * m) b = q * m + b.
Proof. intros -> Hb. rewrite <- lor_shiftl_add by done. by rewrite N.shiftl_mul_pow2. Qed.

Lemma land_low a k : N.land a (N.ones k) = a mod 2 ^ k.
Proof. apply N.land_ones. Qed.

Ltac to_arith :=
  change 0x07 with (N.ones 3) in *; change 0x0F with (N.ones 4) in *;
  change 0x1F with (N.ones 5) in *; change 0x3F with (N.ones 6) in *;
  rewrite ?land_low, ?N.shiftl_mul_pow2, ?N.shiftr_div_pow2 in *;
  change (2 ^ 3) with 8 in *; change (2 ^ 4) with 16 in *; change (2 ^ 5) with 32 in *;
  change (2 ^ 6) with 64 in *; change (2 ^ 12) with 4096 in *;
  change (2 ^ 18) with 262144 in *.

Lemma test_true a b : a <= b -> ((a <=? b) = true).
Proof. apply N.leb_le. Qed.
Lemma test_false a b : b < a -> ((a <=? b) = false).
Proof. apply N.leb_gt. Qed.
Lemma ltest_true a b : a < b -> ((a <? b) = true).
Proof. apply N.ltb_lt. Qed.
Lemma ltest_false a b : b <= a -> ((a <? b) = false).
Proof. apply N.ltb_ge. Qed.

Lemma encode_two a b : 0xC2 <= a <= 0xDF -> 0x80 <= b <= 0xBF ->
  EncodeRune (N.lor (N.shiftl (N.land a 0x1F) 6) (N.land b 0x3F)) = [Nbyte a; Nbyte b].
Proof.
  intros Ha Hb. to_arith.
  replace (a mod 32) with (a - 192) by lia. replace (b mod 64) with (b - 128) by lia.
  rewrite (lor_add _ _ _ 6) by (done || lia).
  unfold EncodeRune.
  rewrite test_false, test_true by lia. to_arith.
  rewrite (lor_add 3 64 _ 6), (lor_add 2 64 _ 6) by (done || lia).
  repeat f_equal; lia.
Qed.

Lemma encode_three a b c :
  0xE0 <= a <= 0xEF -> 0x80 <= b <= 0xBF -> 0x80 <= c <= 0xBF ->
  (a = 0xE0 -> 0xA0 <= b) -> (a = 0xED -> b <= 0x9F) ->
  EncodeRune (N.lor (N.lor (N.shiftl (N.land a 0x0F) 12) (N.shiftl (N.land b 0x3F) 6))
                    (N.land c 0x3F))
  = [Nbyte a; Nbyte b; Nbyte c].
Proof.
  intros Ha Hb Hc H1 H2. to_arith.
  replace (a mod 16) with (a - 224) by lia. replace (b mod 64) with (b - 128) by lia.
  replace (c mod 64) with (c - 128) by lia.
  rewrite (lor_add _ 4096 _ 12) by (done || lia).
  replace ((a - 224) * 4096 + (b - 128) * 64) with (((a - 224) * 64 + (b - 128)) * 64) by lia.
  rewrite (lor_add _ 64 _ 6) by (done || lia).
  set (r := ((a - 224) * 64 + (b - 128)) * 64 + (c - 128)).
  assert (r = (a - 224) * 4096 + (b - 128) * 64 + (c - 128)) as Hr by lia.
  clearbody r.
  unfold EncodeRune, IsSurrogate, MaxRune.
  rewrite !test_false by lia. rewrite ltest_false by lia. simpl orb.
  assert (((0xD800 <=? r) && (r <? 0xE000)) = false) as ->.
  { apply andb_false_iff. rewrite N.leb_gt, N.ltb_ge. lia. }
  rewrite test_true by lia. to_arith.
  rewrite (lor_add 14 16 _ 4), !(lor_add 2 64 _ 6) by (done || lia).
  repeat f_equal; lia.
Qed.

Lemma encode_four a b c d :
  0xF0 <= a <= 0xF4 -> 0x80 <= b <= 0xBF -> 0x80 <= c <= 0xBF -> 0x80 <= d <= 0xBF ->
  (a = 0xF0 -> 0x90 <= b) -> (a = 0xF4 -> b <= 0x8F) ->
  EncodeRune (N.lor (N.lor (N.lor (N.shiftl (N.land a 0x07) 18) (N.shiftl (N.land b 0x3F) 12))
                           (N.shiftl (N.land c 0x3F) 6))
                    (N.land d 0x3F))
  = [Nbyte a; Nbyte b; Nbyte c; Nbyte d].
Proof.
  intros Ha Hb Hc Hd H1 H2. to_arith.
  replace (a mod 8) with (a - 240) by lia. replace (b mod 64) with (b - 128) by lia.
  replace (c mod 64) with (c - 128) by lia. replace (d mod 64) with (d - 128) by lia.
  rewrite (lor_add _ 262144 _ 18) by (done || lia).
  replace ((a - 240) * 262144 + (b - 128) * 4096)
    with (((a - 240) * 64 + (b - 128)) * 4096) by lia.
  rewrite (lor_add _ 4096 _ 12) by (done || lia).
  replace (((a - 240) * 64 + (b - 128)) * 4096 + (c - 128) * 64)
    with ((((a - 240) * 64 + (b - 128)) * 64 + (c - 128)) * 64) by lia.
  rewrite (lor_add _ 64 _ 6) by (done || lia).
  set (r := (((a - 240) * 64 + (b - 128)) * 64 + (c - 128)) * 64 + (d - 128)).
  assert (r = (a - 240) * 262144 + (b - 128) * 4096 + (c - 128) * 64 + (d - 128)) as Hr by lia.
  clearbody r.
  unfold EncodeRune, IsSurrogate, MaxRune.
  rewrite !test_false by lia. rewrite ltest_false by lia. simpl orb.
  assert (((0xD800 <=? r) && (r <? 0xE000)) = false) as ->.
  { apply andb_false_iff. rewrite N.leb_gt, N.ltb_ge. lia. }
  rewrite test_false by lia.
  to_arith.
  rewrite (lor_add 30 8 _ 3), !(lor_add 2 64 _ 6) by (done || lia).
  repeat f_equal; lia.
Qed.

Lemma byteN_lt c : byteN c < 256.
Proof. apply N_ascii_bounded. Qed.

Lemma Nbyte_byteN c : Nbyte (byteN c) = c.
Proof. apply ascii_N_embedding. Qed.

Lemma byteN_Nbyte n : n < 256 -> byteN (Nbyte n) = n.
Proof. apply N_ascii_embedding. Qed.

Ltac tests_to_props :=
  repeat match goal with
  | H : (_ <? _) = true |- _ => apply N.ltb_lt in H
  | H : (_ <? _) = false |- _ => apply N.ltb_ge in H
  | H : (_ <=? _) = true |- _ => apply N.leb_le in H
  | H : (_ <=? _) = false |- _ => apply N.leb_gt in H
  | H : (_ =? _) = true |- _ => apply N.eqb_eq in H
  | H : (_ =? _) = false |- _ => apply N.eqb_neq in H
  | H : (_ || _) = false |- _ => apply orb_false_iff in H as [? ?]
  | H : (_ && _) = true |- _ => apply andb_true_iff in H as [? ?]
  | H : negb _ = false |- _ => apply negb_false_iff in H
  | H : negb _ = true |- _ => apply negb_true_iff in H
  end.

Ltac reuse_tests :=
  repeat match goal with
         | E : ?t = true |- context [?t] => rewrite E
         | E : ?t = false |- context [?t] => rewrite E
         end.

Ltac same_decoding :=
  intros ?; unfold DecodeRune, first; reuse_tests; reflexivity.

Ltac byte_bounds := unfold cont in *; tests_to_props; lia.

(** A rune that [DecodeRune] reads from two bytes or more, without
    error: its width, the bytes it was read from, which [EncodeRune] gives
    back, and the fact that the bytes after it play no part. *)
Lemma DecodeRune_multibyte c r rn size :
  RuneSelf <= byteN c ->
  DecodeRune (c :: r) = (rn, size) ->
  ((rn =? RuneError) && (size =? 1)%nat) = false ->
  (exists c1 r2, r = c1 :: r2 /\ size = 2%nat /\ EncodeRune rn = [c; c1]
                 /\ forall q, DecodeRune (c :: c1 :: q) = (rn, 2%nat))
  \/ (exists c1 c2 r3, r = c1 :: c2 :: r3 /\ size = 3%nat /\ EncodeRune rn = [c; c1; c2]
                 /\ forall q, DecodeRune (c :: c1 :: c2 :: q) = (rn, 3%nat))
  \/ (exists c1 c2 c3 r4, r = c1 :: c2 :: c3 :: r4 /\ size = 4%nat
                 /\ EncodeRune rn = [c; c1; c2; c3]
                 /\ forall q, DecodeRune (c :: c1 :: c2 :: c3 :: q) = (rn, 4%nat)).
Proof.
  intros Hc H Hok. unfold DecodeRune in H.
  apply N.ltb_ge in Hc as Hc'. rewrite Hc' in H.
  unfold first in H.
  repeat match type of H with
         | context [if ?b then _ else _] => destruct b eqn:?
         | context [match ?x with _ => _ end] => destruct x eqn:?
         end;
    injection H as <- <-; try (simpl in Hok; discriminate Hok); subst r;
    try match goal with
        | E : (_ <=? _)%nat = false |- _ => by vm_compute in E
        | E : (_ <=? _)%nat = true |- _ => by vm_compute in E
        end.
  all: pose proof (byteN_lt c);
    first
      [ left; do 2 eexists; split; [reflexivity|]; split; [reflexivity|]; split;
        [ etransitivity; [apply encode_two; byte_bounds | by rewrite !Nbyte_byteN ]
        | same_decoding ]
      | right; left; do 3 eexists; split; [reflexivity|]; split; [reflexivity|]; split;
        [ etransitivity; [apply encode_three; byte_bounds | by rewrite !Nbyte_byteN ]
        | same_decoding ]
      | right; right; do 4 eexists; split; [reflexivity|]; split; [reflexivity|]; split;
        [ etransitivity; [apply encode_four; byte_bounds | by rewrite !Nbyte_byteN ]
        | same_decoding ] ].
Qed.

End Utf8Facts.

(** ** The validator *)

Module ValidationFacts.

Import Validation.

(** The verdict of [ValidateClaudeSettings] on a byte sequence follows
    what the decoder of [encoding/json] makes of it: success for an object,
    [NotAnObject] for another value, [InvalidJSON] when the decoder
    fails. *)
Lemma ValidateClaudeSettings_verdict (data : string) :
  match Json.Unmarshal_any (list_ascii_of_string data) with
  | Ok (Json.JObject _) => ValidateClaudeSettings data = Ok tt
  | Ok _ => exists e, ValidateClaudeSettings data = Err e /\ NotAnObject e
  | Err _ => exists e, ValidateClaudeSettings data = Err e /\ InvalidJSON e
  end.
Proof.
  unfold ValidateClaudeSettings, ValidateJSON, Json.Unmarshal_map.
  destruct (Json.Unmarshal_any _) as [v|e] eqn:E.
  - unfold Json.Unmarshal_any in E.
    destruct (Json.parse _) as [v'|]; [|discriminate].
    destruct (Json.numbers_ok v') eqn:En; [|discriminate].
    injection E as ->.
    destruct v; try rewrite En;
      first [ reflexivity
            | eexists; split; [reflexivity|]; first [by left | right; by eexists] ].
  - eexists. split; [reflexivity|]. by eexists.
Qed.

(** What the decoder accepts: the texts of the JSON grammar whose
    numbers all fit a [float64]. *)
Lemma Unmarshal_any_Ok (data : list ascii) (v : Json.value) :
  Json.Unmarshal_any data = Ok v <-> Json.parse data = Some v /\ Json.numbers_ok v = true.
Proof.
  unfold Json.Unmarshal_any. destruct (Json.parse data) as [v'|].
  - destruct (Json.numbers_ok v') eqn:E; split.
    + by intros [= ->].
    + by intros [[= ->] _].
    + discriminate.
    + intros [[= ->] ?]. congruence.
  - split; [discriminate|]. by intros [? _].
Qed.

(** The examples of the specification: an object is accepted; an array,
    a string, a number and [null] are refused as not being objects; a text
    that is not JSON is refused as invalid. *)
Lemma ValidateClaudeSettings_examples :
  ValidateClaudeSettings "{}" = Ok tt
  /\ ValidateClaudeSettings Examples.object_a = Ok tt
  /\ ValidateClaudeSettings "[]"
     = Err (Wrap "failed to parse JSON as object" JsonUnmarshalError)
  /\ ValidateClaudeSettings (String Json.dquote ("x" +:+ String Json.dquote EmptyString))
     = Err (Wrap "failed to parse JSON as object" JsonUnmarshalError)
  /\ ValidateClaudeSettings "42"
     = Err (Wrap "failed to parse JSON as object" JsonUnmarshalError)
  /\ ValidateClaudeSettings "null"
     = Err (Msg "settings file must contain a JSON object, not null")
  /\ ValidateClaudeSettings "not json" = Err (Wrap "invalid JSON format" JsonSyntaxError)
  /\ ValidateClaudeSettings "{} {}" = Err (Wrap "invalid JSON format" JsonSyntaxError)
  /\ ValidateClaudeSettings EmptyString = Err (Wrap "invalid JSON format" JsonSyntaxError).
Proof. vm_compute. repeat split. Qed.

(** A number that does not fit a [float64] makes the decoder, hence the
    validator, refuse a text of the JSON grammar. *)
Lemma ValidateClaudeSettings_float_range_example :
  ValidateClaudeSettings "[1e999]" = Err (Wrap "invalid JSON format" JsonUnmarshalError)
  /\ Json.parse (list_ascii_of_string "[1e999]")
     = Some (Json.JArray [Json.JNumber (list_ascii_of_string "1e999")]).
Proof. vm_compute. repeat split. Qed.



End ValidationFacts.

(** ** JSON strings: writing and reading back *)

Module JsonStringFacts.

Import Utf8 Utf8Facts Json.
Local Open Scope char_scope.

Lemma ascii_eqb_true a b : ascii_eqb a b = true <-> a = b.
Proof. apply Ascii.eqb_eq. Qed.

Lemma ascii_eqb_high c d :
  (byteN d <? RuneSelf)%N = true -> (byteN c <? RuneSelf)%N = false -> ascii_eqb c d = false.
Proof.
  intros Hd Hc. destruct (ascii_eqb c d) eqn:E; [|done].
  apply ascii_eqb_true in E. subst. congruence.
Qed.

(** One step of the two loops. *)
Lemma string_bytes_cons c r :
  string_bytes (c :: r) =
  if (byteN c <? RuneSelf)%N then escape_ascii c ++ string_bytes r
  else
    let '(rn, size) := DecodeRune (c :: r) in
    if (rn =? RuneError)%N && (size =? 1)%nat then
      [backslash; "u"; "f"; "f"; "f"; "d"] ++ string_bytes r
    else
      match size, r with
      | 2%nat, c1 :: r2 => [c; c1] ++ string_bytes r2
      | 3%nat, c1 :: c2 :: r3 =>
        if (rn =? 0x2028)%N || (rn =? 0x2029)%N
        then [backslash; "u"; "2"; "0"; "2"; hex (N.land rn 0xF)] ++ string_bytes r3
        else [c; c1; c2] ++ string_bytes r3
      | 4%nat, c1 :: c2 :: c3 :: r4 => [c; c1; c2; c3] ++ string_bytes r4
      | _, _ => [c] ++ string_bytes r
      end.
Proof. reflexivity. Qed.

(** The parser reads back the escape of an ASCII byte. *)
Lemma string_body_escape_ascii c tail :
  (byteN c <? RuneSelf)%N = true ->
  string_body (escape_ascii c ++ tail) = emit (escape_ascii c) [c] (string_body tail).
Proof.
  intros H.
  destruct c as [[] [] [] [] [] [] [] []]; try (by vm_compute in H); reflexivity.
Qed.


Lemma string_body_cons_high c r :
  (byteN c <? RuneSelf)%N = false ->
  string_body (c :: r) =
  let '(rr, size) := DecodeRune (c :: r) in
  match size, r with
  | 2%nat, c1 :: r2 => emit [c; c1] (EncodeRune rr) (string_body r2)
  | 3%nat, c1 :: c2 :: r3 => emit [c; c1; c2] (EncodeRune rr) (string_body r3)
  | 4%nat, c1 :: c2 :: c3 :: r4 => emit [c; c1; c2; c3] (EncodeRune rr) (string_body r4)
  | _, _ => emit [c] (EncodeRune rr) (string_body r)
  end.
Proof.
  intros H. cbn [string_body].
  rewrite (ascii_eqb_high c dquote), (ascii_eqb_high c backslash) by done.
  assert ((byteN c <? 32)%N = false) as ->.
  { apply N.ltb_ge. apply N.ltb_ge in H. unfold RuneSelf in H. lia. }
  rewrite H. reflexivity.
Qed.

(** The two line separators that [appendString] escapes. *)
Lemma string_body_line_separator rn c c1 c2 tail :
  ((rn =? 0x2028) || (rn =? 0x2029))%N = true ->
  EncodeRune rn = [c; c1; c2] ->
  string_body ([backslash; "u"; "2"; "0"; "2"; hex (N.land rn 0xF)] ++ tail)
  = emit [backslash; "u"; "2"; "0"; "2"; hex (N.land rn 0xF)] [c; c1; c2] (string_body tail).
Proof.
  intros H <-. apply orb_true_iff in H as [H|H]; apply N.eqb_eq in H; subst rn; reflexivity.
Qed.

(** Reading back what [appendString] wrote for a valid UTF-8 string gives
    the string, and as raw token the bytes written. *)
Lemma string_body_string_bytes fuel : forall s rest,
  valid_fuel fuel s = true ->
  string_body (string_bytes s ++ dquote :: rest) = Some (string_bytes s, s, rest).
Proof.
  induction fuel as [|fuel IH]; intros s rest Hv.
  - destruct s; [reflexivity|discriminate].
  - destruct s as [|c r]; [reflexivity|].
    cbn [valid_fuel] in Hv. rewrite string_bytes_cons.
    destruct (byteN c <? RuneSelf)%N eqn:Hc.
    + assert (DecodeRune (c :: r) = (byteN c, 1%nat)) as Hd
          by (unfold DecodeRune; by rewrite Hc).
      rewrite Hd in Hv.
      destruct ((byteN c =? RuneError)%N && (1 =? 1)%nat); [discriminate|].
      rewrite <- app_assoc, string_body_escape_ascii by done.
      rewrite IH by done. reflexivity.
    + destruct (DecodeRune (c :: r)) as [rn size] eqn:Hd.
      destruct ((rn =? RuneError)%N && (size =? 1)%nat) eqn:Hok; [discriminate|].
      apply N.ltb_ge in Hc as Hc'.
      destruct (DecodeRune_multibyte c r rn size Hc' Hd Hok)
        as [(c1 & r2 & -> & -> & He & Hq)
           |[(c1 & c2 & r3 & -> & -> & He & Hq)
            |(c1 & c2 & c3 & r4 & -> & -> & He & Hq)]]; simpl drop in Hv.
      * rewrite <- app_assoc. simpl app at 1.
        rewrite string_body_cons_high, Hq, He by done.
        rewrite IH by done. reflexivity.
      * destruct ((rn =? 0x2028)%N || (rn =? 0x2029)%N) eqn:Hls.
        -- rewrite <- app_assoc, (string_body_line_separator rn c c1 c2) by done.
           rewrite IH by done. reflexivity.
        -- rewrite <- app_assoc. simpl app at 1.
           rewrite string_body_cons_high, Hq, He by done.
           rewrite IH by done. reflexivity.
      * rewrite <- app_assoc. simpl app at 1.
        rewrite string_body_cons_high, Hq, He by done.
        rewrite IH by done. reflexivity.
Qed.

End JsonStringFacts.

(** ** Time stamps: writing and reading back *)

Module TimeFacts.

Import Utf8 Utf8Facts Json Rfc3339.
Local Open Scope char_scope.
Local Open Scope Z_scope.

Lemma digit_cases (k : Z) : 0 <= k <= 9 ->
  k = 0 \/ k = 1 \/ k = 2 \/ k = 3 \/ k = 4 \/ k = 5 \/ k = 6 \/ k = 7 \/ k = 8 \/ k = 9.
Proof. lia. Qed.

Ltac each_digit H :=
  apply digit_cases in H;
  repeat (destruct H as [H|H]; [subst|]); subst.

Lemma digit_value k : 0 <= k <= 9 -> Z.of_N (byteN (digit k)) - 48 = k.
Proof. intros H. each_digit H; reflexivity. Qed.

Lemma digit_isDigit k : 0 <= k <= 9 -> isDigit (digit k) = true.
Proof. intros H. each_digit H; reflexivity. Qed.

Lemma digit_htmlSafe k : 0 <= k <= 9 -> htmlSafe (digit k) = true.
Proof. intros H. each_digit H; reflexivity. Qed.

Lemma digit_zero k : 0 <= k <= 9 -> digit k = "0" -> k = 0.
Proof. intros H. each_digit H; try done; by vm_compute. Qed.

Lemma digits_value_snoc l c :
  digits_value (l ++ [c]) = digits_value l * 10 + (Z.of_N (byteN c) - 48).
Proof. unfold digits_value. by rewrite fold_left_app. Qed.

Lemma appendInt_length w n : length (appendInt w n) = w.
Proof.
  revert n. induction w as [|w IH]; intros n; simpl; [done|].
  rewrite length_app, IH. simpl. lia.
Qed.

Lemma appendInt_digits w n : forallb isDigit (appendInt w n) = true.
Proof.
  revert n. induction w as [|w IH]; intros n; simpl; [done|].
  rewrite forallb_app, IH. simpl. rewrite digit_isDigit; [done|].
  pose proof (Z.mod_pos_bound n 10). lia.
Qed.

Lemma appendInt_value w n :
  0 <= n < 10 ^ Z.of_nat w -> digits_value (appendInt w n) = n.
Proof.
  revert n. induction w as [|w IH]; intros n Hn.
  - simpl in *. change (digits_value []) with 0. lia.
  - cbn [appendInt]. rewrite digits_value_snoc, digit_value by (pose proof (Z.mod_pos_bound n 10); lia).
    rewrite IH; [lia|].
    rewrite Nat2Z.inj_succ, Z.pow_succ_r in Hn by lia. lia.
Qed.

Lemma parseUint_appendInt w n lo hi :
  0 <= n < 10 ^ Z.of_nat w -> lo <= n <= hi ->
  parseUint (appendInt w n) lo hi = Some n.
Proof.
  intros Hn Hr. unfold parseUint. rewrite appendInt_digits, appendInt_value by done.
  destruct (n <? lo) eqn:E1; [lia|]. destruct (hi <? n) eqn:E2; [lia|]. done.
Qed.


(** The digits that are left when the trailing zeros are cut. *)
Lemma trim0_spec l :
  exists k, l = repeat "0" k ++ trim0 l /\ (forall r, trim0 l <> "0" :: r).
Proof.
  induction l as [|c l (k & Hk & Hnz)].
  - exists 0%nat. split; [done|]. simpl. done.
  - destruct (decide (c = "0")) as [->|Hc].
    + exists (S k). simpl. split; [by f_equal|done].
    + exists 0%nat. assert (trim0 (c :: l) = c :: l) as ->.
      { simpl. destruct c as [[] [] [] [] [] [] [] []]; done. }
      split; [done|]. intros r [= ? _]. done.
Qed.

Lemma digits_value_zeros ds k :
  digits_value (ds ++ repeat "0" k) = digits_value ds * 10 ^ Z.of_nat k.
Proof.
  induction k as [|k IH].
  - simpl. rewrite app_nil_r. lia.
  - change (repeat "0" (S k)) with ("0" :: repeat "0" k).
    rewrite repeat_cons, app_assoc, digits_value_snoc, IH.
    change (Z.of_N (byteN "0") - 48) with 0.
    rewrite Nat2Z.inj_succ, Z.pow_succ_r by lia. lia.
Qed.

Lemma span_digits_app ds rest :
  forallb isDigit ds = true ->
  match rest with [] => True | c :: _ => isDigit c = false end ->
  span_digits (ds ++ rest) = (ds, rest).
Proof.
  intros Hd Hr. induction ds as [|d ds IH]; simpl.
  - destruct rest as [|c rest]; [done|]. simpl. by rewrite Hr.
  - simpl in Hd. apply andb_true_iff in Hd as [Hd1 Hd2].
    by rewrite Hd1, IH.
Qed.

Lemma appendZone_head z :
  exists c r, appendZone z = c :: r /\ isDigit c = false /\ c <> ".".
Proof.
  unfold appendZone. destruct (z =? 0); [|destruct (z <? 0)]; do 2 eexists; done.
Qed.

Lemma parseFraction_appendNano ns z :
  0 <= ns <= 999999999 ->
  parseFraction (appendNano ns ++ appendZone z) = (ns, appendZone z).
Proof.
  intros Hns. destruct (appendZone_head z) as (c & r & Hz & Hc & Hdot).
  unfold appendNano. destruct (ns =? 0) eqn:E0.
  - apply Z.eqb_eq in E0 as ->. simpl. rewrite Hz. unfold parseFraction.
    destruct c as [[] [] [] [] [] [] [] []]; done.
  - apply Z.eqb_neq in E0.
    destruct (trim0_spec (rev (appendInt 9 ns))) as (k & Hk & Hnz).
    set (ds := rev (trim0 (rev (appendInt 9 ns)))).
    assert (appendInt 9 ns = ds ++ repeat "0" k) as Hds.
    { rewrite <- (rev_involutive (appendInt 9 ns)), Hk, rev_app_distr.
      by rewrite rev_repeat. }
    assert (digits_value ds * 10 ^ Z.of_nat k = ns) as Hval.
    { rewrite <- digits_value_zeros, <- Hds. apply appendInt_value. simpl. lia. }
    assert (length ds + k = 9)%nat as Hlen.
    { rewrite <- (appendInt_length 9 ns), Hds, length_app, repeat_length. done. }
    assert (forallb isDigit ds = true) as Hdig.
    { pose proof (appendInt_digits 9 ns) as H. rewrite Hds, forallb_app in H.
      by apply andb_true_iff in H as [? _]. }
    assert (ds <> []) as Hne.
    { intros Hnil. rewrite Hnil in Hval. change (digits_value []) with 0 in Hval. lia. }
    simpl app. unfold parseFraction. rewrite span_digits_app; [|done|by rewrite Hz].
    destruct ds as [|d ds']; [done|].
    rewrite take_ge by lia. f_equal.
    replace (9 - length (d :: ds'))%nat with k by lia. done.
Qed.

Lemma parseZone_appendZone z :
  Z.abs z / 60 < 24 -> parseZone (appendZone z) = Some z.
Proof.
  intros Hz. unfold appendZone. destruct (z =? 0) eqn:E0.
  { apply Z.eqb_eq in E0 as ->. done. }
  apply Z.eqb_neq in E0.
  assert (0 <= Z.abs z / 60 <= 23) as Hh by (split; [apply Z.div_pos|]; lia).
  assert (0 <= Z.abs z mod 60 <= 59) as Hm by (pose proof (Z.mod_pos_bound (Z.abs z) 60); lia).
  pose proof (parseUint_appendInt 2 (Z.abs z / 60) 0 23) as Ph.
  pose proof (parseUint_appendInt 2 (Z.abs z mod 60) 0 59) as Pm.
  change (appendInt 2 ?n) with [digit (n / 10 mod 10); digit (n mod 10)] in *.
  simpl app. unfold parseZone.
  rewrite Ph, Pm by (simpl; lia).
  destruct (z <? 0) eqn:En; simpl; f_equal; lia.
Qed.

Lemma parseRFC3339_format t :
  wellformed t -> 0 <= year t <= 9999 -> Z.abs (zone t) / 60 < 24 ->
  parseRFC3339 (format t) = Some t.
Proof.
  destruct t as [y mo d h mi s ns z].
  intros (Hmo & Hd & Hh & Hmi & Hs & Hns) Hy Hz. simpl in *.
  assert (daysIn mo y <= 31) as Hdays.
  { unfold daysIn. repeat destruct (_ =? _); simpl; try lia. destruct (isLeap y); lia. }
  pose proof (parseUint_appendInt 4 y 0 9999) as Py.
  pose proof (parseUint_appendInt 2 mo 1 12) as Pmo.
  pose proof (parseUint_appendInt 2 d 1 (daysIn mo y)) as Pd.
  pose proof (parseUint_appendInt 2 h 0 23) as Ph.
  pose proof (parseUint_appendInt 2 mi 0 59) as Pmi.
  pose proof (parseUint_appendInt 2 s 0 59) as Ps.
  unfold parseRFC3339, format. cbn [year month day hour minute second nanosecond zone].
  change (appendInt 4 ?n)
    with [digit (n / 10 / 10 / 10 mod 10); digit (n / 10 / 10 mod 10);
          digit (n / 10 mod 10); digit (n mod 10)] in *.
  change (appendInt 2 ?n) with [digit (n / 10 mod 10); digit (n mod 10)] in *.
  cbn [app length Nat.ltb Nat.leb slice take drop firstn skipn Nat.sub char_at
       lookup list_lookup].
  rewrite take_0, drop_0.
  rewrite Py, Pmo by (simpl; lia). rewrite Pd, Ph, Pmi, Ps by (simpl; lia).
  cbn [ascii_eqb Ascii.eqb Bool.eqb andb].
  rewrite parseFraction_appendNano by lia.
  by rewrite parseZone_appendZone.
Qed.

End TimeFacts.

(** ** The metadata document: writing and reading back *)

Module CodecFacts.

Import Utf8 Utf8Facts Json Rfc3339 OS Config JsonStringFacts TimeFacts.
Local Open Scope char_scope.

(** *** Strings that are written as they are *)

Lemma htmlSafe_ascii c : htmlSafe c = true -> (byteN c <? RuneSelf)%N = true.
Proof.
  unfold htmlSafe. intros H. do 5 (apply andb_true_iff in H as [H _]).
  by apply andb_true_iff in H as [_ H].
Qed.

Lemma plain_string_bytes s : forallb htmlSafe s = true -> string_bytes s = s.
Proof.
  induction s as [|c s IH]; [done|]. simpl forallb. intros H.
  apply andb_true_iff in H as [Hc Hs].
  rewrite string_bytes_cons, (htmlSafe_ascii c Hc), IH by done.
  unfold escape_ascii. by rewrite Hc.
Qed.

Lemma plain_valid s : forall fuel,
  forallb htmlSafe s = true -> (length s <= fuel)%nat -> valid_fuel fuel s = true.
Proof.
  induction s as [|c s IH]; intros fuel H Hf; [by destruct fuel|].
  simpl in H. apply andb_true_iff in H as [Hc Hs].
  destruct fuel as [|fuel]; [simpl in Hf; lia|].
  cbn [valid_fuel]. unfold DecodeRune. rewrite (htmlSafe_ascii c Hc).
  assert (((byteN c =? RuneError)%N && (1 =? 1)%nat) = false) as ->.
  { apply andb_false_iff. left. apply N.eqb_neq.
    pose proof (byteN_lt c). unfold RuneError. lia. }
  apply IH; [done|]. simpl in Hf. lia.
Qed.

Lemma appendInt_plain w n : forallb htmlSafe (appendInt w n) = true.
Proof.
  revert n. induction w as [|w IH]; intros n; simpl; [done|].
  rewrite forallb_app, IH. simpl. rewrite digit_htmlSafe; [done|].
  pose proof (Z.mod_pos_bound n 10). lia.
Qed.

Lemma trim0_In x l : In x (trim0 l) -> In x l.
Proof.
  induction l as [|c l IH]; [done|]. simpl.
  destruct c as [[] [] [] [] [] [] [] []]; simpl; tauto.
Qed.

Lemma appendNano_plain ns : forallb htmlSafe (appendNano ns) = true.
Proof.
  unfold appendNano. destruct (_ =? _)%Z; [done|].
  cbn [forallb]. apply andb_true_iff. split; [done|].
  apply forallb_forall. intros x Hx. apply in_rev, trim0_In, in_rev in Hx.
  pose proof (appendInt_plain 9 ns) as H.
  rewrite forallb_forall in H. by apply H.
Qed.

Lemma appendZone_plain z : forallb htmlSafe (appendZone z) = true.
Proof.
  unfold appendZone. destruct (_ =? _)%Z; [done|].
  destruct (_ <? _)%Z; cbn [forallb];
    rewrite !forallb_app, !appendInt_plain; reflexivity.
Qed.

Lemma format_plain t : forallb htmlSafe (format t) = true.
Proof.
  unfold format.
  by rewrite !forallb_app, !appendInt_plain, appendNano_plain, appendZone_plain.
Qed.

(** *** Tokens *)

Lemma parse_value_string g depth s r :
  Valid s = true ->
  parse_value (S g) depth (appendString s ++ r) = Some (JString (string_bytes s) s, r).
Proof.
  intros Hv. unfold appendString. rewrite <- !app_assoc. simpl app.
  cbn [parse_value]. unfold dquote at 1. cbn [ascii_eqb Ascii.eqb Bool.eqb].
  fold dquote. by rewrite (string_body_string_bytes (length s)).
Qed.

Lemma parse_value_time g depth t r :
  parse_value (S g) depth ([dquote] ++ format t ++ [dquote] ++ r)
  = Some (JString (format t) (format t), r).
Proof.
  pose proof (parse_value_string g depth (format t) r) as H.
  unfold appendString in H. rewrite plain_string_bytes in H by apply format_plain.
  rewrite <- !app_assoc in H. apply H.
  unfold Valid. apply plain_valid; [apply format_plain|done].
Qed.


(** *** Objects *)

Lemma skip_ws_nl r : skip_ws (nl ++ r) = skip_ws r.
Proof. reflexivity. Qed.

Lemma skip_ws_string k r : skip_ws (appendString k ++ r) = appendString k ++ r.
Proof. reflexivity. Qed.

Lemma skip_ws_member k v r :
  skip_ws (member k v ++ r) = appendString k ++ [":"; " "] ++ v ++ r.
Proof. unfold member. rewrite <- !app_assoc. reflexivity. Qed.

Lemma ascii_eqb_refl c : ascii_eqb c c = true.
Proof. by apply ascii_eqb_true. Qed.

Lemma members_one f g depth k bytes v r :
  f = S g -> Valid k = true -> reads_as depth bytes v ->
  members (S f) depth (appendString k ++ [":"; " "] ++ bytes ++ nl ++ " " :: " " :: "}" :: r)
  = Some ([(k, v)], r).
Proof.
  intros Hf Hk [Hs Hp]. unfold appendString. rewrite <- !app_assoc. simpl app.
  cbn [members]. rewrite ascii_eqb_refl.
  rewrite (string_body_string_bytes (length k)) by done.
  cbn [skip_ws isSpace ascii_eqb Ascii.eqb Bool.eqb orb].
  rewrite Hf, Hs, Hp. reflexivity.
Qed.

Lemma members_more f g depth k bytes v r ms rest :
  f = S g -> Valid k = true -> reads_as depth bytes v ->
  members f depth (skip_ws r) = Some (ms, rest) ->
  members (S f) depth (appendString k ++ [":"; " "] ++ bytes ++ "," :: r)
  = Some ((k, v) :: ms, rest).
Proof.
  intros Hf Hk [Hs Hp] Hm. unfold appendString. rewrite <- !app_assoc. simpl app.
  cbn [members]. rewrite ascii_eqb_refl.
  rewrite (string_body_string_bytes (length k)) by done.
  cbn [skip_ws isSpace ascii_eqb Ascii.eqb Bool.eqb orb].
  subst f. rewrite Hs, Hp.
  cbn [skip_ws isSpace ascii_eqb Ascii.eqb Bool.eqb orb].
  by rewrite Hm.
Qed.

(** The members of an object, printed one per line, are read back in
    their order. *)
Lemma members_members_bytes depth ms : forall vs f rest,
  ms <> [] ->
  Forall2 (fun kb v => Valid (fst kb) = true /\ reads_as depth (snd kb) v) ms vs ->
  members (length ms + 1 + f) depth
          (skip_ws (members_bytes ms ++ list_ascii_of_string "  }" ++ rest))
  = Some (zip (map fst ms) vs, rest).
Proof.
  induction ms as [|[k b] ms IH]; intros vs f rest Hne H; [done|].
  inversion H as [|? v ? vs' [Hk Hr] Hrest]; subst. simpl in Hk, Hr.
  destruct ms as [|m2 ms].
  - inversion Hrest; subst. cbn [members_bytes].
    rewrite <- !app_assoc, skip_ws_member.
    by apply (members_one (S f) f).
  - change (members_bytes ((k, b) :: m2 :: ms))
      with (member k b ++ list_ascii_of_string "," ++ nl ++ members_bytes (m2 :: ms)).
    rewrite <- !app_assoc, skip_ws_member.
    cbn [map fst zip zip_with].
    apply (members_more (length (m2 :: ms) + 1 + f) (length ms + 1 + f)); [done..|].
    apply IH; done.
Qed.


Lemma reads_as_string depth s :
  Valid s = true -> reads_as depth (appendString s) (JString (string_bytes s) s).
Proof.
  intros Hs. split; [intros r; apply skip_ws_string|].
  intros g r. by apply parse_value_string.
Qed.

Lemma reads_as_time depth t :
  reads_as depth ([dquote] ++ format t ++ [dquote]) (JString (format t) (format t)).
Proof.
  split; [done|]. intros g r. rewrite <- !app_assoc. apply parse_value_time.
Qed.

Lemma MarshalJSON_Ok t created :
  MarshalJSON t = Ok created ->
  created = [dquote] ++ format t ++ [dquote]
  /\ (0 <= year t <= 9999)%Z /\ (Z.abs (zone t) / 60 < 24)%Z.
Proof.
  unfold MarshalJSON.
  destruct (_ || _) eqn:E1; [discriminate|]. destruct (_ <=? _)%Z eqn:E2; [discriminate|].
  intros [= <-]. apply orb_false_iff in E1 as [Ha Hb].
  apply Z.ltb_ge in Ha, Hb. apply Z.leb_gt in E2. done.
Qed.

Lemma parse_value_brace fuel depth r tl :
  (depth + 1 <= maxNestingDepth)%N -> skip_ws r = dquote :: tl ->
  parse_value (S fuel) depth ("{" :: r)
  = match members fuel (depth + 1) (skip_ws r) with
    | Some (ms, rest) => Some (JObject ms, rest)
    | None => None
    end.
Proof.
  intros Hd Hr. cbn [parse_value]. apply N.ltb_ge in Hd. rewrite Hd, Hr. reflexivity.
Qed.

Lemma parse_value_bracket fuel depth r tl :
  (depth + 1 <= maxNestingDepth)%N -> skip_ws r = "{" :: tl ->
  parse_value (S fuel) depth ("[" :: r)
  = match elements fuel (depth + 1) (skip_ws r) with
    | Some (vs, rest) => Some (JArray vs, rest)
    | None => None
    end.
Proof.
  intros Hd Hr. cbn [parse_value]. apply N.ltb_ge in Hd. rewrite Hd, Hr. reflexivity.
Qed.

(** The object of a record is read back as the value of the record. *)
Lemma parse_value_object g depth c created rest :
  (depth + 1 <= maxNestingDepth)%N ->
  text_ok c -> MarshalJSON (CreatedAt c) = Ok created ->
  parse_value (S (6 + g)) depth (object_bytes c created ++ rest)
  = Some (config_value c, rest).
Proof.
  intros Hdepth (Hid & Hname & Hdesc & Hpath & _) Hcreated.
  apply MarshalJSON_Ok in Hcreated as (-> & _ & _).
  pose proof (members_members_bytes (depth + 1)
                (fields c ([dquote] ++ format (CreatedAt c) ++ [dquote]))
                [string_value (ID c); string_value (Name c); string_value (Description c);
                 JString (format (CreatedAt c)) (format (CreatedAt c));
                 string_value (FilePath c)] g rest) as Hm.
  change (length (fields c _) + 1 + g)%nat with (6 + g)%nat in Hm.
  unfold object_bytes. rewrite <- !app_assoc.
  change (list_ascii_of_string "{" ++ nl ++ ?x) with ("{" :: nl ++ x).
  erewrite parse_value_brace; [|done|].
  - rewrite skip_ws_nl, Hm; [reflexivity|done|].
    unfold fields.
    do 5 (constructor;
          [split; [by vm_compute|first [by apply reads_as_string | apply reads_as_time]]|]).
    constructor.
  - rewrite skip_ws_nl. cbn [fields members_bytes string_field].
    rewrite <- !app_assoc, skip_ws_member. reflexivity.
Qed.

Lemma marshal_config_Ok c e :
  marshal_config c = Ok e ->
  exists created, MarshalJSON (CreatedAt c) = Ok created
                  /\ e = " " :: " " :: object_bytes c created.
Proof.
  unfold marshal_config. destruct (MarshalJSON _) as [created|]; [|discriminate].
  intros [= <-]. by exists created.
Qed.

Lemma skip_ws_object c created r :
  skip_ws (" " :: " " :: object_bytes c created ++ r) = object_bytes c created ++ r.
Proof. reflexivity. Qed.

Lemma elements_S fuel depth s :
  elements (S fuel) depth s =
  match parse_value fuel depth s with
  | None => None
  | Some (v, rest) =>
    match skip_ws rest with
    | "]" :: r => Some ([v], r)
    | "," :: r =>
      match elements fuel depth (skip_ws r) with
      | Some (vs, rest') => Some (v :: vs, rest')
      | None => None
      end
    | _ => None
    end
  end.
Proof. reflexivity. Qed.

Lemma elements_last f c created rest :
  text_ok c -> MarshalJSON (CreatedAt c) = Ok created ->
  elements (S (S (6 + f))) 1 (object_bytes c created ++ nl ++ "]" :: rest)
  = Some ([config_value c], rest).
Proof.
  intros Hc Hcreated. rewrite elements_S, parse_value_object by done. reflexivity.
Qed.

Lemma elements_more f g c created r vs rest :
  f = S (6 + g) -> text_ok c -> MarshalJSON (CreatedAt c) = Ok created ->
  elements f 1 (skip_ws r) = Some (vs, rest) ->
  elements (S f) 1 (object_bytes c created ++ "," :: r)
  = Some (config_value c :: vs, rest).
Proof.
  intros Hf Hc Hcreated Hr. rewrite elements_S. rewrite Hf at 1.
  rewrite parse_value_object by done.
  cbn [skip_ws isSpace ascii_eqb Ascii.eqb Bool.eqb orb].
  by rewrite Hr.
Qed.

(** The elements of the array are read back in their order. *)
Lemma elements_marshal_elements l : forall body f rest,
  l <> [] -> Forall text_ok l -> marshal_elements l = Ok body ->
  elements (length l + 7 + f) 1 (skip_ws (body ++ nl ++ "]" :: rest))
  = Some (map config_value l, rest).
Proof.
  induction l as [|c l IH]; intros body f rest Hne Hok Hbody; [done|].
  inversion Hok as [|? ? Hc Hl]; subst.
  cbn [marshal_elements] in Hbody.
  destruct (marshal_config c) as [e|] eqn:He; [|discriminate].
  apply marshal_config_Ok in He as (created & Hcreated & ->).
  destruct (marshal_elements l) as [es|] eqn:Hes; [|discriminate].
  destruct l as [|c2 l].
  - assert (body = " " :: " " :: object_bytes c created) as -> by congruence.
    change ((" " :: " " :: object_bytes c created) ++ ?x)
      with (" " :: " " :: object_bytes c created ++ x).
    rewrite skip_ws_object. by apply elements_last.
  - assert (body = (" " :: " " :: object_bytes c created)
                     ++ list_ascii_of_string "," ++ nl ++ es) as -> by congruence.
    assert (forall (obj : list ascii),
              ((" " :: " " :: obj) ++ list_ascii_of_string "," ++ nl ++ es)
                ++ nl ++ "]" :: rest
              = " " :: " " :: obj ++ "," :: nl ++ es ++ nl ++ "]" :: rest) as ->.
    { intros obj. simpl. by rewrite <- !app_assoc. }
    rewrite skip_ws_object.
    apply (elements_more (length (c2 :: l) + 7 + f) (length l + 1 + f)); [simpl; lia|done..|].
    rewrite skip_ws_nl. by apply IH.
Qed.


(** *** The whole document *)

Lemma marshal_elements_head c l body :
  marshal_elements (c :: l) = Ok body -> exists tl, body = " " :: " " :: "{" :: tl.
Proof.
  cbn [marshal_elements].
  destruct (marshal_config c) as [e|] eqn:He; [|discriminate].
  apply marshal_config_Ok in He as (created & _ & ->).
  destruct (marshal_elements l) as [es|]; [|discriminate].
  destruct l; intros [= <-]; eexists; reflexivity.
Qed.

Lemma marshal_elements_length l : forall body,
  marshal_elements l = Ok body -> (length l <= length body)%nat.
Proof.
  induction l as [|c l IH]; intros body; [simpl; lia|].
  intros H. destruct (marshal_elements_head c l body H) as [tl ->].
  cbn [marshal_elements] in H.
  destruct (marshal_config c) as [e|] eqn:He; [|discriminate].
  destruct (marshal_elements l) as [es|] eqn:Hes; [|discriminate].
  specialize (IH es eq_refl).
  destruct l as [|c2 l]; [simpl; lia|].
  assert (" " :: " " :: "{" :: tl = e ++ list_ascii_of_string "," ++ nl ++ es) as ->
      by congruence.
  rewrite !length_app. simpl in *. lia.
Qed.

(** The parser reads the document of a collection back as the array of
    the values of its records. *)
Lemma parse_MarshalIndent cs data :
  Forall text_ok (default [] cs) -> MarshalIndent cs = Ok data ->
  parse data = Some (match cs with
                     | None => JNull
                     | Some l => JArray (map config_value l)
                     end).
Proof.
  intros Hok. destruct cs as [[|c l]|]; simpl in Hok.
  - by intros [= <-].
  - unfold MarshalIndent.
    destruct (marshal_elements (c :: l)) as [body|] eqn:Hbody; [|discriminate].
    intros [= <-].
    pose proof (marshal_elements_length _ _ Hbody) as Hlen.
    destruct (marshal_elements_head _ _ _ Hbody) as [tl Htl].
    unfold parse.
    set (data := _ :: _ :: body ++ _).
    change (skip_ws data) with data.
    assert (exists f, 2 * length data + 2 = S (length (c :: l) + 7 + f))%nat as [f ->].
    { exists (2 * length data + 2 - (length (c :: l) + 8))%nat.
      subst data. simpl length. rewrite !length_app. simpl length in *. lia. }
    subst data.
    erewrite parse_value_bracket; [|done|rewrite Htl; reflexivity].
    change (skip_ws (newline :: body ++ [newline; "]"]))
      with (skip_ws (body ++ nl ++ "]" :: [])).
    by rewrite elements_marshal_elements.
  - by intros [= <-].
Qed.


(** *** Decoding *)

Lemma store_string_value s set c0 :
  store_string (string_value s) set c0 = Some (set s).
Proof.
  unfold store_string, string_value. by rewrite string_of_list_ascii_of_string.
Qed.

(** The value of a record is decoded to the record. *)
Lemma unmarshal_config_value c created :
  wellformed (CreatedAt c) -> MarshalJSON (CreatedAt c) = Ok created ->
  unmarshal_config (config_value c) = Some c.
Proof.
  intros Hwf Hcreated. apply MarshalJSON_Ok in Hcreated as (_ & Hy & Hz).
  destruct c as [id name desc t path]. simpl in Hwf, Hy, Hz.
  unfold unmarshal_config, config_value.
  cbn [ID Name Description CreatedAt FilePath store_members].
  change (store_member ?c0 (list_ascii_of_string "id", ?v))
    with (store_string v (fun s => mkConfig s (Name c0) (Description c0) (CreatedAt c0)
                                     (FilePath c0)) c0).
  rewrite store_string_value.
  change (store_member ?c0 (list_ascii_of_string "name", ?v))
    with (store_string v (fun s => mkConfig (ID c0) s (Description c0) (CreatedAt c0)
                                     (FilePath c0)) c0).
  rewrite store_string_value.
  change (store_member ?c0 (list_ascii_of_string "description", ?v))
    with (store_string v (fun s => mkConfig (ID c0) (Name c0) s (CreatedAt c0)
                                     (FilePath c0)) c0).
  rewrite store_string_value.
  change (store_member ?c0 (list_ascii_of_string "created_at", JString ?raw ?s))
    with (match UnmarshalJSON_string raw with
          | Some t' => Some (mkConfig (ID c0) (Name c0) (Description c0) t' (FilePath c0))
          | None => None
          end).
  unfold UnmarshalJSON_string. rewrite parseRFC3339_format by done.
  change (store_member ?c0 (list_ascii_of_string "file_path", ?v))
    with (store_string v (fun s => mkConfig (ID c0) (Name c0) (Description c0) (CreatedAt c0)
                                     s) c0).
  rewrite store_string_value. reflexivity.
Qed.

Lemma unmarshal_elements_values l body :
  Forall text_ok l -> marshal_elements l = Ok body ->
  unmarshal_elements (map config_value l) = Some l.
Proof.
  revert body. induction l as [|c l IH]; intros body Hok Hbody; [done|].
  inversion Hok as [|? ? Hc Hl]; subst.
  cbn [marshal_elements] in Hbody.
  destruct (marshal_config c) as [e|] eqn:He; [|discriminate].
  apply marshal_config_Ok in He as (created & Hcreated & _).
  destruct (marshal_elements l) as [es|] eqn:Hes; [|discriminate].
  cbn [map unmarshal_elements].
  rewrite (unmarshal_config_value c created), (IH es) by (done || apply Hc).
  reflexivity.
Qed.

(** Writing a collection as the metadata document and decoding the
    document gives the collection. *)
Lemma Unmarshal_MarshalIndent cs data :
  Forall text_ok (default [] cs) -> MarshalIndent cs = Ok data ->
  Unmarshal data = Ok cs.
Proof.
  intros Hok Hdata. unfold Unmarshal. rewrite (parse_MarshalIndent cs data) by done.
  destruct cs as [l|]; [|done]. simpl in Hok.
  destruct l as [|c l]; [done|].
  unfold MarshalIndent in Hdata.
  destruct (marshal_elements (c :: l)) as [body|] eqn:Hbody; [|discriminate].
  by rewrite (unmarshal_elements_values (c :: l) body).
Qed.

End CodecFacts.

(** ** Persisting the collection and loading it again *)

Module PersistFacts.

Import OS OSFacts Rfc3339 Config CodecFacts.

(** C9, as the claim states it, fails for a record whose name is not
    UTF-8: [encoding/json] writes the byte 255 as the escape of U+FFFD, and
    the reloaded record has the three bytes of U+FFFD as its name.  The
    record is added through [AddConfig], which saves the collection, and
    the collection is reloaded through [NewManager]. *)
Lemma saveConfigs_reload_counterexample :
  let name := String "255" EmptyString in
  let '(r1, m1, w1) :=
    AddConfig Examples.temp name EmptyString Examples.empty_manager Examples.plain_world in
  let '(r2, w2) := NewManager w1 in
  exists c m2,
    r1 = Ok c /\ Name c = name /\ elems m1 = [c]
    /\ r2 = Ok m2
    /\ elems m2 = [mkConfig (ID c) (String "239" (String "191" (String "189" EmptyString)))
                            (Description c) (CreatedAt c) (FilePath c)]
    /\ configs m2 <> configs m1.
Proof. vm_compute. do 2 eexists. repeat split. discriminate. Qed.

(** C9 (amended): for every collection of records whose strings are
    UTF-8 (and whose time stamps are dates and times of day, as every
    [time.Time] is), persisting the metadata document and then loading it
    into a fresh manager, as [NewManager] does on process restart,
    reproduces the collection: the same records, in the same order, with
    identity, name, description, creation time stamp and stored-file path
    preserved. *)
Theorem saveConfigs_loadConfigs (m : Manager) (w w1 : World) :
  Forall text_ok (elems m) ->
  saveConfigs m w = (Ok tt, w1) ->
  faults w1 (clock w1) = NoFault ->
  loadConfigs (mkManager (configDir m) None) w1 = (Ok tt, m, tick w1).
Proof.
  intros Hok Hsave Hfault. unfold saveConfigs in Hsave.
  destruct (MarshalIndent (configs m)) as [data|] eqn:Hdata; [|discriminate].
  destruct (WriteFile _ _ w) as [[[]|we] w'] eqn:Hw; [|discriminate].
  injection Hsave as ->.
  apply WriteFile_Ok in Hw as (Hfiles & Hacc & (_ & Hna & _)).
  unfold loadConfigs, ReadFile.
  change (metadataPath (mkManager (configDir m) None)) with (metadataPath m).
  rewrite Hna, Hacc, Hfiles, lookup_insert_eq, Hfault.
  rewrite list_ascii_of_string_of_list_ascii.
  rewrite (Unmarshal_MarshalIndent (configs m) data) by done.
  by destruct m.
Qed.

Lemma saveConfigs_loadConfigs_witness :
  let w := Examples.world ∅ Examples.no_fault in
  let w1 := snd (saveConfigs Examples.one_manager w) in
  loadConfigs (mkManager (configDir Examples.one_manager) None) w1
  = (Ok tt, Examples.one_manager, tick w1).
Proof.
  intros w w1. apply (saveConfigs_loadConfigs Examples.one_manager w w1).
  - repeat constructor; try reflexivity; simpl; lia.
  - vm_compute. reflexivity.
  - reflexivity.
Defined.

(** The document of the sample collection and the manager that
    [NewManager] builds from it. *)
Lemma NewManager_example :
  let w1 := snd (saveConfigs Examples.one_manager (Examples.world ∅ Examples.no_fault)) in
  fst (NewManager w1) = Ok Examples.one_manager.
Proof. vm_compute. reflexivity. Qed.

End PersistFacts.

(** ** The storage primitives, continued *)

Module StorageProperties.

Import OS OSFacts Storage StorageFacts.

Lemma tmp_ne (filePath : string) : filePath +:+ ".tmp" <> filePath.
Proof. by apply append_nonempty_ne. Qed.

Lemma EnsureDir_files dir w r w' :
  EnsureDir dir w = (r, w') -> files w' = files w /\ same_env w w'.
Proof.
  unfold EnsureDir. destruct (MkdirAll dir w) as [[[]|me] w1] eqn:E;
    apply MkdirAll_files in E; by intros [= _ <-].
Qed.

Lemma AtomicWrite_other filePath data w r w' q :
  AtomicWrite filePath data w = (r, w') ->
  q <> filePath -> q <> filePath +:+ ".tmp" -> files w' !! q = files w !! q.
Proof.
  intros H Hq Hqt. unfold AtomicWrite in H.
  destruct (EnsureDir _ w) as [[[]|me] w1] eqn:E1;
    apply EnsureDir_files in E1 as [E1 _].
  2: { injection H as _ <-. by rewrite E1. }
  destruct (WriteFile _ data w1) as [[[]|we] w2] eqn:E2;
    apply WriteFile_other with (q := q) in E2; try done.
  2: { injection H as _ <-. by rewrite E2, E1. }
  destruct (Rename _ _ w2) as [[[]|re] w3] eqn:E3.
  - injection H as _ <-. apply Rename_Ok in E3 as (d & _ & ->).
    rewrite lookup_insert_ne, lookup_delete_ne by done. by rewrite E2, E1.
  - apply Rename_Err in E3. destruct (Remove _ w3) as [rr w4] eqn:E4.
    injection H as _ <-. apply Remove_other with (q := q) in E4; [|done].
    by rewrite E4, E3, E2, E1.
Qed.

Lemma AtomicWrite_Ok_temp filePath data w w' :
  AtomicWrite filePath data w = (Ok tt, w') -> files w' !! (filePath +:+ ".tmp") = None.
Proof.
  unfold AtomicWrite.
  destruct (EnsureDir _ w) as [[[]|me] w1] eqn:E1; [|discriminate].
  destruct (WriteFile _ data w1) as [[[]|we] w2] eqn:E2; [|discriminate].
  destruct (Rename _ _ w2) as [[[]|re] w3] eqn:E3.
  2: { destruct (Remove _ w3). discriminate. }
  intros [= <-]. apply Rename_Ok in E3 as (d & _ & ->).
  rewrite lookup_insert_ne by (pose proof (tmp_ne filePath); congruence).
  by rewrite lookup_delete_eq.
Qed.

(** X1. [AtomicWrite] shows the new content at the path in one step.
    Whatever the outcome, the path holds either the file of before the call
    (when the call fails) or the whole new content (when it succeeds, and
    then the temporary file is gone); no file other than the path and its
    temporary sibling is touched. *)
Theorem AtomicWrite_all_or_nothing (filePath data : string) (w : World) :
  let '(r, w') := AtomicWrite filePath data w in
  match r with
  | Ok _ => files w' !! filePath = Some data /\ files w' !! (filePath +:+ ".tmp") = None
  | Err _ => files w' !! filePath = files w !! filePath
  end
  /\ forall q, q <> filePath -> q <> filePath +:+ ".tmp" -> files w' !! q = files w !! q.
Proof.
  destruct (AtomicWrite filePath data w) as [r w'] eqn:E. split.
  - destruct r as [[]|e].
    + split; [by eapply AtomicWrite_Ok|by eapply AtomicWrite_Ok_temp].
    + by eapply AtomicWrite_Err.
  - intros q Hq Hqt. by eapply AtomicWrite_other.
Qed.

(** X2. The temporary file is removed only when the rename fails.  When
    the write of the temporary file itself fails after [n] bytes,
    [AtomicWrite] returns the error at once: the path is untouched, and the
    temporary file is left behind with the first [n] bytes of the
    content. *)
Theorem AtomicWrite_partial_write_leaves_temp
    (filePath data : string) (w : World) (n : nat) :
  noaccess w (Dir filePath) = false -> files w !! Dir filePath = None ->
  noaccess w (filePath +:+ ".tmp") = false ->
  faults w (clock w) = NoFault -> faults w (S (clock w)) = FailPartial n ->
  let '(r, w') := AtomicWrite filePath data w in
  r = Err (Wrap "failed to write temporary file"
             (PathError "write" (filePath +:+ ".tmp") ENOSPC))
  /\ files w' !! filePath = files w !! filePath
  /\ files w' !! (filePath +:+ ".tmp") = Some (prefix n data).
Proof.
  intros Hd Hdf Ht Hf0 Hf1.
  unfold AtomicWrite, EnsureDir, MkdirAll. rewrite Hd, Hdf, Hf0.
  unfold WriteFile. simpl. rewrite Ht, Hf1. simpl. split; [done|]. split.
  - rewrite lookup_insert_ne; [done|]. apply tmp_ne.
  - by rewrite lookup_insert_eq.
Qed.

Lemma AtomicWrite_partial_write_leaves_temp_witness :
  let w := Examples.world {[ "/d/settings.json" := "{}" ]}
                          (Examples.fault_at 1 (FailPartial 2)) in
  let '(r, w') := AtomicWrite "/d/settings.json" Examples.object_a w in
  r = Err (Wrap "failed to write temporary file"
             (PathError "write" ("/d/settings.json" +:+ ".tmp") ENOSPC))
  /\ files w' !! "/d/settings.json" = files w !! "/d/settings.json"
  /\ files w' !! ("/d/settings.json" +:+ ".tmp") = Some (prefix 2 Examples.object_a).
Proof.
  intros w.
  apply (AtomicWrite_partial_write_leaves_temp "/d/settings.json" Examples.object_a w 2);
    reflexivity.
Defined.

Lemma SafeCopy_Ok src dst w w' :
  SafeCopy src dst w = (Ok tt, w') ->
  exists data, files w !! src = Some data /\ files w' !! dst = Some data.
Proof.
  unfold SafeCopy. destruct (negb _); [discriminate|].
  destruct (ReadFile src w) as [[data|re] w1] eqn:E1; [|discriminate].
  apply ReadFile_Ok in E1 as (Hd & _ & ->).
  destruct (AtomicWrite dst data (tick w)) as [[[]|ae] w2] eqn:E2; [|discriminate].
  intros [= <-]. exists data. split; [done|]. by eapply AtomicWrite_Ok.
Qed.

Lemma SafeCopy_other src dst w r w' q :
  SafeCopy src dst w = (r, w') ->
  q <> dst -> q <> dst +:+ ".tmp" -> files w' !! q = files w !! q.
Proof.
  intros E Hq Hqt. unfold SafeCopy in E. destruct (negb _).
  { by injection E as _ <-. }
  destruct (ReadFile src w) as [[data|re] w1] eqn:E1;
    apply ReadFile_files in E1 as [E1 _].
  2: { injection E as _ <-. by rewrite E1. }
  destruct (AtomicWrite dst data w1) as [ra w2] eqn:E2.
  apply AtomicWrite_other with (q := q) in E2; [|done..].
  destruct ra as [[]|ae]; injection E as _ <-; by rewrite E2, E1.
Qed.

(** X3. [SafeCopy] copies the whole source or leaves the destination
    alone: after a success the destination holds the content that the
    source had before the call, and after a failure the destination is the
    file of before the call. *)
Theorem SafeCopy_copies_or_keeps (src dst : string) (w : World) :
  let '(r, w') := SafeCopy src dst w in
  match r with
  | Ok _ => exists data, files w !! src = Some data /\ files w' !! dst = Some data
  | Err _ => files w' !! dst = files w !! dst
  end
  /\ forall q, q <> dst -> q <> dst +:+ ".tmp" -> files w' !! q = files w !! q.
Proof.
  destruct (SafeCopy src dst w) as [r w'] eqn:E. split.
  - destruct r as [[]|e]; [by eapply SafeCopy_Ok|by eapply SafeCopy_Err].
  - intros q Hq Hqt. by eapply SafeCopy_other.
Qed.

(** X4. [SafeCopy] reports a missing source exactly when [os.Stat] says
    that the source does not exist, and then nothing has been read or
    written: the world is the one of before the call. *)
Theorem SafeCopy_source_not_found (src dst : string) (w : World) :
  (fst (SafeCopy src dst w) = Err (SourceNotFound src)
   <-> Stat src w = Err (PathError "stat" src ENOENT))
  /\ (fst (SafeCopy src dst w) = Err (SourceNotFound src) -> snd (SafeCopy src dst w) = w).
Proof.
  unfold SafeCopy, FileExists, Stat, ReadFile.
  destruct (noaccess w src); simpl.
  - split; [split|]; discriminate.
  - destruct (files w !! src) as [data|]; simpl; [|done].
    destruct (faults w (clock w)); simpl;
      try (split; [split|]; discriminate).
    destruct (AtomicWrite dst data (tick w)) as [[[]|ae] w2]; simpl;
      split; try split; discriminate.
Qed.

(** X5. The syntax check that the add command makes on the edited file
    ([storage.IsValidJSON]) accepts every file that the validator accepts:
    a file on which [ValidateJSONFile] or [ValidateClaudeSettingsFile]
    succeeds passes [IsValidJSON] too. *)
Theorem IsValidJSON_accepts_validated (filePath : string) (w : World) :
  fst (Validation.ValidateJSONFile filePath w) = Ok tt
  \/ fst (Validation.ValidateClaudeSettingsFile filePath w) = Ok tt ->
  IsValidJSON filePath w = (Ok tt, tick w).
Proof.
  unfold Validation.ValidateJSONFile, Validation.ValidateClaudeSettingsFile, IsValidJSON,
    Validation.ValidateClaudeSettings, Validation.ValidateJSON.
  destruct (ReadFile filePath w) as [[data|re] w1] eqn:E1.
  2: { simpl. by intros [|]. }
  apply ReadFile_Ok in E1 as (_ & _ & ->). simpl.
  unfold Json.Unmarshal_raw, Json.Unmarshal_any.
  destruct (Json.parse _); [done|]. by intros [|].
Qed.

Lemma IsValidJSON_accepts_validated_witness :
  IsValidJSON Examples.temp Examples.plain_world = (Ok tt, tick Examples.plain_world).
Proof.
  apply (IsValidJSON_accepts_validated Examples.temp Examples.plain_world).
  left. reflexivity.
Defined.

(** The converse fails: a number that does not fit a [float64] passes the
    syntax check and is refused by the validator. *)
Lemma IsValidJSON_float_range_example :
  let w := Examples.world {[ Examples.temp := "[1e999]" ]} Examples.no_fault in
  fst (IsValidJSON Examples.temp w) = Ok tt
  /\ fst (Validation.ValidateJSONFile Examples.temp w)
     = Err (Wrap "invalid JSON format" JsonUnmarshalError).
Proof. vm_compute. by split. Qed.

End StorageProperties.

(** ** Adding a record, continued *)

Module AddProperties.

Import OS OSFacts Validation Config LookupFacts AddFacts StorageFacts ApplyFacts RemoveFacts.

Lemma append_cancel (s a b : string) : s +:+ a = s +:+ b -> a = b.
Proof. induction s as [|c s IH]; simpl; [done|]. intros [= H]. by apply IH. Qed.

(** The stored file of a record is never the metadata document. *)
Lemma stored_path_ne_metadata (d id : string) :
  Join [d; "configs"; id +:+ ".json"] <> Join [d; "config.json"].
Proof. simpl. intros H. apply append_cancel in H. discriminate H. Qed.

Lemma saveConfigs_Ok m w w' :
  saveConfigs m w = (Ok tt, w') ->
  exists doc, MarshalIndent (configs m) = Ok doc
              /\ files w' = <[metadataPath m := string_of_list_ascii doc]> (files w)
              /\ noaccess w (metadataPath m) = false /\ same_env w w'.
Proof.
  unfold saveConfigs. destruct (MarshalIndent (configs m)) as [doc|]; [|discriminate].
  destruct (WriteFile _ _ w) as [[[]|we] w1] eqn:E; [|discriminate].
  intros [= <-]. apply WriteFile_Ok in E as (? & ? & ?). by exists doc.
Qed.

Lemma name_exists_false cs name :
  name_exists cs name = false <-> Forall (fun x => Name x <> name) cs.
Proof.
  rewrite Forall_forall. split.
  - intros H x Hx E. assert (name_exists cs name = true); [|congruence].
    apply name_exists_true. exists x. split; [|done]. by apply list_elem_of_In.
  - intros H. destruct (name_exists cs name) eqn:E; [|done].
    apply name_exists_true in E as (x & Hx & E). exfalso.
    apply (H x); [|done]. by apply list_elem_of_In.
Qed.

(** What a successful [AddConfig] has done, step by step. *)
Lemma AddConfig_Ok_steps tempFile name description m w c m' w' :
  AddConfig tempFile name description m w = (Ok c, m', w') ->
  name <> EmptyString /\ name_exists (elems m) name = false
  /\ c = mkConfig (uuids w (S (clock w))) name description (times w (S (S (clock w))))
                  (Join [configDir m; "configs"; uuids w (S (clock w)) +:+ ".json"])
  /\ m' = mkManager (configDir m) (Some (elems m ++ [c]))
  /\ exists content w4,
       files w !! tempFile = Some content /\ ValidateClaudeSettings content = Ok tt
       /\ files w4 = <[FilePath c := content]> (files w)
       /\ noaccess w (FilePath c) = false /\ same_env w w4
       /\ saveConfigs m' w4 = (Ok tt, w').
Proof.
  unfold AddConfig. destruct (String.eqb name EmptyString) eqn:En; [discriminate|].
  destruct (ValidateClaudeSettingsFile tempFile w) as [[[]|ve] w1] eqn:Ev; [|discriminate].
  destruct (name_exists (elems m) name) eqn:Ex; [discriminate|].
  apply ValidateClaudeSettingsFile_Ok in Ev as (content & Hc & Hv & _ & ->).
  simpl. destruct (copyFile _ _ _) as [[[]|ce] w4] eqn:Ec; [|discriminate].
  destruct (saveConfigs _ w4) as [[[]|se] w5] eqn:Es; [|destruct (Remove _ w5); discriminate].
  intros [= <- <- <-]. apply eqb_string_false in En.
  apply copyFile_Ok in Ec as (content' & Hc' & Hf & Hacc & Henv). simpl in Hc', Hf, Hacc.
  assert (content' = content) as -> by congruence.
  repeat split; try done. exists content, w4. repeat split; try done; apply Henv.
Qed.

(** X6. A successful [AddConfig] returns a record with the given name
    and description, whose stored file lies in the [configs] directory under
    the record's identity; the record is appended after the existing ones,
    none of which has its name; the stored file holds the bytes of the
    source file, which the validator accepted; the metadata document holds
    the new collection; and no other file is touched. *)
Theorem AddConfig_success
    (tempFile name description : string) (m m' : Manager) (w w' : World) (c : Config) :
  AddConfig tempFile name description m w = (Ok c, m', w') ->
  Name c = name /\ Description c = description /\ name <> EmptyString
  /\ FilePath c = Join [configDir m; "configs"; ID c +:+ ".json"]
  /\ configDir m' = configDir m /\ configs m' = Some (elems m ++ [c])
  /\ Forall (fun x => Name x <> name) (elems m)
  /\ (exists content,
        files w !! tempFile = Some content /\ ValidateClaudeSettings content = Ok tt
        /\ files w' !! FilePath c = Some content)
  /\ (exists doc,
        MarshalIndent (configs m') = Ok doc
        /\ files w' !! metadataPath m = Some (string_of_list_ascii doc))
  /\ (forall q, q <> FilePath c -> q <> metadataPath m -> files w' !! q = files w !! q).
Proof.
  intros H. apply AddConfig_Ok_steps in H
    as (Hne & Hex & Hc & Hm & content & w4 & Ht & Hv & Hf4 & _ & _ & Hs).
  apply saveConfigs_Ok in Hs as (doc & Hdoc & Hf & _ & _).
  assert (metadataPath m' = metadataPath m) as Hmp by (by rewrite Hm).
  rewrite Hmp in Hf.
  assert (FilePath c <> metadataPath m) as Hp
      by (rewrite Hc; apply stored_path_ne_metadata).
  split; [by rewrite Hc|]. split; [by rewrite Hc|]. split; [done|].
  split; [by rewrite Hc|]. split; [by rewrite Hm|]. split; [by rewrite Hm|].
  split; [by apply name_exists_false|]. split; [|split].
  - exists content. split; [done|]. split; [done|].
    by rewrite Hf, lookup_insert_ne, Hf4, lookup_insert_eq.
  - exists doc. split; [done|]. by rewrite Hf, lookup_insert_eq.
  - intros q Hq Hqm. by rewrite Hf, lookup_insert_ne, Hf4, lookup_insert_ne.
Qed.

Lemma AddConfig_success_witness :
  let r := AddConfig Examples.temp "base" "first" Examples.one_manager Examples.plain_world in
  let c := mkConfig "u1" "base" "first" Examples.stamp
                    "/home/u/.claude-switch/configs/u1.json" in
  let m := Examples.one_manager in
  let m' := snd (fst r) in
  let w := Examples.plain_world in
  let w' := snd r in
  Name c = "base" /\ Description c = "first" /\ "base" <> EmptyString
  /\ FilePath c = Join [configDir m; "configs"; ID c +:+ ".json"]
  /\ configDir m' = configDir m /\ configs m' = Some (elems m ++ [c])
  /\ Forall (fun x => Name x <> "base") (elems m)
  /\ (exists content,
        files w !! Examples.temp = Some content /\ ValidateClaudeSettings content = Ok tt
        /\ files w' !! FilePath c = Some content)
  /\ (exists doc,
        MarshalIndent (configs m') = Ok doc
        /\ files w' !! metadataPath m = Some (string_of_list_ascii doc))
  /\ (forall q, q <> FilePath c -> q <> metadataPath m -> files w' !! q = files w !! q).
Proof.
  intros r c m m' w w'.
  apply (AddConfig_success Examples.temp "base" "first" m m' w w' c).
  vm_compute. reflexivity.
Defined.

(** X7. After a successful [AddConfig], [GetConfig] finds the new record
    by its name, unless an existing record has that name as its identity,
    and by its identity, unless an existing record answers to that
    identity; and every identifier that resolved before the call still
    resolves to the same record. *)
Theorem AddConfig_then_GetConfig
    (tempFile name description : string) (m m' : Manager) (w w' : World) (c : Config) :
  AddConfig tempFile name description m w = (Ok c, m', w') ->
  (Forall (fun x => ID x <> name) (elems m) -> GetConfig m' name = Ok c)
  /\ (Forall (fun x => ~ answers x (ID c)) (elems m) -> GetConfig m' (ID c) = Ok c)
  /\ (forall identifier x, GetConfig m identifier = Ok x -> GetConfig m' identifier = Ok x).
Proof.
  intros H. apply AddConfig_Ok_steps in H as (_ & Hex & Hc & -> & _).
  apply name_exists_false in Hex. unfold GetConfig.
  change (elems (mkManager (configDir m) (Some (elems m ++ [c])))) with (elems m ++ [c]).
  split; [|split].
  - intros Hid. apply lookup_config_Ok. exists (elems m), []. split; [done|].
    split; [right; by rewrite Hc|].
    rewrite Forall_forall in *. intros x Hx [E|E]; [by apply (Hid x)|by apply (Hex x)].
  - intros Hno. apply lookup_config_Ok. exists (elems m), []. split; [done|].
    split; [by left|done].
  - intros identifier x Hx. apply lookup_config_Ok in Hx as (l1 & l2 & -> & Ha & Hl1).
    apply lookup_config_Ok. exists l1, (l2 ++ [c]). by rewrite <- app_assoc.
Qed.

Lemma AddConfig_then_GetConfig_witness :
  let r := AddConfig Examples.temp "base" "first" Examples.one_manager Examples.plain_world in
  let c := mkConfig "u1" "base" "first" Examples.stamp
                    "/home/u/.claude-switch/configs/u1.json" in
  let m := Examples.one_manager in
  let m' := snd (fst r) in
  (Forall (fun x => ID x <> "base") (elems m) -> GetConfig m' "base" = Ok c)
  /\ (Forall (fun x => ~ answers x (ID c)) (elems m) -> GetConfig m' (ID c) = Ok c)
  /\ (forall identifier x, GetConfig m identifier = Ok x -> GetConfig m' identifier = Ok x).
Proof.
  intros r c m m'.
  apply (AddConfig_then_GetConfig Examples.temp "base" "first" m m'
           Examples.plain_world (snd r) c).
  vm_compute. reflexivity.
Defined.

(** X8. [AddConfig] keeps the names of the collection distinct: whatever
    the outcome of the call, if no two records had the same name before it,
    no two records of the manager it leaves behind have. *)
Theorem AddConfig_keeps_names_distinct
    (tempFile name description : string) (m : Manager) (w : World) :
  NoDup (map Name (elems m)) ->
  NoDup (map Name (elems (snd (fst (AddConfig tempFile name description m w))))).
Proof.
  intros Hnd. unfold AddConfig. destruct (String.eqb name EmptyString); [done|].
  destruct (ValidateClaudeSettingsFile tempFile w) as [[[]|ve] w1]; [|done].
  destruct (name_exists (elems m) name) eqn:Ex; [done|].
  apply name_exists_false in Ex.
  simpl. destruct (copyFile _ _ _) as [[[]|ce] w4]; [|done].
  assert (forall cfg, Name cfg = name ->
            NoDup (map Name (elems (mkManager (configDir m) (Some (elems m ++ [cfg])))))) as Hn.
  { intros cfg Hcfg.
    change (elems (mkManager (configDir m) (Some (elems m ++ [cfg])))) with (elems m ++ [cfg]).
    rewrite map_app. apply NoDup_app. split; [done|]. split.
    - intros x Hx ->%list_elem_of_singleton.
      apply list_elem_of_In, in_map_iff in Hx as (y & Hy & Hin).
      rewrite Forall_forall in Ex. apply (Ex y); [by apply list_elem_of_In|congruence].
    - apply NoDup_singleton. }
  destruct (saveConfigs _ w4) as [[[]|se] w5]; [by apply Hn|].
  destruct (Remove _ w5). by apply Hn.
Qed.

Lemma AddConfig_keeps_names_distinct_witness :
  NoDup (map Name (elems (snd (fst (AddConfig Examples.temp "base" EmptyString
                                      Examples.one_manager Examples.plain_world))))).
Proof.
  apply (AddConfig_keeps_names_distinct Examples.temp "base" EmptyString
           Examples.one_manager Examples.plain_world).
  simpl. apply NoDup_singleton.
Defined.

(** X9. A failed [AddConfig] touches no file other than the metadata
    document and stored files of the [configs] directory; unless the error
    is that of the failed save, the manager is the one of before the call;
    and when the call is refused for an empty name, a content that does not
    pass the validator or a name in use, no file is changed at all. *)
Theorem AddConfig_failure
    (tempFile name description : string) (m : Manager) (w : World) :
  let '(r, m', w') := AddConfig tempFile name description m w in
  forall e, r = Err e ->
    (forall q, q <> metadataPath m ->
       (forall id, q <> Join [configDir m; "configs"; id +:+ ".json"]) ->
       files w' !! q = files w !! q)
    /\ ((forall inner, e <> Wrap "failed to save config metadata" inner) -> m' = m)
    /\ (e = EmptyName \/ e = DuplicateName name
        \/ (exists inner, e = Wrap "invalid configuration file" inner) ->
        files w' = files w).
Proof.
  unfold AddConfig. destruct (String.eqb name EmptyString).
  { intros e _. by repeat split. }
  destruct (ValidateClaudeSettingsFile tempFile w) as [[[]|ve] w1] eqn:Ev;
    apply ValidateClaudeSettingsFile_files in Ev as [Ev _].
  2: { intros e _. repeat split; try done. intros; by rewrite Ev. }
  destruct (name_exists (elems m) name).
  { intros e _. repeat split; try done. intros; by rewrite Ev. }
  simpl. destruct (copyFile _ _ _) as [[[]|ce] w4] eqn:Ec.
  2: { intros e [= <-]. split; [|split]; [|done|].
       - intros q _ Hq. rewrite <- Ev. unfold copyFile in Ec.
         destruct (ReadFile tempFile _) as [[data|re] w2] eqn:Er;
           apply ReadFile_files in Er as [Er _]; simpl in Er.
         + destruct (WriteFile _ data w2) as [[[]|we] w3] eqn:Ew; [discriminate|].
           injection Ec as _ <-. rewrite <- Er. eapply WriteFile_other; [exact Ew|apply Hq].
         + injection Ec as _ <-. by rewrite Er.
       - intros [E|[E|[inner E]]]; discriminate E. }
  apply copyFile_Ok in Ec as (content & _ & Hf4 & _ & _). simpl in Hf4.
  destruct (saveConfigs _ w4) as [[[]|se] w5] eqn:Es; [discriminate|].
  destruct (Remove _ w5) as [rr w6] eqn:Er. intros e [= <-]. split; [|split].
  - intros q Hqm Hq. erewrite Remove_other; [|exact Er|apply Hq].
    erewrite saveConfigs_other; [|exact Es|exact Hqm].
    rewrite Hf4, lookup_insert_ne by (apply not_eq_sym, Hq). by rewrite Ev.
  - intros Hno. exfalso. by apply (Hno (se)).
  - intros [E|[E|[inner E]]]; discriminate E.
Qed.

End AddProperties.

(** ** Removing a record, continued *)

Module RemoveProperties.

Import OS OSFacts Validation Config LookupFacts AddFacts StorageFacts ApplyFacts RemoveFacts.
Import AddProperties.

(** The loop takes out the first record that has the identity, and
    there is one when a record of the collection has it. *)
Lemma remove_by_id_first cs c :
  In c cs ->
  exists l1 x l2, cs = l1 ++ x :: l2 /\ ID x = ID c
                  /\ Forall (fun y => ID y <> ID c) l1
                  /\ remove_by_id cs (ID c) = l1 ++ l2.
Proof.
  induction cs as [|y cs IH]; [done|]. intros Hin. simpl.
  destruct (String.eqb (ID y) (ID c)) eqn:E.
  - apply eqb_string_true in E. by exists [], y, cs.
  - apply eqb_string_false in E. destruct Hin as [->|Hin]; [done|].
    destruct (IH Hin) as (l1 & x & l2 & -> & Hx & Hl1 & ->).
    exists (y :: l1), x, l2. repeat split; try done. by constructor.
Qed.

Lemma Remove_noop path w e w' :
  Remove path w = (Err e, w') -> IsNotExist e = false -> files w' = files w.
Proof. unfold Remove. intros H Hn. case_world; try done. Qed.

(** X10. A successful [RemoveConfig] takes exactly one record out of the
    collection, the first one that has the identity of the record found,
    and keeps the other records in their order; the metadata document then
    holds the new collection; and no file other than the record's stored
    file and the metadata document is touched. *)
Theorem RemoveConfig_success_frame
    (identifier : string) (m m' : Manager) (w w' : World) (c : Config) :
  GetConfig m identifier = Ok c ->
  RemoveConfig identifier m w = (Ok tt, m', w') ->
  (exists l1 x l2,
     elems m = l1 ++ x :: l2 /\ ID x = ID c /\ Forall (fun y => ID y <> ID c) l1
     /\ configs m' = Some (l1 ++ l2))
  /\ configDir m' = configDir m
  /\ (exists doc,
        MarshalIndent (configs m') = Ok doc
        /\ files w' !! metadataPath m = Some (string_of_list_ascii doc))
  /\ (forall q, q <> FilePath c -> q <> metadataPath m -> files w' !! q = files w !! q).
Proof.
  intros Hget. unfold RemoveConfig. rewrite Hget.
  destruct (Remove (FilePath c) w) as [removed w1] eqn:Er.
  destruct (match removed with Ok _ => None | Err e => _ end) as [e|]; [discriminate|].
  destruct (saveConfigs _ w1) as [[[]|se] w2] eqn:Es; [|discriminate].
  intros [= <- <-]. apply lookup_config_In in Hget as [Hin _].
  destruct (remove_by_id_first _ _ Hin) as (l1 & x & l2 & Hl & Hx & Hl1 & Hr).
  split; [|split; [done|split]].
  - exists l1, x, l2. repeat split; try done. simpl. by rewrite Hr.
  - apply saveConfigs_Ok in Es as (doc & Hdoc & Hf & _ & _).
    exists doc. split; [done|]. rewrite Hf. apply lookup_insert_eq.
  - intros q Hq Hqm. erewrite saveConfigs_other; [|exact Es|exact Hqm].
    eapply Remove_other; [exact Er|exact Hq].
Qed.

Lemma RemoveConfig_success_frame_witness :
  let w := Examples.world {[ FilePath Examples.work := "{}"; Examples.temp := "{}" ]}
                          Examples.no_fault in
  let m := Examples.one_manager in
  let c := Examples.work in
  let m' := snd (fst (RemoveConfig "work" m w)) in
  let w' := snd (RemoveConfig "work" m w) in
  (exists l1 x l2,
     elems m = l1 ++ x :: l2 /\ ID x = ID c /\ Forall (fun y => ID y <> ID c) l1
     /\ configs m' = Some (l1 ++ l2))
  /\ configDir m' = configDir m
  /\ (exists doc,
        MarshalIndent (configs m') = Ok doc
        /\ files w' !! metadataPath m = Some (string_of_list_ascii doc))
  /\ (forall q, q <> FilePath c -> q <> metadataPath m -> files w' !! q = files w !! q).
Proof.
  intros w m c m' w'. apply (RemoveConfig_success_frame "work" m m' w w' c).
  - reflexivity.
  - vm_compute. reflexivity.
Defined.

(** X11. The window between the two steps of [RemoveConfig]: when the
    stored file has been deleted and the save of the metadata fails, the
    error is returned, the stored file is gone, and the manager in memory
    has already lost the record. *)
Theorem RemoveConfig_save_failure
    (identifier : string) (m m' : Manager) (w w' : World) (c : Config) (e : error) :
  GetConfig m identifier = Ok c ->
  RemoveConfig identifier m w = (Err (Wrap "failed to update config metadata" e), m', w') ->
  configs m' = Some (remove_by_id (elems m) (ID c))
  /\ length (elems m) = S (length (elems m'))
  /\ (FilePath c <> metadataPath m -> files w' !! FilePath c = None).
Proof.
  intros Hget. unfold RemoveConfig. rewrite Hget.
  destruct (Remove (FilePath c) w) as [removed w1] eqn:Er.
  assert (match removed with
          | Err e => if negb (IsNotExist e) then Some e else None
          | Ok _ => None
          end = None -> files w1 = delete (FilePath c) (files w)) as Hgone.
  { intros Hn. eapply Remove_gone; [exact Er|].
    destruct removed as [|e0]; [done|]. by destruct (IsNotExist e0). }
  destruct (match removed with Ok _ => None | Err e => _ end) as [e0|]; [discriminate|].
  specialize (Hgone eq_refl).
  destruct (saveConfigs _ w1) as [[[]|se] w2] eqn:Es; [discriminate|].
  intros [= <- <- <-]. split; [done|]. split.
  - apply lookup_config_In in Hget as [Hin _].
    destruct (remove_by_id_first _ _ Hin) as (l1 & x & l2 & Hl & _ & _ & Hr).
    change (elems (mkManager (configDir m) (Some (remove_by_id (elems m) (ID c)))))
      with (remove_by_id (elems m) (ID c)).
    rewrite Hr, Hl, !length_app. simpl. lia.
  - intros Hp. erewrite saveConfigs_other; [|exact Es|exact Hp].
    by rewrite Hgone, lookup_delete_eq.
Qed.

Lemma RemoveConfig_save_failure_witness :
  let w := Examples.world {[ FilePath Examples.work := "{}" ]}
                          (Examples.fault_at 1 FailClean) in
  let m := Examples.one_manager in
  let c := Examples.work in
  let m' := snd (fst (RemoveConfig "work" m w)) in
  let w' := snd (RemoveConfig "work" m w) in
  configs m' = Some (remove_by_id (elems m) (ID c))
  /\ length (elems m) = S (length (elems m'))
  /\ (FilePath c <> metadataPath m -> files w' !! FilePath c = None).
Proof.
  intros w m c m' w'.
  apply (RemoveConfig_save_failure "work" m m' w w' c
           (Wrap "failed to write config metadata"
              (PathError "open" "/home/u/.claude-switch/config.json" EIO))).
  - reflexivity.
  - vm_compute. reflexivity.
Defined.

(** X12. Apart from that window, a failed [RemoveConfig] changes
    nothing: when the identifier resolves to no record, or the stored file
    cannot be deleted for another reason than its absence, the manager and
    the files are those of before the call. *)
Theorem RemoveConfig_failure (identifier : string) (m : Manager) (w : World) :
  let '(r, m', w') := RemoveConfig identifier m w in
  forall e, r = Err e ->
    (forall inner, e <> Wrap "failed to update config metadata" inner) ->
    m' = m /\ files w' = files w
    /\ (e = NotFound identifier
        \/ exists inner, e = Wrap "failed to remove config file" inner
                         /\ IsNotExist inner = false).
Proof.
  unfold RemoveConfig. destruct (GetConfig m identifier) as [c|ge] eqn:Hget.
  { destruct (Remove (FilePath c) w) as [removed w1] eqn:Er.
    destruct removed as [[]|re]; simpl.
    - destruct (saveConfigs _ w1) as [[[]|se] w2]; [discriminate|].
      intros e [= <-] Hno. exfalso. by apply (Hno se).
    - destruct (IsNotExist re) eqn:Hre; simpl.
      + destruct (saveConfigs _ w1) as [[[]|se] w2]; [discriminate|].
        intros e [= <-] Hno. exfalso. by apply (Hno se).
      + intros e [= <-] _. split; [done|]. split; [by eapply Remove_noop|].
        right. by exists re. }
  intros e [= <-] _. apply lookup_config_Err in Hget as [-> _]. by repeat split; auto.
Qed.

End RemoveProperties.

(** ** Calls that go through *)

Module RunFacts.

Import OS OSFacts Validation Config LookupFacts AddFacts StorageFacts ApplyFacts RemoveFacts.

Lemma after_tick w : after 1 w (tick w).
Proof. split; [apply same_env_tick|done]. Qed.

Lemma after_trans n k w1 w2 w3 : after n w1 w2 -> after k w2 w3 -> after (k + n) w1 w3.
Proof.
  intros [H1 E1] [H2 E2]. split; [by eapply same_env_trans|]. rewrite E2, E1. lia.
Qed.

Lemma after_noaccess n w w' p : after n w w' -> noaccess w' p = noaccess w p.
Proof. intros [(_ & -> & _) _]. done. Qed.

Lemma after_fault n w w' i : after n w w' -> faults w' (i + clock w') = faults w (i + n + clock w).
Proof. intros [(_ & _ & -> & _) ->]. f_equal. lia. Qed.

Lemma after_home n w w' : after n w w' -> GetClaudeSettingsPath w' = GetClaudeSettingsPath w.
Proof.
  intros [(H & _) _]. unfold GetClaudeSettingsPath, GetClaudeDir, UserHomeDir. by rewrite H.
Qed.

Ltac use_fault i A :=
  let E := fresh in
  pose proof (after_fault _ _ _ i A) as E; simpl in E |- *; rewrite E; assumption.

Lemma ReadFile_run path w data :
  noaccess w path = false -> files w !! path = Some data ->
  faults w (clock w) = NoFault -> ReadFile path w = (Ok data, tick w).
Proof. unfold ReadFile. by intros -> -> ->. Qed.

Lemma copyFile_run src dst w data :
  noaccess w src = false -> noaccess w dst = false -> files w !! src = Some data ->
  faults w (clock w) = NoFault -> faults w (1 + clock w) = NoFault ->
  exists w', copyFile src dst w = (Ok tt, w')
             /\ files w' = <[dst := data]> (files w) /\ after 2 w w'.
Proof.
  intros Hs Hd Hf H0 H1. unfold copyFile. rewrite (ReadFile_run src w data) by done.
  unfold WriteFile. simpl in *. rewrite Hd, H1. eexists. split; [reflexivity|].
  split; [done|]. by repeat split.
Qed.

Lemma copyFile_write_fails src dst w data :
  noaccess w src = false -> noaccess w dst = false -> files w !! src = Some data ->
  faults w (clock w) = NoFault -> faults w (1 + clock w) <> NoFault ->
  exists e w', copyFile src dst w = (Err (Wrap "failed to write destination file" e), w')
               /\ after 2 w w'
               /\ forall q, q <> dst -> files w' !! q = files w !! q.
Proof.
  intros Hs Hd Hf H0 H1. unfold copyFile. rewrite (ReadFile_run src w data) by done.
  unfold WriteFile. simpl. rewrite Hd. simpl in H1.
  destruct (faults w (S (clock w))) as [| |n]; [done|..];
    do 2 eexists; (split; [reflexivity|]); (split; [by repeat split|]);
    intros q Hq; simpl; [done|by rewrite lookup_insert_ne].
Qed.

Lemma ValidateClaudeSettingsFile_run path w data :
  noaccess w path = false -> files w !! path = Some data ->
  faults w (clock w) = NoFault ->
  ValidateClaudeSettingsFile path w = (ValidateClaudeSettings data, tick w).
Proof.
  intros. unfold ValidateClaudeSettingsFile. by rewrite (ReadFile_run path w data).
Qed.

End RunFacts.

(** ** Applying a record, continued *)

Module ApplyProperties.

Import OS OSFacts Validation Config LookupFacts AddFacts StorageFacts ApplyFacts RemoveFacts.
Import AddProperties RunFacts.

Lemma backup_ne (settingsPath : string) : settingsPath +:+ ".backup" <> settingsPath.
Proof. by apply append_nonempty_ne. Qed.

(** The files after a successful [ApplyConfig]: those of before the
    call, with the former target, if there was one, put in the backup slot,
    and then the record's stored content put at the target. *)
Lemma ApplyConfig_Ok_files identifier m w w' c :
  GetConfig m identifier = Ok c ->
  ApplyConfig identifier m w = (Ok tt, w') ->
  exists settingsPath content kept,
    GetClaudeSettingsPath w = Ok settingsPath
    /\ kept = match files w !! settingsPath with
              | Some old => <[settingsPath +:+ ".backup" := old]> (files w)
              | None => files w
              end
    /\ kept !! FilePath c = Some content
    /\ files w' = <[settingsPath := content]> kept
    /\ same_env w w'.
Proof.
  intros Hget. unfold ApplyConfig. rewrite Hget.
  destruct (ValidateClaudeSettingsFile (FilePath c) w) as [[[]|ve] w1] eqn:Ev; [|discriminate].
  apply ValidateClaudeSettingsFile_Ok in Ev as (data & Hdata & Hvalid & _ & ->).
  change (GetClaudeSettingsPath (tick w)) with (GetClaudeSettingsPath w).
  destruct (GetClaudeSettingsPath w) as [settingsPath|] eqn:Hs; [|discriminate].
  destruct (Stat settingsPath (tick w)) as [[]|se] eqn:Hstat.
  - apply Stat_Ok in Hstat as [_ [old Hold]]. simpl in Hold.
    destruct (copyFile settingsPath _ (tick w)) as [[[]|be] w2] eqn:Eb; [|discriminate].
    cbv iota beta.
    apply copyFile_Ok in Eb as (old' & Hold' & Hf2 & _ & He2). simpl in Hold', Hf2.
    assert (old' = old) as -> by congruence.
    destruct (copyFile (FilePath c) settingsPath w2) as [[[]|ce] w3] eqn:Ec; [|discriminate].
    intros [= <-]. apply copyFile_Ok in Ec as (content & Hc & Hf3 & _ & He3).
    exists settingsPath, content, (files w2). rewrite Hold.
    do 4 (split; [done|]).
    eapply same_env_trans; [|exact He3]. eapply same_env_trans; [|exact He2].
    apply same_env_tick.
  - cbv iota beta.
    destruct (copyFile (FilePath c) settingsPath (tick w)) as [[[]|ce] w3] eqn:Ec; [|discriminate].
    intros [= <-]. apply copyFile_Ok in Ec as (content & Hc & Hf3 & Hacc & He3).
    simpl in Hc, Hf3, Hacc.
    assert (files w !! settingsPath = None) as Hnone.
    { unfold Stat in Hstat. simpl in Hstat. rewrite Hacc in Hstat.
      by destruct (files w !! settingsPath). }
    exists settingsPath, content, (files w). rewrite Hnone.
    do 4 (split; [done|]).
    eapply same_env_trans; [|exact He3]. apply same_env_tick.
Qed.

(** X13. An [ApplyConfig] that fails before the copy onto the target
    leaves the target alone.  When the identifier resolves to no record,
    the stored content does not pass the validator or the home directory is
    unknown, no file is changed; when the backup cannot be made, no file
    other than the backup slot is changed. *)
Theorem ApplyConfig_failure_before_copy (identifier : string) (m : Manager) (w : World) :
  let '(r, w') := ApplyConfig identifier m w in
  forall e, r = Err e ->
    (forall inner, e <> Wrap "failed to apply configuration" inner) ->
    ((forall inner, e <> Wrap "failed to create backup" inner) -> files w' = files w)
    /\ (forall settingsPath, GetClaudeSettingsPath w = Ok settingsPath ->
          forall q, q <> settingsPath +:+ ".backup" -> files w' !! q = files w !! q).
Proof.
  unfold ApplyConfig. destruct (GetConfig m identifier) as [c|ge]; [|by intros e _ _].
  destruct (ValidateClaudeSettingsFile (FilePath c) w) as [[[]|ve] w1] eqn:Ev;
    apply ValidateClaudeSettingsFile_files in Ev as [Ev Henv].
  2: { intros e _ _. split; [done|]. intros; by rewrite Ev. }
  assert (GetClaudeSettingsPath w1 = GetClaudeSettingsPath w) as ->.
  { destruct Henv as (H & _). unfold GetClaudeSettingsPath, GetClaudeDir, UserHomeDir.
    by rewrite H. }
  destruct (GetClaudeSettingsPath w) as [settingsPath|pe]; [|by intros e _ _].
  destruct (Stat settingsPath w1) as [[]|se].
  - destruct (copyFile settingsPath _ w1) as [[[]|be] w2] eqn:Eb; cbv iota beta.
    + destruct (copyFile (FilePath c) settingsPath w2) as [[[]|ce] w3]; [discriminate|].
      intros e [= <-] Hno. exfalso. by apply (Hno ce).
    + intros e [= <-] _. split; [intros Hno; exfalso; by apply (Hno be)|].
      intros s [= <-] q Hq. rewrite <- Ev. unfold copyFile in Eb.
      destruct (ReadFile settingsPath w1) as [[data|re] w2'] eqn:Er;
        apply ReadFile_files in Er as [Er _].
      * destruct (WriteFile _ data w2') as [[[]|we] w3'] eqn:Ew; [discriminate|].
        injection Eb as _ <-. rewrite <- Er. eapply WriteFile_other; [exact Ew|exact Hq].
      * injection Eb as _ <-. by rewrite Er.
  - cbv iota beta.
    destruct (copyFile (FilePath c) settingsPath w1) as [[[]|ce] w3]; [discriminate|].
    intros e [= <-] Hno. exfalso. by apply (Hno ce).
Qed.

(** X14. A successful [ApplyConfig] changes two files at most: the
    target and the backup slot.  Every other file, the stored files of the
    records among them, is the one of before the call. *)
Theorem ApplyConfig_success_frame
    (identifier : string) (m : Manager) (w w' : World) :
  ApplyConfig identifier m w = (Ok tt, w') ->
  exists settingsPath,
    GetClaudeSettingsPath w = Ok settingsPath
    /\ (forall q, q <> settingsPath -> q <> settingsPath +:+ ".backup" ->
          files w' !! q = files w !! q)
    /\ (forall c, In c (elems m) -> FilePath c <> settingsPath ->
          FilePath c <> settingsPath +:+ ".backup" ->
          files w' !! FilePath c = files w !! FilePath c).
Proof.
  intros H. destruct (GetConfig m identifier) as [c|ge] eqn:Hget.
  2: { unfold ApplyConfig in H. rewrite Hget in H. discriminate. }
  destruct (ApplyConfig_Ok_files _ _ _ _ _ Hget H)
    as (settingsPath & content & kept & Hs & Hk & _ & Hf & _).
  exists settingsPath. split; [done|].
  assert (forall q, q <> settingsPath -> q <> settingsPath +:+ ".backup" ->
            files w' !! q = files w !! q) as Hq.
  { intros q Hq Hqb. rewrite Hf, lookup_insert_ne, Hk by done.
    destruct (files w !! settingsPath); [by rewrite lookup_insert_ne|done]. }
  split; [done|]. intros c0 _. apply Hq.
Qed.

Lemma ApplyConfig_success_frame_witness :
  let w := Examples.world
             {[ FilePath Examples.work := Examples.object_a; Examples.settings := "{}" ]}
             Examples.no_fault in
  let w' := snd (ApplyConfig "work" Examples.one_manager w) in
  exists settingsPath,
    GetClaudeSettingsPath w = Ok settingsPath
    /\ (forall q, q <> settingsPath -> q <> settingsPath +:+ ".backup" ->
          files w' !! q = files w !! q)
    /\ (forall c, In c (elems Examples.one_manager) -> FilePath c <> settingsPath ->
          FilePath c <> settingsPath +:+ ".backup" ->
          files w' !! FilePath c = files w !! FilePath c).
Proof.
  intros w w'. apply (ApplyConfig_success_frame "work" Examples.one_manager w w').
  vm_compute. reflexivity.
Defined.

(** X15. The rollback of [ApplyConfig].  A target file exists, the
    backup is made, and the copy of the record's content onto the target
    fails while writing (cleanly or after some bytes); when the
    restoration that follows goes through, the call fails with the error of
    the copy and the target holds again the content that it had before the
    call, as does the backup slot. *)
Theorem ApplyConfig_restores_target
    (identifier : string) (m : Manager) (w : World) (c : Config)
    (settingsPath content old : string) :
  GetConfig m identifier = Ok c ->
  GetClaudeSettingsPath w = Ok settingsPath ->
  files w !! FilePath c = Some content -> ValidateClaudeSettings content = Ok tt ->
  files w !! settingsPath = Some old ->
  noaccess w (FilePath c) = false -> noaccess w settingsPath = false ->
  noaccess w (settingsPath +:+ ".backup") = false ->
  faults w (clock w) = NoFault -> faults w (1 + clock w) = NoFault ->
  faults w (2 + clock w) = NoFault -> faults w (3 + clock w) = NoFault ->
  faults w (4 + clock w) <> NoFault ->
  faults w (5 + clock w) = NoFault -> faults w (6 + clock w) = NoFault ->
  exists e w',
    ApplyConfig identifier m w
    = (Err (Wrap "failed to apply configuration"
              (Wrap "failed to write destination file" e)), w')
    /\ files w' !! settingsPath = Some old
    /\ files w' !! (settingsPath +:+ ".backup") = Some old.
Proof.
  intros Hget Hs Hc Hv Hold Hac Has Hab F0 F1 F2 F3 F4 F5 F6.
  pose proof (backup_ne settingsPath) as Hne.
  unfold ApplyConfig. rewrite Hget.
  rewrite (ValidateClaudeSettingsFile_run _ w content), Hv by done.
  change (GetClaudeSettingsPath (tick w)) with (GetClaudeSettingsPath w). rewrite Hs.
  assert (Stat settingsPath (tick w) = Ok tt) as -> by (by apply Stat_Ok; eauto).
  destruct (copyFile_run settingsPath (settingsPath +:+ ".backup") (tick w) old)
    as (w2 & -> & Hf2 & A2); try done.
  cbv iota beta. simpl in Hf2.
  assert (exists d, files w2 !! FilePath c = Some d) as [d Hd].
  { rewrite Hf2. destruct (decide (FilePath c = settingsPath +:+ ".backup")) as [->|Hn].
    - rewrite lookup_insert_eq. eauto.
    - rewrite lookup_insert_ne by done. eauto. }
  pose proof (after_trans _ _ _ _ _ (after_tick w) A2) as A02. simpl in A02.
  destruct (copyFile_write_fails (FilePath c) settingsPath w2 d) as (e & w3 & -> & A3 & Hf3).
  { by rewrite (after_noaccess _ _ _ _ A02). }
  { by rewrite (after_noaccess _ _ _ _ A02). }
  { done. }
  { use_fault 0 A02. }
  { use_fault 1 A02. }
  pose proof (after_trans _ _ _ _ _ A02 A3) as A03. simpl in A03.
  assert (files w3 !! (settingsPath +:+ ".backup") = Some old) as Hb3.
  { rewrite Hf3, Hf2 by done. apply lookup_insert_eq. }
  assert (Stat (settingsPath +:+ ".backup") w3 = Ok tt) as ->.
  { apply Stat_Ok. rewrite (after_noaccess _ _ _ _ A03). eauto. }
  destruct (copyFile_run (settingsPath +:+ ".backup") settingsPath w3 old)
    as (w4 & E4 & Hf4 & A4).
  { by rewrite (after_noaccess _ _ _ _ A03). }
  { by rewrite (after_noaccess _ _ _ _ A03). }
  { done. }
  { use_fault 0 A03. }
  { use_fault 1 A03. }
  rewrite E4. exists e, w4. split; [done|]. rewrite Hf4. split.
  - apply lookup_insert_eq.
  - by rewrite lookup_insert_ne.
Qed.

Lemma ApplyConfig_restores_target_witness :
  let w := Examples.world
             {[ FilePath Examples.work := Examples.object_a; Examples.settings := "{}" ]}
             (Examples.fault_at 4 (FailPartial 3)) in
  exists e w',
    ApplyConfig "work" Examples.one_manager w
    = (Err (Wrap "failed to apply configuration"
              (Wrap "failed to write destination file" e)), w')
    /\ files w' !! Examples.settings = Some "{}"
    /\ files w' !! (Examples.settings +:+ ".backup") = Some "{}".
Proof.
  intros w.
  apply (ApplyConfig_restores_target "work" Examples.one_manager w Examples.work
           Examples.settings Examples.object_a "{}");
    first [reflexivity | discriminate].
Defined.

(** A successful [ApplyConfig] has read the record's stored file and the
    validator has accepted its bytes. *)
Lemma ApplyConfig_Ok_valid identifier m w w' c :
  GetConfig m identifier = Ok c ->
  ApplyConfig identifier m w = (Ok tt, w') ->
  exists data, files w !! FilePath c = Some data /\ ValidateClaudeSettings data = Ok tt.
Proof.
  intros Hget. unfold ApplyConfig. rewrite Hget.
  destruct (ValidateClaudeSettingsFile (FilePath c) w) as [[[]|ve] w1] eqn:Ev; [|discriminate].
  apply ValidateClaudeSettingsFile_Ok in Ev as (data & Hdata & Hvalid & _). eauto.
Qed.

(** X16. Applying the same record twice in a row.  The identifier
    resolves to a record; when the second call starts, the record's stored
    file holds a content that the validator accepts, which is also what the
    first call left at the target (and what the stored file held before the
    first call, unless the stored file is the backup slot itself).  After
    the second successful call the target and the backup slot both hold
    that content of the record's stored file, the backup being the target
    that the first call had written, and the stored file still holds
    it. *)
Theorem ApplyConfig_twice
    (identifier : string) (m : Manager) (w w1 w2 : World) :
  ApplyConfig identifier m w = (Ok tt, w1) ->
  ApplyConfig identifier m w1 = (Ok tt, w2) ->
  exists c settingsPath content,
    GetConfig m identifier = Ok c
    /\ GetClaudeSettingsPath w = Ok settingsPath
    /\ files w1 !! FilePath c = Some content
    /\ ValidateClaudeSettings content = Ok tt
    /\ (FilePath c <> settingsPath +:+ ".backup" -> files w !! FilePath c = Some content)
    /\ files w1 !! settingsPath = Some content
    /\ files w2 !! FilePath c = Some content
    /\ files w2 !! settingsPath = Some content
    /\ files w2 !! (settingsPath +:+ ".backup") = Some content.
Proof.
  intros H1 H2. destruct (GetConfig m identifier) as [c|ge] eqn:Hget.
  2: { unfold ApplyConfig in H1. rewrite Hget in H1. discriminate. }
  destruct (ApplyConfig_Ok_files _ _ _ _ _ Hget H1)
    as (s & content & kept & Hs & Hk & Hc & Hf & Henv).
  destruct (ApplyConfig_Ok_files _ _ _ _ _ Hget H2)
    as (s' & content' & kept' & Hs' & Hk' & Hc' & Hf' & _).
  destruct (ApplyConfig_Ok_valid _ _ _ _ _ Hget H2) as (data & Hdata & Hvalid).
  assert (s' = s) as ->.
  { destruct Henv as (Hh & _). unfold GetClaudeSettingsPath, GetClaudeDir, UserHomeDir in *.
    rewrite Hh in Hs'. congruence. }
  pose proof (backup_ne s) as Hne.
  assert (forall fs : gmap string string,
            fs !! FilePath c = Some content ->
            <[s := content]> fs !! FilePath c = Some content) as Hstored.
  { intros fs Hfs. destruct (decide (s = FilePath c)) as [<-|Hn].
    - apply lookup_insert_eq.
    - by rewrite lookup_insert_ne. }
  assert (files w1 !! FilePath c = Some content) as Hc1 by (rewrite Hf; by apply Hstored).
  assert (data = content) as -> by congruence.
  assert (files w1 !! s = Some content) as Ht1 by (rewrite Hf; apply lookup_insert_eq).
  rewrite Ht1 in Hk'.
  assert (content' = content) as ->.
  { rewrite Hk' in Hc'.
    destruct (decide (FilePath c = s +:+ ".backup")) as [E|E].
    - rewrite E, lookup_insert_eq in Hc'. congruence.
    - rewrite lookup_insert_ne in Hc' by done. congruence. }
  exists c, s, content. split; [done|]. split; [done|]. split; [done|]. split; [done|].
  split.
  { intros Hb. rewrite Hk in Hc. destruct (files w !! s) as [old|]; [|done].
    by rewrite lookup_insert_ne in Hc. }
  split; [done|]. rewrite Hf'. split; [by apply Hstored|]. split.
  - apply lookup_insert_eq.
  - rewrite Hk', lookup_insert_ne by done. apply lookup_insert_eq.
Qed.

Lemma ApplyConfig_twice_witness :
  let w := Examples.world {[ FilePath Examples.work := Examples.object_a ]}
                          Examples.no_fault in
  let w1 := snd (ApplyConfig "work" Examples.one_manager w) in
  let w2 := snd (ApplyConfig "work" Examples.one_manager w1) in
  exists c settingsPath content,
    GetConfig Examples.one_manager "work" = Ok c
    /\ GetClaudeSettingsPath w = Ok settingsPath
    /\ files w1 !! FilePath c = Some content
    /\ ValidateClaudeSettings content = Ok tt
    /\ (FilePath c <> settingsPath +:+ ".backup" -> files w !! FilePath c = Some content)
    /\ files w1 !! settingsPath = Some content
    /\ files w2 !! FilePath c = Some content
    /\ files w2 !! settingsPath = Some content
    /\ files w2 !! (settingsPath +:+ ".backup") = Some content.
Proof.
  intros w w1 w2. apply (ApplyConfig_twice "work" Examples.one_manager w w1 w2).
  - vm_compute. reflexivity.
  - vm_compute. reflexivity.
Defined.

End ApplyProperties.

(** ** Validating the stored records *)

Module ValidateProperties.

Import OS OSFacts Validation Config LookupFacts AddFacts StorageFacts ApplyFacts RemoveFacts.
Import AddProperties RunFacts.

(** X17. [ValidateConfig] changes no file.  For an identifier that
    resolves to no record it returns the error of the lookup; otherwise its
    result is the verdict of the validator on the bytes of the record's
    stored file, or the error of a failed read. *)
Theorem ValidateConfig_verdict (identifier : string) (m : Manager) (w : World) :
  let '(r, w') := ValidateConfig identifier m w in
  files w' = files w
  /\ match GetConfig m identifier with
     | Err e => r = Err (NotFound identifier) /\ w' = w
     | Ok c =>
       match files w !! FilePath c with
       | Some data =>
         r = ValidateClaudeSettings data \/ exists e, r = Err (Wrap "failed to read file" e)
       | None => exists e, r = Err (Wrap "failed to read file" e)
       end
     end.
Proof.
  unfold ValidateConfig. destruct (GetConfig m identifier) as [c|ge] eqn:Hget.
  2: { apply lookup_config_Err in Hget as [-> _]. by repeat split. }
  destruct (ValidateClaudeSettingsFile (FilePath c) w) as [r w'] eqn:Ev.
  split; [by apply ValidateClaudeSettingsFile_files in Ev as [? _]|].
  unfold ValidateClaudeSettingsFile in Ev.
  destruct (ReadFile (FilePath c) w) as [[data|re] w1] eqn:Er.
  - apply ReadFile_Ok in Er as (-> & _ & _). injection Ev as <- _. by left.
  - injection Ev as <- _. destruct (files w !! FilePath c); [right|]; by exists re.
Qed.

Lemma validate_each_files cs w errors w' :
  validate_each cs w = (errors, w') -> files w' = files w /\ same_env w w'.
Proof.
  revert w errors w'. induction cs as [|c cs IH]; intros w errors w'; simpl.
  - intros [= _ <-]. split; [done|apply same_env_refl].
  - destruct (ValidateClaudeSettingsFile (FilePath c) w) as [r w1] eqn:Ev.
    destruct (validate_each cs w1) as [es w2] eqn:Ee. intros [= _ <-].
    apply ValidateClaudeSettingsFile_files in Ev as [Ev He].
    apply IH in Ee as [Ee He']. split; [congruence|by eapply same_env_trans].
Qed.

(** X18. [ValidateAllConfigs] changes no file and reports at most one
    error per record, each made of the name and the identity of a record of
    the collection and of the validator's error; when it reports no error,
    the stored file of every record holds a content that the validator
    accepts. *)
Theorem ValidateAllConfigs_reports (m : Manager) (w : World) :
  let '(errors, w') := ValidateAllConfigs m w in
  files w' = files w
  /\ length errors <= length (elems m)
  /\ Forall (fun e => exists c inner,
                In c (elems m)
                /\ e = Wrap ("config '" +:+ Name c +:+ "' (" +:+ ID c +:+ ")") inner) errors
  /\ (errors = [] ->
      Forall (fun c => exists data, files w !! FilePath c = Some data
                                    /\ ValidateClaudeSettings data = Ok tt) (elems m)).
Proof.
  unfold ValidateAllConfigs. generalize (elems m) as cs. intros cs. revert w.
  induction cs as [|c cs IH]; intros w; simpl.
  - repeat split; auto.
  - destruct (ValidateClaudeSettingsFile (FilePath c) w) as [r w1] eqn:Ev.
    specialize (IH w1). destruct (validate_each cs w1) as [es w2] eqn:Ee.
    destruct IH as (Hf & Hlen & Hall & Hnone).
    pose proof (ValidateClaudeSettingsFile_files _ _ _ _ Ev) as [Hf1 _].
    split; [congruence|]. split; [destruct r; simpl; lia|]. split.
    + assert (Forall (fun e => exists c0 inner,
                (c = c0 \/ In c0 cs)
                /\ e = Wrap ("config '" +:+ Name c0 +:+ "' (" +:+ ID c0 +:+ ")") inner) es)
        as Hes.
      { eapply Forall_impl; [exact Hall|]. intros e (c0 & inner & Hin & ->). eauto 6. }
      destruct r as [[]|ve]; [done|]. constructor; [|done]. exists c, ve. auto.
    + destruct r as [[]|ve]; [|discriminate]. intros ->. constructor.
      * apply ValidateClaudeSettingsFile_Ok in Ev as (data & ? & ? & _). eauto.
      * rewrite <- Hf1. by apply Hnone.
Qed.

Lemma ValidateClaudeSettingsFile_quiet path w w1 :
  (forall k, faults w k = NoFault) -> files w1 = files w -> same_env w w1 ->
  fst (ValidateClaudeSettingsFile path w1) = fst (ValidateClaudeSettingsFile path w).
Proof.
  intros Hq Hf (_ & Hn & Hfa & _).
  unfold ValidateClaudeSettingsFile, ReadFile. rewrite Hn, Hf, Hfa, !Hq.
  destruct (noaccess w path); [done|]. by destruct (files w !! path).
Qed.

(** X19. [ValidateAllConfigs] does not stop at the first failure.  When
    no read is disturbed, its result holds, in the order of the collection,
    one error for each record whose stored file does not pass
    [ValidateClaudeSettingsFile], and nothing for the other records. *)
Theorem ValidateAllConfigs_collects_all (m : Manager) (w : World) :
  (forall k, faults w k = NoFault) ->
  fst (ValidateAllConfigs m w)
  = omap (fun c =>
            match fst (ValidateClaudeSettingsFile (FilePath c) w) with
            | Err err => Some (Wrap ("config '" +:+ Name c +:+ "' (" +:+ ID c +:+ ")") err)
            | Ok _ => None
            end) (elems m).
Proof.
  intros Hq. unfold ValidateAllConfigs. generalize (elems m) as cs. intros cs.
  assert (forall w1, files w1 = files w -> same_env w w1 ->
            fst (validate_each cs w1)
            = omap (fun c =>
                      match fst (ValidateClaudeSettingsFile (FilePath c) w) with
                      | Err err =>
                        Some (Wrap ("config '" +:+ Name c +:+ "' (" +:+ ID c +:+ ")") err)
                      | Ok _ => None
                      end) cs) as H.
  { induction cs as [|c cs IH]; intros w1 Hf He; [done|]. cbn [validate_each omap list_omap].
    rewrite <- (ValidateClaudeSettingsFile_quiet (FilePath c) w w1) by done.
    destruct (ValidateClaudeSettingsFile (FilePath c) w1) as [r w2] eqn:Ev.
    apply ValidateClaudeSettingsFile_files in Ev as [Hf2 He2].
    specialize (IH w2). destruct (validate_each cs w2) as [es w3]. simpl in *.
    rewrite <- IH; [by destruct r|congruence|by eapply same_env_trans]. }
  apply H; [done|apply same_env_refl].
Qed.

Lemma ValidateAllConfigs_collects_all_witness :
  let bad := mkConfig "u9" "bad" EmptyString Examples.stamp "/home/u/.claude-switch/configs/u9.json" in
  let m := mkManager Examples.dir (Some [bad; Examples.work; bad]) in
  let w := Examples.world {[ FilePath Examples.work := "{}"; FilePath bad := "[]" ]}
                          Examples.no_fault in
  fst (ValidateAllConfigs m w)
  = omap (fun c =>
            match fst (ValidateClaudeSettingsFile (FilePath c) w) with
            | Err err => Some (Wrap ("config '" +:+ Name c +:+ "' (" +:+ ID c +:+ ")") err)
            | Ok _ => None
            end) (elems m).
Proof.
  intros bad m w. apply (ValidateAllConfigs_collects_all m w). reflexivity.
Defined.

End ValidateProperties.

(** ** Opening the registry *)

Module OpenProperties.

Import OS OSFacts Validation Config LookupFacts AddFacts StorageFacts ApplyFacts RemoveFacts.
Import CodecFacts AddProperties RunFacts.

Lemma loadConfigs_files m w r m' w' :
  loadConfigs m w = (r, m', w') -> files w' = files w.
Proof.
  unfold loadConfigs. destruct (ReadFile (metadataPath m) w) as [[data|re] w1] eqn:Er;
    apply ReadFile_files in Er as [Er _].
  - destruct (Unmarshal _); by intros [= _ _ <-].
  - destruct (IsNotExist re); by intros [= _ _ <-].
Qed.

(** X20. [NewManager] changes no file.  When it succeeds, the manager
    it returns has the directory [.claude-switch] of the home directory,
    and its collection is the empty (allocated) one when there is no
    metadata document, and otherwise the collection that the whole
    document decodes to: a document that does not decode is never loaded in
    part. *)
Theorem NewManager_result (w : World) :
  let '(r, w') := NewManager w in
  files w' = files w
  /\ forall manager, r = Ok manager ->
       exists homeDir,
         home w = Some homeDir
         /\ configDir manager = Join [homeDir; ".claude-switch"]
         /\ match files w !! metadataPath manager with
            | None => configs manager = Some []
            | Some data => Unmarshal (list_ascii_of_string data) = Ok (configs manager)
            end.
Proof.
  unfold NewManager, UserHomeDir. destruct (home w) as [h|] eqn:Hh; [|by split].
  destruct (MkdirAll _ w) as [[[]|e1] w1] eqn:E1; apply MkdirAll_files in E1 as [E1 _];
    [|by split].
  destruct (MkdirAll _ w1) as [[[]|e2] w2] eqn:E2; apply MkdirAll_files in E2 as [E2 _];
    [|split; [congruence|done]].
  destruct (loadConfigs _ w2) as [[r mgr] w3] eqn:E3.
  pose proof (loadConfigs_files _ _ _ _ _ E3) as Hf3.
  destruct r as [[]|le]; (split; [congruence|]); [|done].
  intros manager [= <-]. exists h. split; [done|].
  unfold loadConfigs in E3.
  change (metadataPath (mkManager (Join [h; ".claude-switch"]) None))
    with (Join [Join [h; ".claude-switch"]; "config.json"]) in E3.
  destruct (ReadFile _ w2) as [[data|re] w2'] eqn:Er.
  - apply ReadFile_Ok in Er as (Hd & _ & _).
    destruct (Unmarshal _) as [cs|ue] eqn:Eu; [|discriminate].
    injection E3 as <- _. split; [done|].
    unfold metadataPath. cbn [Join configDir configs] in Hd |- *.
    by rewrite <- E1, <- E2, Hd.
  - destruct (IsNotExist re) eqn:Hre; [|discriminate]. injection E3 as <- _.
    split; [done|].
    unfold metadataPath. cbn [Join configDir configs]. rewrite <- E1, <- E2.
    revert Er Hre. unfold ReadFile. cbn [Join].
    destruct (noaccess w2 _); [by intros [= <- _]|].
    destruct (files w2 !! _); [|done].
    destruct (faults w2 (clock w2)); by intros [= <- _].
Qed.

(** When the two directories can be made, [NewManager] is the load of
    the metadata document into a fresh manager. *)
Lemma NewManager_loads (w : World) (homeDir : string) :
  home w = Some homeDir ->
  noaccess w (Join [homeDir; ".claude-switch"]) = false ->
  noaccess w (Join [Join [homeDir; ".claude-switch"]; "configs"]) = false ->
  files w !! Join [homeDir; ".claude-switch"] = None ->
  files w !! Join [Join [homeDir; ".claude-switch"]; "configs"] = None ->
  faults w (clock w) = NoFault -> faults w (1 + clock w) = NoFault ->
  NewManager w
  = match loadConfigs (mkManager (Join [homeDir; ".claude-switch"]) None) (tick (tick w)) with
    | (Err e, _, w3) => (Err (Wrap "failed to load configurations" e), w3)
    | (Ok _, manager, w3) => (Ok manager, w3)
    end.
Proof.
  cbn [Join]. intros Hh Hnd Hnc Hfd Hfc F0 F1.
  unfold NewManager, UserHomeDir. rewrite Hh. cbn [Join].
  unfold MkdirAll at 1. rewrite Hnd, Hfd, F0.
  unfold MkdirAll. cbn [noaccess files faults clock tick]. simpl in F1.
  by rewrite Hnc, Hfc, F1.
Qed.

(** X21. [NewManager] when the file system cooperates: the two
    directories can be made and no read is disturbed.  Without a metadata
    document the manager starts with the empty collection; with a document
    that decodes, it holds the decoded collection; with a document that
    does not decode, [NewManager] fails with the error of the decoder. *)
Theorem NewManager_run (w : World) (homeDir : string) :
  home w = Some homeDir ->
  let configDir := Join [homeDir; ".claude-switch"] in
  let metadata := Join [configDir; "config.json"] in
  noaccess w configDir = false -> noaccess w (Join [configDir; "configs"]) = false ->
  noaccess w metadata = false ->
  files w !! configDir = None -> files w !! Join [configDir; "configs"] = None ->
  faults w (clock w) = NoFault -> faults w (1 + clock w) = NoFault ->
  faults w (2 + clock w) = NoFault ->
  NewManager w
  = match files w !! metadata with
    | None => (Ok (mkManager configDir (Some [])), tick (tick w))
    | Some data =>
      match Unmarshal (list_ascii_of_string data) with
      | Ok cs => (Ok (mkManager configDir cs), tick (tick (tick w)))
      | Err e =>
        (Err (Wrap "failed to load configurations" (Wrap "failed to parse config metadata" e)),
         tick (tick (tick w)))
      end
    end.
Proof.
  intros Hh d meta. subst d meta. intros Hnd Hnc Hnm Hfd Hfc F0 F1 F2.
  rewrite (NewManager_loads w homeDir) by done.
  unfold loadConfigs, ReadFile, metadataPath.
  cbn [Join configDir noaccess files faults clock tick] in Hnm |- *. rewrite Hnm.
  destruct (files w !! (_ +:+ "/" +:+ "config.json")) as [data|]; [|done].
  simpl in F2. rewrite F2. by destruct (Unmarshal _).
Qed.

Lemma NewManager_run_witness :
  let w := Examples.world {[ Examples.temp := "{}" ]} Examples.no_fault in
  NewManager w
  = match files w !! Join [Join ["/home/u"; ".claude-switch"]; "config.json"] with
    | None => (Ok (mkManager (Join ["/home/u"; ".claude-switch"]) (Some [])), tick (tick w))
    | Some data =>
      match Unmarshal (list_ascii_of_string data) with
      | Ok cs => (Ok (mkManager (Join ["/home/u"; ".claude-switch"]) cs),
                  tick (tick (tick w)))
      | Err e =>
        (Err (Wrap "failed to load configurations" (Wrap "failed to parse config metadata" e)),
         tick (tick (tick w)))
      end
    end.
Proof.
  intros w. apply (NewManager_run w "/home/u"); reflexivity.
Defined.

End OpenProperties.

(** ** Operations in sequence *)

Module SequenceProperties.

Import OS OSFacts Rfc3339 Validation Config LookupFacts AddFacts StorageFacts ApplyFacts RemoveFacts.
Import CodecFacts AddProperties RemoveProperties RunFacts ApplyProperties OpenProperties.

Lemma append_assoc_string (a b c : string) : (a +:+ b) +:+ c = a +:+ (b +:+ c).
Proof.
  induction a as [|x a IH]; [done|].
  change (String x ((a +:+ b) +:+ c) = String x (a +:+ (b +:+ c))). by rewrite IH.
Qed.

(** The stored file of a record of the registry of the home directory is
    never the backup slot. *)
Lemma stored_path_ne_backup (homeDir id : string) :
  Join [Join [homeDir; ".claude-switch"]; "configs"; id +:+ ".json"]
  <> Join [Join [homeDir; ".claude"]; "settings.json"] +:+ ".backup".
Proof.
  cbn [Join]. rewrite !append_assoc_string. intros H. apply append_cancel in H.
  simpl in H. discriminate H.
Qed.

(** X22. Adding a record and starting again.  After a successful
    [AddConfig] in the registry of the home directory, a [NewManager] that
    meets no failure returns a manager equal to the one that [AddConfig]
    left: the same records in the same order, the new one last (the strings
    of the records being UTF-8). *)
Theorem AddConfig_then_NewManager
    (tempFile name description homeDir : string) (m m' : Manager) (w w' : World)
    (c : Config) :
  AddConfig tempFile name description m w = (Ok c, m', w') ->
  home w = Some homeDir -> configDir m = Join [homeDir; ".claude-switch"] ->
  Forall text_ok (elems m') ->
  noaccess w (configDir m) = false -> noaccess w (Join [configDir m; "configs"]) = false ->
  files w' !! configDir m = None -> files w' !! Join [configDir m; "configs"] = None ->
  faults w' (clock w') = NoFault -> faults w' (1 + clock w') = NoFault ->
  faults w' (2 + clock w') = NoFault ->
  NewManager w' = (Ok m', tick (tick (tick w'))).
Proof.
  intros H Hh Hd Hok Hnd Hnc Hfd Hfc F0 F1 F2.
  apply AddConfig_Ok_steps in H
    as (_ & _ & _ & Hm & content & w4 & _ & _ & _ & _ & He4 & Hs).
  apply saveConfigs_Ok in Hs as (doc & Hdoc & Hf & Hnm & He').
  pose proof (same_env_trans _ _ _ He4 He') as (Hh' & Hn' & _).
  assert (metadataPath m' = Join [Join [homeDir; ".claude-switch"]; "config.json"]) as Hmp
      by (by rewrite Hm, <- Hd).
  rewrite Hd in *.
  rewrite (NewManager_loads w' homeDir); [|congruence..].
  unfold loadConfigs, ReadFile.
  change (metadataPath (mkManager (Join [homeDir; ".claude-switch"]) None))
    with (Join [Join [homeDir; ".claude-switch"]; "config.json"]).
  rewrite <- Hmp. cbn [noaccess files faults clock tick].
  destruct He' as (_ & Hn4 & _). rewrite Hn4, Hnm, Hf, lookup_insert_eq.
  simpl in F2. rewrite F2, list_ascii_of_string_of_list_ascii.
  rewrite (Unmarshal_MarshalIndent (configs m') doc) by done.
  by rewrite Hm.
Qed.

Lemma AddConfig_then_NewManager_witness :
  let c := mkConfig "u1" "base" "first" Examples.stamp
                    "/home/u/.claude-switch/configs/u1.json" in
  let m' := mkManager Examples.dir (Some [Examples.work; c]) in
  let w' := snd (AddConfig Examples.temp "base" "first" Examples.one_manager
                   Examples.plain_world) in
  NewManager w' = (Ok m', tick (tick (tick w'))).
Proof.
  intros c m' w'.
  apply (AddConfig_then_NewManager Examples.temp "base" "first" "/home/u"
           Examples.one_manager m' Examples.plain_world w' c).
  - vm_compute. reflexivity.
  - reflexivity.
  - reflexivity.
  - repeat constructor; try reflexivity; simpl; lia.
  - reflexivity.
  - reflexivity.
  - vm_compute. reflexivity.
  - vm_compute. reflexivity.
  - vm_compute. reflexivity.
  - vm_compute. reflexivity.
  - vm_compute. reflexivity.
Defined.

(** X23. Adding a record and removing it again.  When no earlier
    record has the identity of the new one, a successful [RemoveConfig] on
    an identifier that resolves to the new record gives back the collection
    of before the add, leaves no stored file for the record, and leaves
    every file other than the metadata document as it was before the
    add. *)
Theorem AddConfig_then_RemoveConfig
    (tempFile name description identifier : string) (m m' m'' : Manager)
    (w w' w'' : World) (c : Config) :
  AddConfig tempFile name description m w = (Ok c, m', w') ->
  Forall (fun x => ID x <> ID c) (elems m) ->
  GetConfig m' identifier = Ok c ->
  RemoveConfig identifier m' w' = (Ok tt, m'', w'') ->
  configs m'' = Some (elems m) /\ configDir m'' = configDir m
  /\ files w'' !! FilePath c = None
  /\ (forall q, q <> metadataPath m -> q <> FilePath c -> files w'' !! q = files w !! q).
Proof.
  intros H Hid Hget Hrm.
  apply AddConfig_Ok_steps in H
    as (_ & _ & Hc & Hm & content & w4 & _ & _ & Hf4 & _ & _ & Hs).
  assert (FilePath c <> metadataPath m) as Hp
      by (rewrite Hc; apply stored_path_ne_metadata).
  assert (metadataPath m' = metadataPath m) as Hmp by (by rewrite Hm).
  unfold RemoveConfig in Hrm. rewrite Hget in Hrm.
  destruct (Remove (FilePath c) w') as [removed w1] eqn:Er.
  assert (match removed with
          | Err e => if negb (IsNotExist e) then Some e else None
          | Ok _ => None
          end = None -> files w1 = delete (FilePath c) (files w')) as Hgone.
  { intros Hn. eapply Remove_gone; [exact Er|].
    destruct removed as [|e0]; [done|]. by destruct (IsNotExist e0). }
  destruct (match removed with Ok _ => None | Err e => _ end) as [e0|]; [discriminate|].
  specialize (Hgone eq_refl).
  destruct (saveConfigs _ w1) as [[[]|se] w2] eqn:Es; [|discriminate].
  injection Hrm as <- <-.
  assert (elems m' = elems m ++ [c]) as Hel by (by rewrite Hm).
  split; [|split; [by rewrite Hm|split]].
  - cbn [configs]. by rewrite Hel, remove_by_id_middle, app_nil_r.
  - erewrite saveConfigs_other; [|exact Es|]; [|by rewrite Hm].
    by rewrite Hgone, lookup_delete_eq.
  - intros q Hqm Hq. erewrite saveConfigs_other; [|exact Es|]; [|by rewrite Hm].
    rewrite Hgone, lookup_delete_ne by done.
    erewrite saveConfigs_other; [|exact Hs|by rewrite Hmp].
    by rewrite Hf4, lookup_insert_ne.
Qed.

Lemma AddConfig_then_RemoveConfig_witness :
  let r := AddConfig Examples.temp "base" "first" Examples.one_manager Examples.plain_world in
  let c := mkConfig "u1" "base" "first" Examples.stamp
                    "/home/u/.claude-switch/configs/u1.json" in
  let m := Examples.one_manager in
  let w := Examples.plain_world in
  let r' := RemoveConfig "base" (snd (fst r)) (snd r) in
  let m'' := snd (fst r') in
  let w'' := snd r' in
  configs m'' = Some (elems m) /\ configDir m'' = configDir m
  /\ files w'' !! FilePath c = None
  /\ (forall q, q <> metadataPath m -> q <> FilePath c -> files w'' !! q = files w !! q).
Proof.
  intros r c m w r' m'' w''.
  apply (AddConfig_then_RemoveConfig Examples.temp "base" "first" "base" m (snd (fst r)) m''
           w (snd r) w'' c).
  - vm_compute. reflexivity.
  - repeat constructor. discriminate.
  - vm_compute. reflexivity.
  - vm_compute. reflexivity.
Defined.

(** X24. Adding a record and applying it.  After a successful
    [AddConfig] in the registry of the home directory, a successful
    [ApplyConfig] on an identifier that resolves to the new record leaves
    at the target [.claude/settings.json] the bytes of the source file
    that was added, which the validator accepted, and the record's stored
    file holds the same bytes. *)
Theorem AddConfig_then_ApplyConfig
    (tempFile name description identifier homeDir : string) (m m' : Manager)
    (w w' w'' : World) (c : Config) :
  AddConfig tempFile name description m w = (Ok c, m', w') ->
  home w = Some homeDir -> configDir m = Join [homeDir; ".claude-switch"] ->
  GetConfig m' identifier = Ok c ->
  ApplyConfig identifier m' w' = (Ok tt, w'') ->
  exists content,
    files w !! tempFile = Some content /\ ValidateClaudeSettings content = Ok tt
    /\ files w'' !! Join [Join [homeDir; ".claude"]; "settings.json"] = Some content
    /\ files w'' !! FilePath c = Some content.
Proof.
  intros H Hh Hd Hget Hap.
  apply AddConfig_Ok_steps in H
    as (_ & _ & Hc & Hm & content & w4 & Ht & Hv & Hf4 & _ & He4 & Hs).
  apply saveConfigs_Ok in Hs as (doc & _ & Hf & _ & He').
  assert (FilePath c <> metadataPath m') as Hp.
  { rewrite Hm. change (metadataPath (mkManager (configDir m) _)) with (metadataPath m).
    rewrite Hc. apply stored_path_ne_metadata. }
  assert (files w' !! FilePath c = Some content) as Hstored
      by (by rewrite Hf, lookup_insert_ne, Hf4, lookup_insert_eq).
  destruct (ApplyConfig_Ok_files _ _ _ _ _ Hget Hap)
    as (s & content' & kept & Hs & Hk & Hc' & Hf' & _).
  assert (s = Join [Join [homeDir; ".claude"]; "settings.json"]) as ->.
  { pose proof (same_env_trans _ _ _ He4 He') as (Hh' & _).
    unfold GetClaudeSettingsPath, GetClaudeDir, UserHomeDir in Hs.
    rewrite Hh', Hh in Hs. congruence. }
  assert (FilePath c <> Join [Join [homeDir; ".claude"]; "settings.json"] +:+ ".backup")
    as Hb by (rewrite Hc, Hd; apply stored_path_ne_backup).
  assert (content' = content) as ->.
  { rewrite Hk in Hc'. destruct (files w' !! _) as [old|] in Hc'.
    - rewrite lookup_insert_ne in Hc' by done. congruence.
    - congruence. }
  exists content. split; [done|]. split; [done|]. rewrite Hf'. split.
  - apply lookup_insert_eq.
  - destruct (decide (Join [Join [homeDir; ".claude"]; "settings.json"] = FilePath c))
      as [<-|Hn]; [apply lookup_insert_eq|by rewrite lookup_insert_ne].
Qed.

Lemma AddConfig_then_ApplyConfig_witness :
  let r := AddConfig Examples.temp "base" "first" Examples.one_manager Examples.plain_world in
  let c := mkConfig "u1" "base" "first" Examples.stamp
                    "/home/u/.claude-switch/configs/u1.json" in
  let w := Examples.plain_world in
  let w'' := snd (ApplyConfig "base" (snd (fst r)) (snd r)) in
  exists content,
    files w !! Examples.temp = Some content /\ ValidateClaudeSettings content = Ok tt
    /\ files w'' !! Join [Join ["/home/u"; ".claude"]; "settings.json"] = Some content
    /\ files w'' !! FilePath c = Some content.
Proof.
  intros r c w w''.
  apply (AddConfig_then_ApplyConfig Examples.temp "base" "first" "base" "/home/u"
           Examples.one_manager (snd (fst r)) w (snd r) w'' c).
  - vm_compute. reflexivity.
  - reflexivity.
  - reflexivity.
  - vm_compute. reflexivity.
  - vm_compute. reflexivity.
Defined.

End SequenceProperties.

(** ** The editor and the temporary file of the add command *)

Module EditorProperties.

Import Editor.

Lemma first_found_Some LookPath editors e :
  first_found LookPath editors = Some e <->
  exists l1 l2, editors = l1 ++ e :: l2 /\ LookPath e = true
                /\ Forall (fun x => LookPath x = false) l1.
Proof.
  induction editors as [|x editors IH]; simpl.
  - split; [done|]. intros (l1 & l2 & H & _). by destruct l1.
  - destruct (LookPath x) eqn:E.
    + split.
      * intros [= ->]. by exists [], editors.
      * intros (l1 & l2 & H & He & Hl1). destruct l1 as [|y l1]; simpl in H.
        -- congruence.
        -- injection H as -> ->. inversion Hl1; congruence.
    + rewrite IH. split.
      * intros (l1 & l2 & -> & He & Hl1). exists (x :: l1), l2. auto.
      * intros (l1 & l2 & H & He & Hl1). destruct l1 as [|y l1]; simpl in H.
        -- injection H as -> ->. congruence.
        -- injection H as -> ->. inversion Hl1; subst. by exists l1, l2.
Qed.

Lemma first_found_None LookPath editors :
  first_found LookPath editors = None <-> Forall (fun x => LookPath x = false) editors.
Proof.
  induction editors as [|x editors IH]; simpl; [done|].
  destruct (LookPath x) eqn:E.
  - split; [done|]. intros H. inversion H; congruence.
  - rewrite IH. split; [by constructor|]. intros H. by inversion H.
Qed.

Lemma candidates_named GOOS : Forall (fun e => e <> EmptyString) (candidates GOOS).
Proof.
  unfold candidates. destruct (String.eqb GOOS "windows"); [|destruct (String.eqb GOOS "darwin")];
    repeat constructor; discriminate.
Qed.

(** X25. The choice of [getEditor].  A non-empty [$EDITOR] is returned
    as it is, without being looked up; with an empty [$EDITOR] the result
    is the first editor of the platform's list that [exec.LookPath] finds;
    and no editor is available exactly when [$EDITOR] is empty and none of
    the platform's editors is found. *)
Theorem getEditor_choice (EDITOR GOOS : string) (LookPath : string -> bool) :
  (EDITOR <> EmptyString ->
   getEditor EDITOR GOOS LookPath = EDITOR /\ IsEditorAvailable EDITOR GOOS LookPath = true)
  /\ (forall l1 e l2,
        candidates GOOS = l1 ++ e :: l2 -> LookPath e = true ->
        Forall (fun x => LookPath x = false) l1 ->
        getEditor EmptyString GOOS LookPath = e)
  /\ (IsEditorAvailable EDITOR GOOS LookPath = false
      <-> EDITOR = EmptyString /\ Forall (fun e => LookPath e = false) (candidates GOOS)).
Proof.
  unfold IsEditorAvailable, getEditor. split; [|split].
  - intros Hne. apply String.eqb_neq in Hne. rewrite Hne. simpl. by rewrite Hne.
  - intros l1 e l2 Hc He Hl1. simpl.
    assert (first_found LookPath (candidates GOOS) = Some e) as ->; [|done].
    apply first_found_Some. by exists l1, l2.
  - destruct (String.eqb EDITOR EmptyString) eqn:E; simpl.
    + apply String.eqb_eq in E. rewrite <- first_found_None.
      destruct (first_found LookPath (candidates GOOS)) as [e|] eqn:Ef.
      * apply first_found_Some in Ef as (l1 & l2 & Hc & _ & _).
        pose proof (candidates_named GOOS) as Hn. rewrite Hc in Hn.
        apply Forall_app in Hn as [_ Hn]. inversion Hn as [|? ? He _]; subst.
        apply String.eqb_neq in He. rewrite He. simpl. split; [done|]. by intros [_ ?].
      * simpl. by split.
    + rewrite E. simpl. apply String.eqb_neq in E. split; [done|]. by intros [? _].
Qed.

End EditorProperties.

Module CmdProperties.

Import OS OSFacts Validation Config Storage StorageFacts Cmd StorageProperties.

(** X26. The temporary file that the add command hands to the editor.
    When [createTempConfigFile] succeeds, the file it names holds the bytes
    of the current [settings.json] if there is one, and the default
    settings otherwise; the default settings pass the validator; and no
    file other than the temporary file and its [.tmp] sibling is
    touched. *)
Theorem createTempConfigFile_content (tempDir : string) (pid : N) (w : World) :
  let '(r, w') := createTempConfigFile tempDir pid w in
  ValidateClaudeSettings defaultSettings = Ok tt
  /\ forall tempFile, r = Ok tempFile ->
       exists settingsPath,
         GetClaudeSettingsPath w = Ok settingsPath
         /\ tempFile = Join [tempDir;
                             "claude-settings-" +:+ NilZero.string_of_uint (N.to_uint pid)
                             +:+ ".json"]
         /\ files w' !! tempFile = Some (default defaultSettings (files w !! settingsPath))
         /\ (forall q, q <> tempFile -> q <> tempFile +:+ ".tmp" ->
               files w' !! q = files w !! q).
Proof.
  unfold createTempConfigFile.
  destruct (GetClaudeSettingsPath w) as [settingsPath|pe]; [|split; [by vm_compute|done]].
  destruct (FileExists settingsPath w) eqn:Hex.
  - destruct (SafeCopy settingsPath _ w) as [[[]|se] w1] eqn:Ec;
      (split; [by vm_compute|]); [|done].
    intros tempFile [= <-]. exists settingsPath. split; [done|]. split; [done|].
    pose proof (SafeCopy_Ok _ _ _ _ Ec) as (data & Hd & Ht). rewrite Hd. split; [done|].
    intros q Hq Hqt. by eapply SafeCopy_other.
  - destruct (WriteFile _ defaultSettings w) as [[[]|we] w1] eqn:Ew;
      (split; [by vm_compute|]); [|done].
    intros tempFile [= <-]. exists settingsPath. split; [done|]. split; [done|].
    unfold FileExists, Stat in Hex.
    assert (files w !! settingsPath = None) as ->.
    { destruct (noaccess w settingsPath); [discriminate|].
      by destruct (files w !! settingsPath). }
    apply WriteFile_Ok in Ew as (Hf & _ & _). rewrite Hf. split.
    + apply lookup_insert_eq.
    + intros q Hq _. by rewrite lookup_insert_ne.
Qed.

End CmdProperties.

(** ** Calls that succeed *)

Module SuccessProperties.

Import OS OSFacts Rfc3339 Validation Config LookupFacts AddFacts StorageFacts ApplyFacts RemoveFacts.
Import CodecFacts AddProperties RemoveProperties RunFacts ApplyProperties OpenProperties.

Lemma after_quiet n w w' :
  after n w w' -> (forall k, faults w k = NoFault) -> forall k, faults w' k = NoFault.
Proof. intros [(_ & _ & -> & _) _] H. exact H. Qed.

Lemma MarshalJSON_total t : marshals t -> exists created, MarshalJSON t = Ok created.
Proof.
  intros [[Ha Hb] Hz]. unfold MarshalJSON.
  apply Z.ltb_ge in Ha, Hb. rewrite Ha, Hb. simpl.
  apply Z.leb_gt in Hz. rewrite Hz. eauto.
Qed.

Lemma marshal_elements_total cs :
  Forall (fun x => marshals (CreatedAt x)) cs -> exists body, marshal_elements cs = Ok body.
Proof.
  induction 1 as [|c cs Hc _ [body IH]]; simpl; [eauto|].
  unfold marshal_config. destruct (MarshalJSON_total _ Hc) as [created ->].
  rewrite IH. eauto.
Qed.

Lemma MarshalIndent_total cs :
  Forall (fun x => marshals (CreatedAt x)) (default [] cs) ->
  exists doc, MarshalIndent cs = Ok doc.
Proof.
  intros H. destruct cs as [[|c l]|]; [by eexists| |by eexists].
  destruct (marshal_elements_total (c :: l) H) as [body Hb].
  unfold MarshalIndent. rewrite Hb. by eexists.
Qed.

(** X27. [AddConfig] goes through when nothing stands in its way: the
    name is not empty and not in use, the source file holds a content that
    the validator accepts, the paths can be used, no transfer fails and the
    time stamps can be written.  The record it returns has the identity and
    the time that [uuid.New] and [time.Now] gave, and the manager holds it
    after the existing records. *)
Theorem AddConfig_run
    (tempFile name description content : string) (m : Manager) (w : World) :
  let id := uuids w (1 + clock w) in
  let c := mkConfig id name description (times w (2 + clock w))
                    (Join [configDir m; "configs"; id +:+ ".json"]) in
  name <> EmptyString -> Forall (fun x => Name x <> name) (elems m) ->
  files w !! tempFile = Some content -> ValidateClaudeSettings content = Ok tt ->
  noaccess w tempFile = false -> noaccess w (FilePath c) = false ->
  noaccess w (metadataPath m) = false ->
  Forall (fun x => marshals (CreatedAt x)) (elems m ++ [c]) ->
  (forall k, faults w k = NoFault) ->
  exists w',
    AddConfig tempFile name description m w
    = (Ok c, mkManager (configDir m) (Some (elems m ++ [c])), w')
    /\ files w' !! FilePath c = Some content.
Proof.
  intros id c Hne Hfresh Ht Hv Hnt Hnc Hnm Hms Hq.
  unfold AddConfig. apply eqb_string_false in Hne. rewrite Hne.
  rewrite (ValidateClaudeSettingsFile_run _ w content), Hv by done.
  apply name_exists_false in Hfresh. rewrite Hfresh.
  unfold uuid_New, time_Now. cbn [uuids times clock tick].
  change (mkConfig (uuids w (S (clock w))) name description (times w (S (S (clock w))))
                   (Join [configDir m; "configs"; uuids w (S (clock w)) +:+ ".json"]))
    with c.
  destruct (copyFile_run tempFile (FilePath c) (tick (tick (tick w))) content)
    as (w4 & E4 & Hf4 & A4); [done|done|done|apply Hq|apply Hq|].
  rewrite E4. unfold saveConfigs.
  destruct (MarshalIndent_total (Some (elems m ++ [c])) Hms) as [doc Hdoc].
  cbn [configs]. rewrite Hdoc. unfold WriteFile.
  change (metadataPath (mkManager (configDir m) (Some (elems m ++ [c]))))
    with (metadataPath m).
  rewrite (after_noaccess _ _ _ _ A4). cbn [noaccess tick]. rewrite Hnm.
  rewrite (after_quiet _ _ _ A4) by done.
  eexists. split; [reflexivity|]. cbn [files tick set_files].
  rewrite lookup_insert_ne by (apply not_eq_sym, stored_path_ne_metadata).
  rewrite Hf4. apply lookup_insert_eq.
Qed.

Lemma AddConfig_run_witness :
  let m := Examples.one_manager in
  let w := Examples.plain_world in
  let c := mkConfig "u1" "base" "first" Examples.stamp
                    "/home/u/.claude-switch/configs/u1.json" in
  exists w',
    AddConfig Examples.temp "base" "first" m w
    = (Ok c, mkManager (configDir m) (Some (elems m ++ [c])), w')
    /\ files w' !! FilePath c = Some "{}".
Proof.
  intros m w c.
  apply (AddConfig_run Examples.temp "base" "first" "{}" m w);
    try reflexivity.
  - discriminate.
  - repeat constructor. discriminate.
  - repeat constructor; vm_compute; congruence.
Defined.

(** X28. [ApplyConfig] goes through when nothing stands in its way: the
    stored file of the record holds a content that the validator accepts
    and is not the backup slot, the paths can be used and no transfer
    fails.  The files are then those of before the call with the former
    target, if there was one, in the backup slot and the record's content
    at the target. *)
Theorem ApplyConfig_run
    (identifier settingsPath content : string) (m : Manager) (w : World) (c : Config) :
  GetConfig m identifier = Ok c -> GetClaudeSettingsPath w = Ok settingsPath ->
  files w !! FilePath c = Some content -> ValidateClaudeSettings content = Ok tt ->
  FilePath c <> settingsPath +:+ ".backup" ->
  noaccess w (FilePath c) = false -> noaccess w settingsPath = false ->
  noaccess w (settingsPath +:+ ".backup") = false ->
  (forall k, faults w k = NoFault) ->
  exists w',
    ApplyConfig identifier m w = (Ok tt, w')
    /\ files w'
       = <[settingsPath := content]>
           (match files w !! settingsPath with
            | Some old => <[settingsPath +:+ ".backup" := old]> (files w)
            | None => files w
            end).
Proof.
  intros Hget Hs Hc Hv Hb Hac Has Hab Hq.
  unfold ApplyConfig. rewrite Hget.
  rewrite (ValidateClaudeSettingsFile_run _ w content), Hv by done.
  change (GetClaudeSettingsPath (tick w)) with (GetClaudeSettingsPath w). rewrite Hs.
  unfold Stat. cbn [noaccess files tick]. rewrite Has.
  destruct (files w !! settingsPath) as [old|] eqn:Hold.
  - destruct (copyFile_run settingsPath (settingsPath +:+ ".backup") (tick w) old)
      as (w2 & -> & Hf2 & A2); [done|done|done|apply Hq|apply Hq|].
    cbv iota beta. cbn [files tick] in Hf2.
    assert (forall k, faults w2 k = NoFault) as Hq2 by (by apply (after_quiet _ _ _ A2)).
    destruct (copyFile_run (FilePath c) settingsPath w2 content) as (w3 & -> & Hf3 & _).
    + by rewrite (after_noaccess _ _ _ _ A2).
    + by rewrite (after_noaccess _ _ _ _ A2).
    + by rewrite Hf2, lookup_insert_ne.
    + apply Hq2.
    + apply Hq2.
    + exists w3. split; [done|]. by rewrite Hf3, Hf2.
  - cbv iota beta.
    destruct (copyFile_run (FilePath c) settingsPath (tick w) content)
      as (w3 & -> & Hf3 & _); [done|done|done|apply Hq|apply Hq|].
    by exists w3.
Qed.

Lemma ApplyConfig_run_witness :
  let w := Examples.world
             {[ FilePath Examples.work := Examples.object_a; Examples.settings := "{}" ]}
             Examples.no_fault in
  exists w',
    ApplyConfig "work" Examples.one_manager w = (Ok tt, w')
    /\ files w'
       = <[Examples.settings := Examples.object_a]>
           (match files w !! Examples.settings with
            | Some old => <[Examples.settings +:+ ".backup" := old]> (files w)
            | None => files w
            end).
Proof.
  intros w.
  apply (ApplyConfig_run "work" Examples.settings Examples.object_a Examples.one_manager w
           Examples.work); try reflexivity.
  discriminate.
Defined.

(** X29. What the restoration of [ApplyConfig] restores is the backup
    slot, whatever it holds.  When there is no target file, so that no
    backup is made, and the backup slot still holds the file of an earlier
    apply, a copy onto the target that fails while writing is followed by
    the copy of that older backup onto the target. *)
Theorem ApplyConfig_restores_older_backup
    (identifier settingsPath content older : string) (m : Manager) (w : World)
    (c : Config) :
  GetConfig m identifier = Ok c -> GetClaudeSettingsPath w = Ok settingsPath ->
  files w !! FilePath c = Some content -> ValidateClaudeSettings content = Ok tt ->
  files w !! settingsPath = None ->
  files w !! (settingsPath +:+ ".backup") = Some older ->
  noaccess w (FilePath c) = false -> noaccess w settingsPath = false ->
  noaccess w (settingsPath +:+ ".backup") = false ->
  faults w (clock w) = NoFault -> faults w (1 + clock w) = NoFault ->
  faults w (2 + clock w) <> NoFault ->
  faults w (3 + clock w) = NoFault -> faults w (4 + clock w) = NoFault ->
  exists e w',
    ApplyConfig identifier m w
    = (Err (Wrap "failed to apply configuration"
              (Wrap "failed to write destination file" e)), w')
    /\ files w' !! settingsPath = Some older.
Proof.
  intros Hget Hs Hc Hv Hnone Hold Hac Has Hab F0 F1 F2 F3 F4.
  pose proof (backup_ne settingsPath) as Hne.
  unfold ApplyConfig. rewrite Hget.
  rewrite (ValidateClaudeSettingsFile_run _ w content), Hv by done.
  change (GetClaudeSettingsPath (tick w)) with (GetClaudeSettingsPath w). rewrite Hs.
  unfold Stat at 1. cbn [noaccess files tick]. rewrite Has, Hnone. cbv iota beta.
  pose proof (after_tick w) as A1.
  destruct (copyFile_write_fails (FilePath c) settingsPath (tick w) content)
    as (e & w3 & -> & A3 & Hf3); try done.
  pose proof (after_trans _ _ _ _ _ A1 A3) as A03. simpl in A03.
  assert (files w3 !! (settingsPath +:+ ".backup") = Some older) as Hb3
      by (by rewrite Hf3).
  assert (Stat (settingsPath +:+ ".backup") w3 = Ok tt) as ->.
  { apply Stat_Ok. rewrite (after_noaccess _ _ _ _ A03). eauto. }
  destruct (copyFile_run (settingsPath +:+ ".backup") settingsPath w3 older)
    as (w4 & E4 & Hf4 & A4).
  { by rewrite (after_noaccess _ _ _ _ A03). }
  { by rewrite (after_noaccess _ _ _ _ A03). }
  { done. }
  { use_fault 0 A03. }
  { use_fault 1 A03. }
  rewrite E4. exists e, w4. split; [done|]. rewrite Hf4. apply lookup_insert_eq.
Qed.

Lemma ApplyConfig_restores_older_backup_witness :
  let w := Examples.world
             {[ FilePath Examples.work := Examples.object_a; Examples.backup := "[0]" ]}
             (Examples.fault_at 2 FailClean) in
  exists e w',
    ApplyConfig "work" Examples.one_manager w
    = (Err (Wrap "failed to apply configuration"
              (Wrap "failed to write destination file" e)), w')
    /\ files w' !! Examples.settings = Some "[0]".
Proof.
  intros w.
  apply (ApplyConfig_restores_older_backup "work" Examples.settings Examples.object_a "[0]"
           Examples.one_manager w Examples.work);
    first [reflexivity | discriminate].
Defined.

End SuccessProperties.

(** ** The add command and blank names *)

Module AddCommandFacts.

Import OS OSFacts Validation Config LookupFacts AddFacts Strings Cmd.







End AddCommandFacts.
